(** * iqserver-report-fetch: the report service

    A shallow embedding of [internal/services/iqreport.go] and the
    properties of [GenerateLatestPolicyReport]: the sequential set-up, the
    bounded fan-out of one goroutine per application, the fan-in over the
    result channel and the final CSV hand-off.

    The goroutines, the two channels, the wait group and the context are
    modelled as one labelled transition system: [step] fires one event of
    one goroutine (or of the environment: a remote call returning, the
    context being cancelled), and a run is a list of events.  The
    collaborators ([client.Client], [report.WriteCSV]) are the environment:
    what they return is part of the event.  The functions of the Go
    standard library that the service calls ([strings.TrimSpace],
    [strings.Cut], [fmt.Errorf]) are modelled after their documentation,
    [filepath.Join] is a parameter. *)

From Stdlib Require Import ZArith Lia Ascii String List Bool Permutation.
From stdpp Require Import base option list gmap strings.

Local Open Scope Z_scope.

(** ** Go values used by the service *)

(** The [error] interface.  The service only builds errors with
    [fmt.Errorf], with or without a wrapped cause ([%w]); errors of the
    collaborators are opaque messages. *)
Inductive error : Type :=
| errorString (msg : string)
| wrapError (prefix : string) (cause : error).

Module fmt.
(** [fmt.Errorf(msg)] without verbs. *)
Definition Errorf (msg : string) : error := errorString msg.
(** [fmt.Errorf(prefix + "%w", err)]. *)
Definition Errorf_w (prefix : string) (err : error) : error :=
  wrapError prefix err.
End fmt.

(** [err.Error()]. *)
Fixpoint Error (e : error) : string :=
  match e with
  | errorString m => m
  | wrapError p c => p +:+ Error c
  end.

(** [errors.Unwrap]. *)
Definition Unwrap (e : error) : option error :=
  match e with
  | errorString _ => None
  | wrapError _ c => Some c
  end.

(** A Go string is a sequence of bytes: [string] with 8-bit [ascii]. *)
Definition byteZ (c : ascii) : Z := Z.of_N (N_of_ascii c).

(** [s[i:]] and [s[:i]]. *)
Fixpoint sliceFrom (i : nat) (s : string) : string :=
  match i, s with
  | O, _ => s
  | S k, String _ s' => sliceFrom k s'
  | S _, EmptyString => EmptyString
  end.

Fixpoint sliceTo (i : nat) (s : string) : string :=
  match i, s with
  | O, _ => EmptyString
  | S k, String c s' => String c (sliceTo k s')
  | S _, EmptyString => EmptyString
  end.

Module utf8.
Definition RuneSelf : Z := 0x80.
Definition RuneError : Z := 0xFFFD.
Definition maskx : Z := 0x3F.
Definition mask2 : Z := 0x1F.
Definition mask3 : Z := 0x0F.
Definition mask4 : Z := 0x07.
Definition locb : Z := 0x80.
Definition hicb : Z := 0xBF.

(** The [first] table of package utf8 together with [acceptRanges]: what
    the first byte of a sequence says about the rest. *)
Inductive firstInfo : Type :=
| xAscii
| xInvalid
| xLead (sz : nat) (lo hi : Z).

Definition first (b : Z) : firstInfo :=
  if b <? 0x80 then xAscii
  else if b <? 0xC2 then xInvalid
  else if b <=? 0xDF then xLead 2 locb hicb
  else if b =? 0xE0 then xLead 3 0xA0 hicb
  else if b <=? 0xEC then xLead 3 locb hicb
  else if b =? 0xED then xLead 3 locb 0x9F
  else if b <=? 0xEF then xLead 3 locb hicb
  else if b =? 0xF0 then xLead 4 0x90 hicb
  else if b <=? 0xF3 then xLead 4 locb hicb
  else if b =? 0xF4 then xLead 4 locb 0x8F
  else xInvalid.

Definition byteAt (s : string) (i : nat) : Z :=
  match String.get i s with
  | Some c => byteZ c
  | None => 0
  end.

(** [utf8.DecodeRuneInString]: the first rune of [s] and its width in
    bytes; an invalid encoding is [(RuneError, 1)]. *)
Definition DecodeRuneInString (s : string) : Z * nat :=
  let n := String.length s in
  if (n <? 1)%nat then (RuneError, 0%nat) else
  let s0 := byteAt s 0 in
  match first s0 with
  | xAscii => (s0, 1%nat)
  | xInvalid => (RuneError, 1%nat)
  | xLead sz lo hi =>
    if (n <? sz)%nat then (RuneError, 1%nat) else
    let s1 := byteAt s 1 in
    if (s1 <? lo) || (hi <? s1) then (RuneError, 1%nat) else
    if (sz <=? 2)%nat then
      (Z.lor (Z.shiftl (Z.land s0 mask2) 6) (Z.land s1 maskx), 2%nat)
    else
    let s2 := byteAt s 2 in
    if (s2 <? locb) || (hicb <? s2) then (RuneError, 1%nat) else
    if (sz <=? 3)%nat then
      (Z.lor (Z.lor (Z.shiftl (Z.land s0 mask3) 12)
                    (Z.shiftl (Z.land s1 maskx) 6))
             (Z.land s2 maskx), 3%nat)
    else
    let s3 := byteAt s 3 in
    if (s3 <? locb) || (hicb <? s3) then (RuneError, 1%nat) else
    (Z.lor (Z.lor (Z.lor (Z.shiftl (Z.land s0 mask4) 18)
                         (Z.shiftl (Z.land s1 maskx) 12))
                  (Z.shiftl (Z.land s2 maskx) 6))
           (Z.land s3 maskx), 4%nat)
  end.
End utf8.

Module unicode.
Definition MaxLatin1 : Z := 0xFF.

(** [unicode.IsSpace]: in Latin-1 the six ASCII spaces, U+0085 and U+00A0;
    beyond it the White_Space table. *)
Definition IsSpace (r : Z) : bool :=
  if r <=? MaxLatin1 then
    (r =? 0x09) || (r =? 0x0A) || (r =? 0x0B) || (r =? 0x0C) ||
    (r =? 0x0D) || (r =? 0x20) || (r =? 0x85) || (r =? 0xA0)
  else
    (r =? 0x1680) || ((0x2000 <=? r) && (r <=? 0x200A)) ||
    (r =? 0x2028) || (r =? 0x2029) || (r =? 0x202F) ||
    (r =? 0x205F) || (r =? 0x3000).
End unicode.

Module strings.
(** The runes of a string with the bytes each was decoded from, as a
    [range] loop over the string yields them.  [skip] counts the bytes
    that still belong to the rune decoded last. *)
Fixpoint runesFrom (skip : nat) (s : string) : list (Z * string) :=
  match s with
  | EmptyString => []
  | String c s' =>
    match skip with
    | S k => runesFrom k s'
    | O =>
      let '(r, w) := utf8.DecodeRuneInString s in
      (r, String c (sliceTo (w - 1) s')) :: runesFrom (w - 1) s'
    end
  end.

Definition runes (s : string) : list (Z * string) := runesFrom 0 s.

Definition isSpaceRune (t : Z * string) : bool := unicode.IsSpace t.1.

Fixpoint dropWhile {A} (p : A → bool) (l : list A) : list A :=
  match l with
  | [] => []
  | x :: l' => if p x then dropWhile p l' else l
  end.

Fixpoint joinBytes (l : list (Z * string)) : string :=
  match l with
  | [] => EmptyString
  | t :: l' => t.2 +:+ joinBytes l'
  end.

(** [strings.TrimSpace]: all leading and trailing white space removed,
    as defined by Unicode. *)
Definition TrimSpace (s : string) : string :=
  joinBytes
    (rev (dropWhile isSpaceRune (rev (dropWhile isSpaceRune (runes s))))).

(** [strings.HasPrefix]. *)
Fixpoint HasPrefix (s prefix : string) : bool :=
  match prefix, s with
  | EmptyString, _ => true
  | String _ _, EmptyString => false
  | String a p', String b s' => Ascii.eqb a b && HasPrefix s' p'
  end.

(** [strings.Index]: the index of the first instance of [substr] in [s],
    or -1. *)
Fixpoint Index (s substr : string) : Z :=
  if HasPrefix s substr then 0
  else match s with
       | EmptyString => -1
       | String _ s' =>
         let i := Index s' substr in
         if i <? 0 then -1 else i + 1
       end.

(** [strings.Cut]. *)
Definition Cut (s sep : string) : string * string * bool :=
  let i := Index s sep in
  if 0 <=? i then
    (sliceTo (Z.to_nat i) s,
     sliceFrom (Z.to_nat i + String.length sep) s, true)
  else (s, EmptyString, false).
End strings.

(** ** The data model *)

Module client.
Module Application.
(** Modelled from the spec: [client.Application] is declared outside
    [iqreport.go]; it is the "identifier pair (internal ID, public ID),
    organization identifier", with the field names the service reads. *)
Record t : Type := mk { ID : string; PublicID : string; OrganizationID : string }.
End Application.

Module Organization.
(** Modelled from the spec: [client.Organization] is declared outside
    [iqreport.go]; it is "identifier, display name". *)
Record t : Type := mk { ID : string; Name : string }.
End Organization.

Module ReportInfo.
(** Modelled from the spec: [client.ReportInfo] is declared outside
    [iqreport.go]; it is the "URL from which a report identifier is
    derived and a processing stage marker". *)
Record t : Type := mk { ReportHTMLURL : string; Stage : string }.
End ReportInfo.

Module ViolationRow.
(** Modelled from the spec: [client.ViolationRow] is declared outside
    [iqreport.go]; its ten fields are those of the canonical record, under
    the names the conversion loop reads. *)
Record t : Type := mk {
  Application : string;
  Organization : string;
  Policy : string;
  Format : string;
  Component : string;
  Threat : Z;
  PolicyAction : string;
  ConstraintName : string;
  Condition : string;
  CVE : string }.
End ViolationRow.
End client.

Module report.
Module Row.
(** Modelled from the spec: [report.Row] is declared outside
    [iqreport.go]; it is the canonical record "{application name,
    organization name, policy name, format, component identifier, threat
    level, policy action, constraint name, condition expression, CVE
    identifier}", under the names the conversion loop writes. *)
Record t : Type := mk {
  Application : string;
  Organization : string;
  Policy : string;
  Format : string;
  Component : string;
  Threat : Z;
  PolicyAction : string;
  ConstraintName : string;
  Condition : string;
  CVE : string }.

(** The zero value, what [make([]report.Row, n)] fills the slice with. *)
Definition zero : t :=
  mk EmptyString EmptyString EmptyString EmptyString EmptyString 0
     EmptyString EmptyString EmptyString EmptyString.
End Row.
End report.

Module config.
(** Modelled from the spec: [config.Config] is declared outside
    [iqreport.go].  The first four fields are those that [config_test.go]
    reads; the last one stands for the "concurrency ceiling (default 10)"
    that the spec lists among the configuration consumed. *)
Record Config : Type := mkConfig {
  IQServerURL : string;
  IQUsername : string;
  IQPassword : string;
  OutputDir : string;
  MaxConcurrency : nat }.
End config.

(** [IQReportService]: the client [cl] is the environment of the machine
    below and the [logger] is its log. *)
Record IQReportService : Type := NewIQReportService { cfg : config.Config }.

Record AppReportResult : Type := mkResult {
  Rows : list report.Row.t;
  Err : option error }.

(** What the zerolog calls leave behind: level, message and, for the
    per-application logger, the application it was derived for. *)
Inductive Level : Type := Debug | Info | Warn | ErrorLevel.

Record LogEntry : Type := mkLog {
  level : Level;
  logApp : option client.Application.t;
  msg : string }.

(** The calls made on the collaborators, with their arguments. *)
Inductive Call : Type :=
| CallGetApplications (orgID : option string)
| CallGetOrganizations
| CallGetLatestReportInfo (appID : string)
| CallGetPolicyViolations (publicID reportID orgName : string)
| CallWriteCSV (target : string) (rows : list report.Row.t).

(** The body of the loop at lines 150-161: one violation record to one
    report row. *)
Definition toReportRow (r : client.ViolationRow.t) : report.Row.t :=
  {| report.Row.Application := client.ViolationRow.Application r;
     report.Row.Organization := client.ViolationRow.Organization r;
     report.Row.Policy := client.ViolationRow.Policy r;
     report.Row.Format := client.ViolationRow.Format r;
     report.Row.Component := client.ViolationRow.Component r;
     report.Row.Threat := client.ViolationRow.Threat r;
     report.Row.PolicyAction := client.ViolationRow.PolicyAction r;
     report.Row.ConstraintName := client.ViolationRow.ConstraintName r;
     report.Row.Condition := client.ViolationRow.Condition r;
     report.Row.CVE := client.ViolationRow.CVE r |}.

(** Lines 148-162: the slice is made with [len(clientRows)] zero rows and
    filled by index. *)
Fixpoint fillRows (i : nat) (clientRows : list client.ViolationRow.t)
    (reportRows : list report.Row.t) : list report.Row.t :=
  match clientRows with
  | [] => reportRows
  | r :: rest => fillRows (S i) rest (<[i := toReportRow r]> reportRows)
  end.

Definition convertRows (clientRows : list client.ViolationRow.t)
    : list report.Row.t :=
  fillRows 0 clientRows (replicate (length clientRows) report.Row.zero).

(** Lines 69-72: the ID-to-name map; a later organization with the same ID
    overwrites an earlier one. *)
Definition buildOrgIDToName (orgs : list client.Organization.t)
    : gmap string string :=
  foldl (λ m org, <[client.Organization.ID org := client.Organization.Name org]> m)
        ∅ orgs.

(** Lines 133-137: the comma-ok lookup with the ID as fallback. *)
Definition resolveOrgName (orgIDToName : gmap string string)
    (app : client.Application.t) : string * bool :=
  match orgIDToName !! client.Application.OrganizationID app with
  | Some name => (name, true)
  | None => (client.Application.OrganizationID app, false)
  end.

(** The semaphore's capacity, [make(chan struct{}, 10)]. *)
Definition maxConcurrent : nat := 10.

Definition reportMarker : string := "/report/".


(** ** The goroutines and the state they share *)

(** How a per-application goroutine ended. *)
Inductive Outcome : Type :=
| CancelledWaiting                         (* line 101 *)
| CancelledBeforeFetch                     (* line 106 *)
| InfoFailed (err : error)                 (* line 115 *)
| NoReport                                 (* line 121 *)
| ParseFailed                              (* line 128 *)
| ViolationsFailed (err : error)           (* line 143 *)
| Delivered (rows : list report.Row.t)     (* line 166 *)
| NotDelivered (rows : list report.Row.t). (* line 167 *)

(** Where a per-application goroutine stands.  From [AtCtxCheck] to
    [AtRelease] it holds a semaphore slot; [AtRelease] and [AtWgDone] are
    the two deferred calls, run in reverse order of their [defer]. *)
Inductive TaskPC : Type :=
| AtAcquire
| AtCtxCheck
| AtGetLatestReportInfo
| AtGetPolicyViolations (reportID orgName : string)
| AtSend (reportRows : list report.Row.t)
| AtRelease (o : Outcome)
| AtWgDone (o : Outcome)
| Exited (o : Outcome).

(** The goroutine of lines 173-176. *)
Inductive CloserPC : Type :=
| NotStarted
| AtWait
| AtClose
| Closed.

(** The calling goroutine. *)
Inductive MainPC : Type :=
| AtGetApplications
| AtGetOrganizations
| AtLaunch
| AtRange
| AtWriteCSV
| Returned (path : string) (err : option error).

Record State : Type := mkState {
  main : MainPC;
  tasks : list TaskPC;          (* goroutine i works on apps[i] *)
  closer : CloserPC;
  ctxDone : bool;               (* ctx.Done() is closed, ctx.Err() != nil *)
  apps : list client.Application.t;
  orgIDToName : gmap string string;
  sem : nat;                    (* len(sem) *)
  resultsChan : list AppReportResult;
  chanClosed : bool;
  wg : nat;
  allViolationRows : list report.Row.t;
  log : list LogEntry;
  calls : list Call;
  panicked : bool }.

(** One atomic action of one goroutine, or of the environment.  A remote
    call carries what the collaborator returned. *)
Inductive Event : Type :=
| EvGetApplications (got : list client.Application.t) (err : option error)
| EvGetOrganizations (got : list client.Organization.t) (err : option error)
| EvGo
| EvGoCloser
| EvCancel
| EvAcquire (i : nat)
| EvAcquireCancelled (i : nat)
| EvCtxCheck (i : nat)
| EvGetLatestReportInfo (i : nat) (reportInfo : option client.ReportInfo.t)
    (err : option error)
| EvGetPolicyViolations (i : nat) (clientRows : list client.ViolationRow.t)
    (err : option error)
| EvSend (i : nat)
| EvSendCancelled (i : nat)
| EvRelease (i : nat)
| EvWgDone (i : nat)
| EvWaitReturns
| EvClose
| EvRecv
| EvRangeEnd
| EvWriteCSV (err : option error).

Definition initial : State :=
  {| main := AtGetApplications; tasks := []; closer := NotStarted;
     ctxDone := false; apps := []; orgIDToName := ∅; sem := 0%nat;
     resultsChan := []; chanClosed := false; wg := 0%nat;
     allViolationRows := []; log := []; calls := []; panicked := false |}.

Definition setMain (m : MainPC) (st : State) : State :=
  mkState m (tasks st) (closer st) (ctxDone st) (apps st) (orgIDToName st)
    (sem st) (resultsChan st) (chanClosed st) (wg st) (allViolationRows st)
    (log st) (calls st) (panicked st).

Definition setTasks (ts : list TaskPC) (st : State) : State :=
  mkState (main st) ts (closer st) (ctxDone st) (apps st) (orgIDToName st)
    (sem st) (resultsChan st) (chanClosed st) (wg st) (allViolationRows st)
    (log st) (calls st) (panicked st).

Definition setCloser (c : CloserPC) (st : State) : State :=
  mkState (main st) (tasks st) c (ctxDone st) (apps st) (orgIDToName st)
    (sem st) (resultsChan st) (chanClosed st) (wg st) (allViolationRows st)
    (log st) (calls st) (panicked st).

Definition setCtxDone (st : State) : State :=
  mkState (main st) (tasks st) (closer st) true (apps st) (orgIDToName st)
    (sem st) (resultsChan st) (chanClosed st) (wg st) (allViolationRows st)
    (log st) (calls st) (panicked st).

Definition setApps (l : list client.Application.t) (st : State) : State :=
  mkState (main st) (tasks st) (closer st) (ctxDone st) l (orgIDToName st)
    (sem st) (resultsChan st) (chanClosed st) (wg st) (allViolationRows st)
    (log st) (calls st) (panicked st).

Definition setOrgIDToName (m : gmap string string) (st : State) : State :=
  mkState (main st) (tasks st) (closer st) (ctxDone st) (apps st) m
    (sem st) (resultsChan st) (chanClosed st) (wg st) (allViolationRows st)
    (log st) (calls st) (panicked st).

Definition setSem (n : nat) (st : State) : State :=
  mkState (main st) (tasks st) (closer st) (ctxDone st) (apps st)
    (orgIDToName st) n (resultsChan st) (chanClosed st) (wg st)
    (allViolationRows st) (log st) (calls st) (panicked st).

Definition setResultsChan (buf : list AppReportResult) (st : State) : State :=
  mkState (main st) (tasks st) (closer st) (ctxDone st) (apps st)
    (orgIDToName st) (sem st) buf (chanClosed st) (wg st)
    (allViolationRows st) (log st) (calls st) (panicked st).

Definition setChanClosed (st : State) : State :=
  mkState (main st) (tasks st) (closer st) (ctxDone st) (apps st)
    (orgIDToName st) (sem st) (resultsChan st) true (wg st)
    (allViolationRows st) (log st) (calls st) (panicked st).

Definition setWg (n : nat) (st : State) : State :=
  mkState (main st) (tasks st) (closer st) (ctxDone st) (apps st)
    (orgIDToName st) (sem st) (resultsChan st) (chanClosed st) n
    (allViolationRows st) (log st) (calls st) (panicked st).

Definition setAllViolationRows (rows : list report.Row.t) (st : State) : State :=
  mkState (main st) (tasks st) (closer st) (ctxDone st) (apps st)
    (orgIDToName st) (sem st) (resultsChan st) (chanClosed st) (wg st)
    rows (log st) (calls st) (panicked st).

Definition logMsg (lvl : Level) (who : option client.Application.t)
    (m : string) (st : State) : State :=
  mkState (main st) (tasks st) (closer st) (ctxDone st) (apps st)
    (orgIDToName st) (sem st) (resultsChan st) (chanClosed st) (wg st)
    (allViolationRows st) (log st ++ [mkLog lvl who m]) (calls st)
    (panicked st).

Definition recordCall (c : Call) (st : State) : State :=
  mkState (main st) (tasks st) (closer st) (ctxDone st) (apps st)
    (orgIDToName st) (sem st) (resultsChan st) (chanClosed st) (wg st)
    (allViolationRows st) (log st) (calls st ++ [c]) (panicked st).

(** A run-time panic: a send on a closed channel, a second [close], a
    negative wait-group counter. *)
Definition panic (st : State) : State :=
  mkState (main st) (tasks st) (closer st) (ctxDone st) (apps st)
    (orgIDToName st) (sem st) (resultsChan st) (chanClosed st) (wg st)
    (allViolationRows st) (log st) (calls st) true.

Definition setTask (i : nat) (pc : TaskPC) (st : State) : State :=
  setTasks (<[i := pc]> (tasks st)) st.

(** ** GenerateLatestPolicyReport *)

Section Service.

(** [filepath.Join] of the standard library, on two elements. *)
Variable filepath_Join : string → string → string.

(** The receiver and the arguments of the call. *)
Variable s : IQReportService.
Variable orgID : option string.
Variable filename : string.

Local Notation "st |> f" := (f st) (at level 45, left associativity, only parsing).

(** Lines 39-61. *)
Definition onApplications (got : list client.Application.t)
    (err : option error) (st : State) : State :=
  let st := st |> logMsg Info None "GenerateLatestPolicyReport invoked"
               |> recordCall (CallGetApplications orgID) in
  match err with
  | Some e =>
    st |> logMsg ErrorLevel None "failed to retrieve application list"
       |> setMain (Returned EmptyString (Some (fmt.Errorf_w "get applications: " e)))
  | None =>
    let st := st |> logMsg Info None "Fetched applications" in
    if (length got =? 0)%nat then
      st |> logMsg Warn None "Task finished: no applications found matching criteria"
         |> setMain (Returned EmptyString (Some (fmt.Errorf "no applications found")))
    else st |> setApps got |> setMain AtGetOrganizations
  end.

(** Lines 64-84.  The result channel of line 81 is [resultsChan], empty,
    with capacity [len(apps)]. *)
Definition onOrganizations (got : list client.Organization.t)
    (err : option error) (st : State) : State :=
  let st := st |> recordCall CallGetOrganizations in
  match err with
  | Some e =>
    st |> logMsg ErrorLevel None "failed to retrieve organization list"
       |> setMain (Returned EmptyString (Some (fmt.Errorf_w "get organizations: " e)))
  | None =>
    st |> setOrgIDToName (buildOrgIDToName got)
       |> logMsg Info None "Created organization ID-to-name map"
       |> logMsg Info None "Starting concurrent report fetching for applications"
       |> setMain AtLaunch
  end.

(** Lines 112-137: the metadata call has returned. *)
Definition onReportInfo (i : nat) (app : client.Application.t)
    (reportInfo : option client.ReportInfo.t) (err : option error)
    (st : State) : State :=
  let st := st |> recordCall (CallGetLatestReportInfo (client.Application.ID app)) in
  match err with
  | Some e =>
    st |> logMsg ErrorLevel (Some app) "failed to fetch latest report info"
       |> setTask i (AtRelease (InfoFailed e))
  | None =>
    let skip :=
      st |> logMsg Info (Some app) "No recent report found for application, skipping"
         |> setTask i (AtRelease NoReport) in
    match reportInfo with
    | None => skip
    | Some ri =>
      let url := client.ReportInfo.ReportHTMLURL ri in
      if String.eqb (strings.TrimSpace url) EmptyString then skip else
      let '(_, reportID, found) := strings.Cut url reportMarker in
      if negb found || String.eqb reportID EmptyString then
        st |> logMsg ErrorLevel (Some app) "failed to parse report ID from URL"
           |> setTask i (AtRelease ParseFailed)
      else
        let st := st |> logMsg Debug (Some app) "Parsed report ID" in
        let '(orgName, ok) := resolveOrgName (orgIDToName st) app in
        let st :=
          if ok then st
          else st |> logMsg Warn (Some app)
                       "organization name not found, using ID as fallback" in
        st |> setTask i (AtGetPolicyViolations reportID orgName)
    end
  end.

(** Lines 140-162: the violations call has returned. *)
Definition onPolicyViolations (i : nat) (app : client.Application.t)
    (reportID orgName : string) (clientRows : list client.ViolationRow.t)
    (err : option error) (st : State) : State :=
  let st := st |> recordCall (CallGetPolicyViolations
                                (client.Application.PublicID app) reportID orgName) in
  match err with
  | Some e =>
    st |> logMsg ErrorLevel (Some app) "failed to fetch policy violations"
       |> setTask i (AtRelease (ViolationsFailed e))
  | None =>
    st |> logMsg Debug (Some app) "Fetched policy violations"
       |> setTask i (AtSend (convertRows clientRows))
  end.

(** Line 190. *)
Definition target : string := filepath_Join (config.OutputDir (cfg s)) filename.

(** Lines 191-199. *)
Definition onWriteCSV (err : option error) (st : State) : State :=
  let st := st |> logMsg Info None "Writing CSV report"
               |> recordCall (CallWriteCSV target (allViolationRows st)) in
  match err with
  | Some e => st |> setMain (Returned EmptyString (Some (fmt.Errorf_w "write csv: " e)))
  | None =>
    st |> logMsg Info None "Report written successfully"
       |> setMain (Returned target None)
  end.

(** Goroutine [i] with the application it captured. *)
Definition taskAt (st : State) (i : nat) : option (TaskPC * client.Application.t) :=
  match tasks st !! i, apps st !! i with
  | Some pc, Some app => Some (pc, app)
  | _, _ => None
  end.

(** One step of the system; [None] when the event is not enabled in [st]:
    the goroutine is elsewhere, or it is blocked.  A [select] with two
    ready cases has both its events enabled.  [wg.Add(1)] and the [go]
    statement of one loop iteration are one step of the calling goroutine:
    nothing reads the counter before the loop is over.  A remote call is
    one step, taken when it returns; until then its goroutine stays where
    it is and the others move. *)
Definition step (st : State) (e : Event) : option State :=
  if panicked st then None else
  match e with
  | EvCancel => if ctxDone st then None else Some (setCtxDone st)
  | EvGetApplications got err =>
    match main st with
    | AtGetApplications => Some (onApplications got err st)
    | _ => None
    end
  | EvGetOrganizations got err =>
    match main st with
    | AtGetOrganizations => Some (onOrganizations got err st)
    | _ => None
    end
  | EvGo =>                                   (* lines 87-93 *)
    match main st with
    | AtLaunch =>
      if (length (tasks st) <? length (apps st))%nat then
        Some (st |> setWg (S (wg st)) |> setTasks (tasks st ++ [AtAcquire]))
      else None
    | _ => None
    end
  | EvGoCloser =>                             (* line 173 *)
    match main st with
    | AtLaunch =>
      if (length (tasks st) <? length (apps st))%nat then None
      else Some (st |> setCloser AtWait |> setMain AtRange)
    | _ => None
    end
  | EvAcquire i =>                            (* line 98 *)
    match taskAt st i with
    | Some (AtAcquire, _) =>
      if (sem st <? maxConcurrent)%nat then
        Some (st |> setSem (S (sem st)) |> setTask i AtCtxCheck)
      else None
    | _ => None
    end
  | EvAcquireCancelled i =>                   (* line 100 *)
    match taskAt st i with
    | Some (AtAcquire, _) =>
      if ctxDone st then Some (st |> setTask i (AtWgDone CancelledWaiting))
      else None
    | _ => None
    end
  | EvCtxCheck i =>                           (* line 105 *)
    match taskAt st i with
    | Some (AtCtxCheck, _) =>
      if ctxDone st then Some (st |> setTask i (AtRelease CancelledBeforeFetch))
      else Some (st |> setTask i AtGetLatestReportInfo)
    | _ => None
    end
  | EvGetLatestReportInfo i reportInfo err => (* line 112 *)
    match taskAt st i with
    | Some (AtGetLatestReportInfo, app) => Some (onReportInfo i app reportInfo err st)
    | _ => None
    end
  | EvGetPolicyViolations i clientRows err => (* line 140 *)
    match taskAt st i with
    | Some (AtGetPolicyViolations reportID orgName, app) =>
      Some (onPolicyViolations i app reportID orgName clientRows err st)
    | _ => None
    end
  | EvSend i =>                               (* line 166 *)
    match taskAt st i with
    | Some (AtSend reportRows, _) =>
      if chanClosed st then Some (panic st)
      else if (length (resultsChan st) <? length (apps st))%nat then
        Some (st |> setResultsChan (resultsChan st ++ [mkResult reportRows None])
                 |> setTask i (AtRelease (Delivered reportRows)))
      else None
    | _ => None
    end
  | EvSendCancelled i =>                      (* line 167 *)
    match taskAt st i with
    | Some (AtSend reportRows, _) =>
      if ctxDone st then Some (st |> setTask i (AtRelease (NotDelivered reportRows)))
      else None
    | _ => None
    end
  | EvRelease i =>                            (* line 99, deferred *)
    match taskAt st i with
    | Some (AtRelease o, _) =>
      match sem st with
      | S n => Some (st |> setSem n |> setTask i (AtWgDone o))
      | O => None
      end
    | _ => None
    end
  | EvWgDone i =>                             (* line 94, deferred *)
    match taskAt st i with
    | Some (AtWgDone o, _) =>
      match wg st with
      | S n => Some (st |> setWg n |> setTask i (Exited o))
      | O => Some (panic st)
      end
    | _ => None
    end
  | EvWaitReturns =>                          (* line 174 *)
    match closer st, wg st with
    | AtWait, O => Some (st |> setCloser AtClose)
    | _, _ => None
    end
  | EvClose =>                                (* line 175 *)
    match closer st with
    | AtClose =>
      if chanClosed st then Some (panic st)
      else Some (st |> setChanClosed |> setCloser Closed)
    | _ => None
    end
  | EvRecv =>                                 (* lines 181-184 *)
    match main st, resultsChan st with
    | AtRange, res :: rest =>
      Some (st |> setResultsChan rest
               |> setAllViolationRows (allViolationRows st ++ Rows res))
    | _, _ => None
    end
  | EvRangeEnd =>                             (* line 181, channel drained *)
    match main st, resultsChan st with
    | AtRange, [] => if chanClosed st then Some (st |> setMain AtWriteCSV) else None
    | _, _ => None
    end
  | EvWriteCSV err =>                         (* line 193 *)
    match main st with
    | AtWriteCSV => Some (onWriteCSV err st)
    | _ => None
    end
  end.

(** A run: the events fire one after the other. *)
Fixpoint run (st : State) (es : list Event) : option State :=
  match es with
  | [] => Some st
  | e :: es' =>
    match step st e with
    | Some st' => run st' es'
    | None => None
    end
  end.

(** The states of the executions of [GenerateLatestPolicyReport]. *)
Definition reachable (st : State) : Prop := ∃ es, run initial es = Some st.


End Service.

(** ** What the properties are stated with *)

Fixpoint countIf {A} (p : A → bool) (l : list A) : nat :=
  match l with
  | [] => 0%nat
  | x :: l' => ((if p x then 1 else 0) + countIf p l')%nat
  end.

(** The goroutine is past "ticket acquired" and before "ticket released". *)
Definition holdsTicket (pc : TaskPC) : bool :=
  match pc with
  | AtCtxCheck | AtGetLatestReportInfo | AtGetPolicyViolations _ _
  | AtSend _ | AtRelease _ => true
  | AtAcquire | AtWgDone _ | Exited _ => false
  end.

Definition ticketsHeld (st : State) : nat := countIf holdsTicket (tasks st).

(** The goroutine has returned and run its deferred calls. *)
Definition terminated (pc : TaskPC) : bool :=
  match pc with
  | Exited _ => true
  | _ => false
  end.

Definition live (pc : TaskPC) : bool := negb (terminated pc).

(** The outcome of a goroutine that has reached a [return] or the end of
    its body. *)
Definition outcomeOf (pc : TaskPC) : option Outcome :=
  match pc with
  | AtRelease o | AtWgDone o | Exited o => Some o
  | _ => None
  end.

Definition outcomeAt (st : State) (i : nat) : option Outcome :=
  match tasks st !! i with
  | Some pc => outcomeOf pc
  | None => None
  end.

(** The rows a goroutine has put on the result channel. *)
Definition outcomeRows (o : Outcome) : list report.Row.t :=
  match o with
  | Delivered rows => rows
  | _ => []
  end.

Definition deliveredRows (pc : TaskPC) : list report.Row.t :=
  match outcomeOf pc with
  | Some o => outcomeRows o
  | None => []
  end.

Definition hasDelivered (pc : TaskPC) : bool :=
  match outcomeOf pc with
  | Some (Delivered _) => true
  | _ => false
  end.

Definition atSend (pc : TaskPC) : bool :=
  match pc with
  | AtSend _ => true
  | _ => false
  end.

(** The events of goroutine [i] in a run. *)
Definition isAcquireOf (i : nat) (e : Event) : bool :=
  match e with
  | EvAcquire j => Nat.eqb i j
  | _ => false
  end.

Definition isReleaseOf (i : nat) (e : Event) : bool :=
  match e with
  | EvRelease j => Nat.eqb i j
  | _ => false
  end.

Definition isSendOf (i : nat) (e : Event) : bool :=
  match e with
  | EvSend j => Nat.eqb i j
  | _ => false
  end.

Definition acquires (i : nat) (es : list Event) : nat := countIf (isAcquireOf i) es.
Definition releases (i : nat) (es : list Event) : nat := countIf (isReleaseOf i) es.
Definition sends (i : nat) (es : list Event) : nat := countIf (isSendOf i) es.

(** The goroutines in the order in which they sent their result. *)
Definition sentBy (e : Event) : list nat :=
  match e with
  | EvSend i => [i]
  | _ => []
  end.

Definition sendOrder (es : list Event) : list nat := concat (map sentBy es).

(** The rows that goroutine [i] was handed by a successful violations
    call in the run; none when it made no such call. *)
Definition violationsStep (i : nat) (acc : list client.ViolationRow.t)
    (e : Event) : list client.ViolationRow.t :=
  match e with
  | EvGetPolicyViolations j clientRows None =>
    if Nat.eqb i j then clientRows else acc
  | _ => acc
  end.

Definition violationsOf (i : nat) (es : list Event) : list client.ViolationRow.t :=
  fold_left (violationsStep i) es [].

(** A remote call that returned an error. *)
Definition callFailed (e : Event) : bool :=
  match e with
  | EvGetApplications _ (Some _) | EvGetOrganizations _ (Some _)
  | EvGetLatestReportInfo _ _ (Some _) | EvGetPolicyViolations _ _ (Some _)
  | EvWriteCSV (Some _) => true
  | _ => false
  end.

(** A string is empty or white space only: each of its runes is a space. *)
Definition whitespaceOnly (s : string) : bool :=
  forallb strings.isSpaceRune (strings.runes s).

(** [sep] occurs in [s] at byte offset [k]. *)
Definition occursAt (k : nat) (sep s : string) : bool :=
  strings.HasPrefix (sliceFrom k s) sep.

(** The three per-application stages that can fail, as the event that
    reports the failure shows it: lines 113, 126 and 141. *)
Definition stageFailure (e : Event) : option (nat * Outcome) :=
  match e with
  | EvGetLatestReportInfo i _ (Some err) => Some (i, InfoFailed err)
  | EvGetLatestReportInfo i (Some ri) None =>
    let url := client.ReportInfo.ReportHTMLURL ri in
    if String.eqb (strings.TrimSpace url) EmptyString then None
    else
      let '(_, reportID, found) := strings.Cut url reportMarker in
      if negb found || String.eqb reportID EmptyString then Some (i, ParseFailed)
      else None
  | EvGetPolicyViolations i _ (Some err) => Some (i, ViolationsFailed err)
  | _ => None
  end.

(** What [GenerateLatestPolicyReport] returns once [WriteCSV] has. *)
Definition returnOfWrite (target : string) (err : option error) : MainPC :=
  match err with
  | Some e => Returned EmptyString (Some (fmt.Errorf_w "write csv: " e))
  | None => Returned target None
  end.

(** ** The invariant of the reachable states *)

Section Invariants.

Variable filepath_Join : string → string → string.
Variable s : IQReportService.
Variable filename : string.

(** Where the calling goroutine is fixes what has been started. *)
Definition mainOK (st : State) : Prop :=
  match main st with
  | AtGetApplications =>
    tasks st = [] ∧ apps st = [] ∧ closer st = NotStarted ∧ resultsChan st = []
  | AtGetOrganizations =>
    tasks st = [] ∧ apps st ≠ [] ∧ closer st = NotStarted ∧ resultsChan st = []
  | AtLaunch => closer st = NotStarted ∧ apps st ≠ []
  | AtRange =>
    closer st ≠ NotStarted ∧ length (tasks st) = length (apps st) ∧ apps st ≠ []
  | AtWriteCSV =>
    closer st = Closed ∧ length (tasks st) = length (apps st) ∧
    resultsChan st = [] ∧ apps st ≠ []
  | Returned p e =>
    (tasks st = [] ∧ closer st = NotStarted ∧ resultsChan st = [] ∧
     p = EmptyString ∧ e ≠ None) ∨
    (closer st = Closed ∧ length (tasks st) = length (apps st) ∧
     resultsChan st = [] ∧ apps st ≠ [] ∧
     ((p = EmptyString ∧ e ≠ None) ∨
      (p = target filepath_Join s filename ∧ e = None)))
  end.

(** The closing goroutine passes [wg.Wait()] only at counter zero. *)
Definition closerOK (st : State) : Prop :=
  match closer st with
  | NotStarted | AtWait => chanClosed st = false
  | AtClose => chanClosed st = false ∧ wg st = 0%nat
  | Closed => chanClosed st = true ∧ wg st = 0%nat
  end.

Record Inv (st : State) : Prop := mkInv {
  inv_panic : panicked st = false;
  inv_len : (length (tasks st) ≤ length (apps st))%nat;
  inv_sem : sem st = countIf holdsTicket (tasks st);
  inv_bound : (sem st ≤ maxConcurrent)%nat;
  inv_wg : wg st = countIf live (tasks st);
  inv_buf : (length (resultsChan st) ≤ countIf hasDelivered (tasks st))%nat;
  inv_main : mainOK st;
  inv_closer : closerOK st }.

End Invariants.

(** ** What a run says about each goroutine *)

(** How often goroutine [i] has taken, given back and sent, read off its
    position. *)
Definition acquiredBy (pc : option TaskPC) : nat :=
  match pc with
  | None | Some AtAcquire
  | Some (AtWgDone CancelledWaiting) | Some (Exited CancelledWaiting) => 0
  | Some _ => 1
  end.

Definition releasedBy (pc : option TaskPC) : nat :=
  match pc with
  | Some (AtWgDone CancelledWaiting) | Some (Exited CancelledWaiting) => 0
  | Some (AtWgDone _) | Some (Exited _) => 1
  | _ => 0
  end.

Definition sentCount (pc : option TaskPC) : nat :=
  match pc with
  | Some pc => if hasDelivered pc then 1 else 0
  | None => 0
  end.

(** The rows a goroutine carries once its violations call has succeeded. *)
Definition carried (pc : option TaskPC) : option (list report.Row.t) :=
  match pc with
  | Some (AtSend rows) => Some rows
  | Some (AtRelease (Delivered rows)) | Some (AtWgDone (Delivered rows))
  | Some (Exited (Delivered rows)) => Some rows
  | Some (AtRelease (NotDelivered rows)) | Some (AtWgDone (NotDelivered rows))
  | Some (Exited (NotDelivered rows)) => Some rows
  | _ => None
  end.

(** An outcome that only a cancelled context produces. *)
Definition cancelOutcome (o : Outcome) : bool :=
  match o with
  | CancelledWaiting | CancelledBeforeFetch | NotDelivered _ => true
  | _ => false
  end.

Record TaskInv (es : list Event) (st : State) (i : nat) : Prop := mkTaskInv {
  ti_acquires : acquires i es = acquiredBy (tasks st !! i);
  ti_releases : releases i es = releasedBy (tasks st !! i);
  ti_sends : sends i es = sentCount (tasks st !! i);
  ti_release : tasks st !! i ≠ Some (AtRelease CancelledWaiting);
  ti_rows :
    match carried (tasks st !! i) with
    | Some rows => rows = convertRows (violationsOf i es)
    | None => violationsOf i es = []
    end;
  ti_order : i ∈ sendOrder es ↔ sentCount (tasks st !! i) = 1%nat }.

(** The rows sent on the result channel during a run, in the order of the
    sends. *)
Definition sentRows (es : list Event) : list report.Row.t :=
  concat (map (λ i, convertRows (violationsOf i es)) (sendOrder es)).

(** ** What a run says about the calling goroutine *)

(** The five ways in which [GenerateLatestPolicyReport] returns, each with
    the event that causes it. *)
Definition returnedBy (target : string) (es : list Event)
    (path : string) (err : option error) : Prop :=
  (∃ got x, In (EvGetApplications got (Some x)) es ∧ path = EmptyString ∧
            err = Some (fmt.Errorf_w "get applications: " x)) ∨
  (In (EvGetApplications [] None) es ∧ path = EmptyString ∧
   err = Some (fmt.Errorf "no applications found")) ∨
  (∃ got x, In (EvGetOrganizations got (Some x)) es ∧ path = EmptyString ∧
            err = Some (fmt.Errorf_w "get organizations: " x)) ∨
  (∃ x, In (EvWriteCSV (Some x)) es ∧ path = EmptyString ∧
        err = Some (fmt.Errorf_w "write csv: " x)) ∨
  (In (EvWriteCSV None) es ∧ path = target ∧ err = None).

(** The calling goroutine is past the two sequential fetches. *)
Definition pastSetup (es : list Event) (st : State) : Prop :=
  match main st with
  | AtGetApplications | AtGetOrganizations => False
  | Returned _ _ => ∃ r, In (EvWriteCSV r) es
  | _ => True
  end.

(** Only the context has been cancelled so far. *)
Definition onlyCancel (es : list Event) : Prop := ∀ e, In e es → e = EvCancel.

(** [k] is the offset of the first instance of [sep] in [s]. *)
Definition firstOccurrence (sep s : string) (k : nat) : Prop :=
  occursAt k sep s = true ∧ ∀ j, (j < k)%nat → occursAt j sep s = false.

(** ** The organization name handed to the violations call *)

(** The name is the table's entry for the organization of the
    application, or the organization ID itself. *)
Definition resolvedFor (st : State) (app : client.Application.t) (name : string) : Prop :=
  name = default (client.Application.OrganizationID app)
                 (orgIDToName st !! client.Application.OrganizationID app).

Definition isViolationsCall (c : Call) : bool :=
  match c with
  | CallGetPolicyViolations _ _ _ => true
  | _ => false
  end.

Record ResolveInv (st : State) : Prop := mkResolveInv {
  ri_tasks : ∀ i reportID name app,
    tasks st !! i = Some (AtGetPolicyViolations reportID name) →
    apps st !! i = Some app → resolvedFor st app name;
  ri_calls : ∀ publicID reportID name,
    In (CallGetPolicyViolations publicID reportID name) (calls st) →
    ∃ app, In app (apps st) ∧ publicID = client.Application.PublicID app ∧
           resolvedFor st app name;
  ri_early :
    match main st with
    | AtGetApplications | AtGetOrganizations =>
      tasks st = [] ∧ forallb (λ c, negb (isViolationsCall c)) (calls st) = true
    | _ => True
    end }.

(** ** How much is left to do *)

(** The steps a goroutine has before it, counted twice so that a send,
    which also fills a buffer slot, still makes the total smaller. *)
Definition taskRank (pc : TaskPC) : nat :=
  match pc with
  | AtAcquire => 14
  | AtCtxCheck => 12
  | AtGetLatestReportInfo => 10
  | AtGetPolicyViolations _ _ => 8
  | AtSend _ => 6
  | AtRelease _ => 4
  | AtWgDone _ => 2
  | Exited _ => 0
  end.

Definition mainRank (m : MainPC) : nat :=
  match m with
  | AtGetApplications => 5
  | AtGetOrganizations => 4
  | AtLaunch => 3
  | AtRange => 2
  | AtWriteCSV => 1
  | Returned _ _ => 0
  end.

Definition closerRank (c : CloserPC) : nat :=
  match c with
  | NotStarted => 3
  | AtWait => 2
  | AtClose => 1
  | Closed => 0
  end.

(** An upper bound on the number of steps that can still be taken, once
    the application list is there. *)
Definition stepsLeft (st : State) : nat :=
  (mainRank (main st) + closerRank (closer st) +
   (if ctxDone st then 0 else 1) +
   15 * (length (apps st) - length (tasks st)) +
   sum_list_with taskRank (tasks st) +
   length (resultsChan st))%nat.

(** ** Three claims as they are stated *)

Section AsStated.

Variable filepath_Join : string → string → string.
Variable s : IQReportService.
Variable orgID : option string.
Variable filename : string.

(** Every goroutine that was not cancelled while it waited for a slot has
    put exactly one result on the channel by the time it terminates. *)
Definition oneResultEach : Prop :=
  ∀ es st i o,
    run filepath_Join s orgID filename initial es = Some st →
    tasks st !! i = Some (Exited o) → o ≠ CancelledWaiting →
    sends i es = 1%nat.

(** When every remote call succeeds, the call returns with as many rows as
    the violations calls returned together. *)
Definition countIsSum : Prop :=
  ∀ es st path err,
    run filepath_Join s orgID filename initial es = Some st →
    main st = Returned path err →
    (∀ e, In e es → callFailed e = false) →
    length (allViolationRows st) =
    sum_list (map (λ i, length (violationsOf i es)) (seq 0 (length (apps st)))).

End AsStated.

(** The ceiling is read from the configuration: some configuration lets a
    goroutine take a slot in a state in which another one makes it wait. *)
Definition ceilingConfigurable : Prop :=
  ∃ J (svc svc' : IQReportService) org file st i,
    is_Some (step J svc org file st (EvAcquire i)) ∧
    step J svc' org file st (EvAcquire i) = None.

(** ** Sample data *)

Module Sample.

(** A stand-in for [filepath.Join] on clean relative paths. *)
Definition Join (dir file : string) : string := dir +:+ "/" +:+ file.

Definition svc : IQReportService :=
  NewIQReportService
    (config.mkConfig "http://example.com/api/v2" "user" "pass" "reports_output" 10).

Definition svcCustom : IQReportService :=
  NewIQReportService
    (config.mkConfig "http://other.example/api/v2" "admin" "secret" "custom_dir" 25).

Definition A1 : client.Application.t := client.Application.mk "id-1" "app-one" "org-1".
Definition A2 : client.Application.t := client.Application.mk "id-2" "app-two" "org-9".

Definition orgs : list client.Organization.t :=
  [client.Organization.mk "org-1" "Org One"].

Definition v1 : client.ViolationRow.t :=
  client.ViolationRow.mk "app-one" "Org One" "Security-High" "maven"
    "org.example:lib:1.0" 9 "Fail" "CVSS >= 7" "score >= 7" "CVE-2021-0001".

Definition v2 : client.ViolationRow.t :=
  client.ViolationRow.mk "app-one" "Org One" "License-Banned" "npm"
    "left-pad@1.0.0" 5 "Warn" "Banned license" "license = GPL" EmptyString.

Definition info1 : client.ReportInfo.t :=
  client.ReportInfo.mk "http://example.com/ui/links/application/app-one/report/r-100"
    "build".

Definition infoBlank : client.ReportInfo.t := client.ReportInfo.mk "   " "build".


Definition boom : error := errorString "connection refused".

(** Two applications: the first delivers two rows, the second has a blank
    report location. *)
Definition runBlank : list Event :=
  [EvGetApplications [A1; A2] None; EvGetOrganizations orgs None;
   EvGo; EvAcquire 0; EvGo; EvGoCloser; EvCtxCheck 0; EvAcquire 1; EvCtxCheck 1;
   EvGetLatestReportInfo 1 (Some infoBlank) None;
   EvGetLatestReportInfo 0 (Some info1) None;
   EvGetPolicyViolations 0 [v1; v2] None; EvSend 0; EvRecv;
   EvRelease 1; EvRelease 0; EvWgDone 0; EvWgDone 1;
   EvWaitReturns; EvClose; EvRangeEnd; EvWriteCSV None].

(** Two applications: the first delivers two rows, the violations call of
    the second fails. *)
Definition runOneFails : list Event :=
  [EvGetApplications [A1; A2] None; EvGetOrganizations orgs None;
   EvGo; EvGo; EvGoCloser; EvAcquire 1; EvAcquire 0; EvCtxCheck 0; EvCtxCheck 1;
   EvGetLatestReportInfo 0 (Some info1) None;
   EvGetLatestReportInfo 1 (Some info1) None;
   EvGetPolicyViolations 1 [] (Some boom);
   EvGetPolicyViolations 0 [v1; v2] None; EvRelease 1; EvSend 0;
   EvRelease 0; EvWgDone 1; EvWgDone 0; EvWaitReturns; EvRecv; EvClose;
   EvRangeEnd; EvWriteCSV None].

(** One application whose metadata call fails. *)
Definition runInfoFails : list Event :=
  [EvGetApplications [A1] None; EvGetOrganizations orgs None;
   EvGo; EvGoCloser; EvAcquire 0; EvCtxCheck 0;
   EvGetLatestReportInfo 0 None (Some boom);
   EvRelease 0; EvWgDone 0; EvWaitReturns; EvClose; EvRangeEnd;
   EvWriteCSV None].

(** One application, every call succeeds, and the context is cancelled
    between the violations call and the send. *)
Definition runCancelledAtSend : list Event :=
  [EvGetApplications [A1] None; EvGetOrganizations orgs None;
   EvGo; EvGoCloser; EvAcquire 0; EvCtxCheck 0;
   EvGetLatestReportInfo 0 (Some info1) None;
   EvGetPolicyViolations 0 [v1; v2] None; EvCancel; EvSendCancelled 0;
   EvRelease 0; EvWgDone 0; EvWaitReturns; EvClose; EvRangeEnd;
   EvWriteCSV None].

(** The context is cancelled while the only goroutine waits for a slot. *)
Definition runCancelledWaiting : list Event :=
  [EvGetApplications [A1] None; EvGetOrganizations orgs None;
   EvGo; EvCancel; EvAcquireCancelled 0; EvGoCloser; EvWgDone 0;
   EvWaitReturns; EvClose; EvRangeEnd; EvWriteCSV None].

(** No application matches. *)
Definition runEmpty : list Event := [EvGetApplications [] None; EvCancel].

(** The metadata of the second application is about to arrive. *)
Definition runToInfo : list Event :=
  [EvGetApplications [A1; A2] None; EvGetOrganizations orgs None;
   EvGo; EvGo; EvAcquire 1; EvCtxCheck 1].

(** The only goroutine is at its send while the calling goroutine has not
    yet started the closing goroutine, let alone the drain loop. *)
Definition runToSend : list Event :=
  [EvGetApplications [A1] None; EvGetOrganizations orgs None;
   EvGo; EvAcquire 0; EvCtxCheck 0;
   EvGetLatestReportInfo 0 (Some info1) None;
   EvGetPolicyViolations 0 [v1; v2] None].

Definition exec (es : list Event) : State :=
  default initial (run Join svc None "report.csv" initial es).

Definition finalBlank : State := Eval vm_compute in exec runBlank.
Definition finalOneFails : State := Eval vm_compute in exec runOneFails.
Definition finalInfoFails : State := Eval vm_compute in exec runInfoFails.
Definition finalCancelledAtSend : State := Eval vm_compute in exec runCancelledAtSend.
Definition finalCancelledWaiting : State := Eval vm_compute in exec runCancelledWaiting.
Definition finalEmpty : State := Eval vm_compute in exec runEmpty.
Definition atInfo : State := Eval vm_compute in exec runToInfo.
Definition afterInfo1 : State :=
  Eval vm_compute in exec (runToInfo ++ [EvGetLatestReportInfo 1 (Some info1) None]).
Definition readyToSend : State := Eval vm_compute in exec runToSend.

End Sample.

(** ** Shutdown, calls and log *)

Definition isClose (e : Event) : bool :=
  match e with
  | EvClose => true
  | _ => false
  end.

(** The number of [close(resultsChan)] executed in a run. *)
Definition closes (es : list Event) : nat := countIf isClose es.

(** The calls of the per-application goroutines. *)
Definition perAppCall (c : Call) : bool :=
  match c with
  | CallGetLatestReportInfo _ | CallGetPolicyViolations _ _ _ => true
  | _ => false
  end.

Definition isInfoCall (c : Call) : bool :=
  match c with
  | CallGetLatestReportInfo _ => true
  | _ => false
  end.

(** The calls made so far, by where the calling goroutine stands. *)
Definition callsOK (orgID : option string) (target : string) (st : State) : Prop :=
  match main st with
  | AtGetApplications => calls st = []
  | AtGetOrganizations => calls st = [CallGetApplications orgID]
  | AtLaunch | AtRange | AtWriteCSV =>
    ∃ per, calls st = CallGetApplications orgID :: CallGetOrganizations :: per ∧
           forallb perAppCall per = true
  | Returned _ _ =>
    calls st = [CallGetApplications orgID] ∨
    calls st = [CallGetApplications orgID; CallGetOrganizations] ∨
    ∃ per, calls st = CallGetApplications orgID :: CallGetOrganizations :: per ++
                      [CallWriteCSV target (allViolationRows st)] ∧
           forallb perAppCall per = true
  end.

(** The metadata call of the goroutine has returned. *)
Definition calledInfo (pc : TaskPC) : bool :=
  match pc with
  | AtAcquire | AtCtxCheck | AtGetLatestReportInfo => false
  | AtGetPolicyViolations _ _ | AtSend _ => true
  | AtRelease o | AtWgDone o | Exited o =>
    match o with
    | CancelledWaiting | CancelledBeforeFetch => false
    | _ => true
    end
  end.

(** The violations call of the goroutine has returned. *)
Definition calledViolations (pc : TaskPC) : bool :=
  match pc with
  | AtSend _ => true
  | AtRelease o | AtWgDone o | Exited o =>
    match o with
    | ViolationsFailed _ | Delivered _ | NotDelivered _ => true
    | _ => false
    end
  | _ => false
  end.

(** The goroutine is inside one of its two remote calls. *)
Definition inCall (pc : TaskPC) : bool :=
  match pc with
  | AtGetLatestReportInfo | AtGetPolicyViolations _ _ => true
  | _ => false
  end.

(** The metadata call, and the violations call, of goroutine [i]
    returning. *)
Definition isInfoOf (i : nat) (e : Event) : bool :=
  match e with
  | EvGetLatestReportInfo j _ _ => Nat.eqb i j
  | _ => false
  end.

Definition isViolationsOf (i : nat) (e : Event) : bool :=
  match e with
  | EvGetPolicyViolations j _ _ => Nat.eqb i j
  | _ => false
  end.

(** How often the calls of goroutine [i] have returned, read off its
    position. *)
Definition infoReturns (pc : option TaskPC) : nat :=
  match pc with
  | Some pc => if calledInfo pc then 1 else 0
  | None => 0
  end.

Definition violationsReturns (pc : option TaskPC) : nat :=
  match pc with
  | Some pc => if calledViolations pc then 1 else 0
  | None => 0
  end.

Record FetchInv (es : list Event) (st : State) (i : nat) : Prop := mkFetchInv {
  fi_info : countIf (isInfoOf i) es = infoReturns (tasks st !! i);
  fi_violations : countIf (isViolationsOf i) es = violationsReturns (tasks st !! i) }.

Record CallCount (st : State) : Prop := mkCallCount {
  cc_info : countIf isInfoCall (calls st) = countIf calledInfo (tasks st);
  cc_violations :
    countIf isViolationsCall (calls st) = countIf calledViolations (tasks st);
  cc_apps : ∀ appID, In (CallGetLatestReportInfo appID) (calls st) →
    ∃ app, In app (apps st) ∧ appID = client.Application.ID app }.

(** ** Cancellation *)

(** The goroutine has made no remote call, and makes none once the
    context is cancelled: it waits for a slot, is at the check of line
    105, or has left at line 101 or 106. *)
Definition noFetch (pc : TaskPC) : bool :=
  match pc with
  | AtAcquire | AtCtxCheck => true
  | AtRelease o | AtWgDone o | Exited o =>
    match o with
    | CancelledWaiting | CancelledBeforeFetch => true
    | _ => false
    end
  | _ => false
  end.

(** A remote call of goroutine [i] returning, or its [select] of line
    165 being decided. *)
Definition isFetchOf (i : nat) (e : Event) : bool :=
  match e with
  | EvGetLatestReportInfo j _ _ | EvGetPolicyViolations j _ _
  | EvSend j | EvSendCancelled j => Nat.eqb i j
  | _ => false
  end.

Definition isCtxCheck (e : Event) : bool :=
  match e with
  | EvCtxCheck _ => true
  | _ => false
  end.

(** No goroutine has fetched anything, and nothing has been collected. *)
Definition quiet (st : State) : Prop :=
  (∀ i pc, tasks st !! i = Some pc → noFetch pc = true) ∧
  forallb (λ c, negb (perAppCall c)) (calls st) = true ∧
  resultsChan st = [] ∧ allViolationRows st = [].

(** ** The log *)





(** ** More sample runs *)

Module Scenario.

(** The application list cannot be fetched. *)
Definition runApplicationsFail : list Event :=
  [EvGetApplications [] (Some Sample.boom); EvCancel].

(** The organization list cannot be fetched. *)
Definition runOrganizationsFail : list Event :=
  [EvGetApplications [Sample.A1; Sample.A2] None;
   EvGetOrganizations [] (Some Sample.boom)].

(** Two applications; the context is cancelled when the first goroutine
    has its slot and the second has not been launched yet. *)
Definition beforeCancel : list Event :=
  [EvGetApplications [Sample.A1; Sample.A2] None;
   EvGetOrganizations Sample.orgs None; EvGo; EvAcquire 0].

Definition afterCancel : list Event :=
  [EvGo; EvGoCloser; EvCtxCheck 0; EvAcquire 1; EvCtxCheck 1; EvRelease 1;
   EvRelease 0; EvWgDone 0; EvWgDone 1; EvWaitReturns; EvClose; EvRangeEnd;
   EvWriteCSV None].

Definition runCancelledEarly : list Event :=
  beforeCancel ++ EvCancel :: afterCancel.

Definition cancelled : State :=
  Eval vm_compute in Sample.exec (beforeCancel ++ [EvCancel]).

Definition finalCancelledEarly : State :=
  Eval vm_compute in Sample.exec runCancelledEarly.

Definition finalApplicationsFail : State :=
  Eval vm_compute in Sample.exec runApplicationsFail.

Definition finalOrganizationsFail : State :=
  Eval vm_compute in Sample.exec runOrganizationsFail.

(** Two organizations with the same ID, and one without a name. *)
Definition orgsTwice : list client.Organization.t :=
  [client.Organization.mk "org-1" "Old Name";
   client.Organization.mk "org-2" EmptyString;
   client.Organization.mk "org-1" "Org One"].

(** Eleven applications. *)
Definition eleven : list client.Application.t := replicate 11 Sample.A1.

End Scenario.

(** ** The log of the calling goroutine *)

(** What the calling goroutine has logged before the fan-out. *)
Definition earlyLog (st : State) : Prop :=
  match main st with
  | AtGetApplications => log st = []
  | AtGetOrganizations =>
    log st = [mkLog Info None "GenerateLatestPolicyReport invoked";
              mkLog Info None "Fetched applications"]
  | _ => True
  end.

(** The last entry of the log once [WriteCSV] has returned. *)
Definition writeLog (r : option error) : LogEntry :=
  match r with
  | Some _ => mkLog Info None "Writing CSV report"
  | None => mkLog Info None "Report written successfully"
  end.

(** * Properties *)

(** ** Lists *)

Lemma countIf_app {A} (p : A → bool) (l1 l2 : list A) :
  countIf p (l1 ++ l2) = (countIf p l1 + countIf p l2)%nat.
Proof. induction l1 as [|x l1 IH]; simpl; [done|]. rewrite IH. lia. Qed.

Lemma countIf_insert {A} (p : A → bool) (l : list A) (i : nat) (x y : A) :
  l !! i = Some x →
  (countIf p (<[i := y]> l) + (if p x then 1 else 0) =
   countIf p l + (if p y then 1 else 0))%nat.
Proof.
  revert i. induction l as [|z l IH]; intros [|i] H; simpl in *; try done.
  - injection H as ->. lia.
  - specialize (IH i H). lia.
Qed.

Lemma countIf_le_length {A} (p : A → bool) (l : list A) :
  (countIf p l ≤ length l)%nat.
Proof. induction l as [|x l IH]; simpl; [lia|]. destruct (p x); lia. Qed.

Lemma countIf_pos {A} (p : A → bool) (l : list A) (i : nat) (x : A) :
  l !! i = Some x → p x = true → (1 ≤ countIf p l)%nat.
Proof.
  revert i. induction l as [|z l IH]; intros [|i] H Hp; simpl in *; try done.
  - injection H as ->. rewrite Hp. lia.
  - specialize (IH i H Hp). lia.
Qed.

(** Two predicates that exclude each other count at most the length. *)
Lemma countIf_disjoint {A} (p q : A → bool) (l : list A) :
  (∀ x, p x = true → q x = false) →
  (countIf p l + countIf q l ≤ length l)%nat.
Proof.
  intros Hpq. induction l as [|x l IH]; simpl; [lia|].
  specialize (Hpq x).
  destruct (p x), (q x); first [lia | discriminate (Hpq eq_refl)].
Qed.


Lemma taskAt_Some st i pc app :
  taskAt st i = Some (pc, app) →
  tasks st !! i = Some pc ∧ apps st !! i = Some app.
Proof.
  unfold taskAt. destruct (tasks st !! i), (apps st !! i); intros H; inversion H; done.
Qed.

Lemma step_panicked J svc org file st e :
  panicked st = true → step J svc org file st e = None.
Proof. intros H. unfold step. by rewrite H. Qed.

(** ** Case analysis of a step *)

Ltac step_inv H :=
  unfold step in H;
  repeat match type of H with
  | Some _ = Some _ => injection H as H
  | None = Some _ => discriminate H
  | context [taskAt ?st ?i] =>
      let E := fresh "Htask" in
      destruct (taskAt st i) as [[[] ?]|] eqn:E; try discriminate H;
      apply taskAt_Some in E; destruct E as [? ?]
  | context [match ?x with _ => _ end] => destruct x eqn:?; try discriminate H
  end.

Ltac unfold_handlers :=
  unfold onApplications, onOrganizations, onReportInfo, onPolicyViolations,
    onWriteCSV, setTask in *.

Ltac st_simpl :=
  cbn [main tasks closer ctxDone apps orgIDToName sem resultsChan chanClosed wg
       allViolationRows log calls panicked setMain setTasks setCloser setCtxDone
       setApps setOrgIDToName setSem setResultsChan setChanClosed setWg
       setAllViolationRows logMsg recordCall panic setTask] in *.

(** Case analysis on what the handlers branch on, not on the positions of
    the goroutines. *)
Ltac goal_cases :=
  repeat match goal with
  | |- context [match ?x with _ => _ end] =>
    lazymatch x with
    | main _ => fail
    | closer _ => fail
    | _ !! _ => fail
    | _ => destruct x eqn:?
    end
  end.

Ltac prop_of_bool :=
  repeat match goal with
  | H : (_ <? _)%nat = true |- _ => apply Nat.ltb_lt in H
  | H : (_ <? _)%nat = false |- _ => apply Nat.ltb_ge in H
  | H : (_ =? _)%nat = true |- _ => apply Nat.eqb_eq in H
  | H : (_ =? _)%nat = false |- _ => apply Nat.eqb_neq in H
  end.

Ltac rewrite_pcs :=
  repeat match goal with
  | E : ?x = ?c, H : context [match ?x with _ => _ end] |- _ => rewrite E in H
  | E : ?x = ?c |- context [match ?x with _ => _ end] => rewrite E
  end.

Ltac use_insert :=
  repeat match goal with
  | H : tasks ?st !! ?i = Some ?x |- context [countIf ?p (<[?i := ?y]> (tasks ?st))] =>
    let a := eval cbv [hasDelivered outcomeOf holdsTicket live terminated negb atSend]
               in (if p x then 1%nat else 0%nat) in
    let b := eval cbv [hasDelivered outcomeOf holdsTicket live terminated negb atSend]
               in (if p y then 1%nat else 0%nat) in
    let F := fresh in
    pose proof (countIf_insert p _ _ _ y H
                : (countIf p (<[i := y]> (tasks st)) + a = countIf p (tasks st) + b)%nat) as F;
    generalize dependent (countIf p (<[i := y]> (tasks st))); intros
  end.

Ltac use_live :=
  repeat match goal with
  | H : tasks ?st !! ?i = Some ?pc |- _ =>
    lazymatch goal with
    | _ : (1 ≤ countIf live (tasks st))%nat |- _ => fail
    | _ => pose proof (countIf_pos live _ _ _ H eq_refl)
    end
  end.

Ltac no_task :=
  match goal with
  | H : tasks ?st = [], H2 : tasks ?st !! _ = Some _ |- _ =>
    rewrite H in H2; discriminate H2
  end.

Ltac empty_tasks :=
  repeat match goal with
  | H : tasks ?st = [] |- _ => rewrite H in *
  end.

Ltac finish :=
  try assumption; try lia; try no_task; try done;
  try (intuition (subst; simpl in *; try congruence; try lia; try no_task; eauto); fail);
  try (empty_tasks; simpl in *; lia).

(** ** Runs *)

Section Invariant.

Variable filepath_Join : string → string → string.
Variable s : IQReportService.
Variable orgID : option string.
Variable filename : string.

Local Abbreviation step := (step filepath_Join s orgID filename).
Local Abbreviation run := (run filepath_Join s orgID filename).
Local Abbreviation reachable := (reachable filepath_Join s orgID filename).
Local Abbreviation Inv := (Inv filepath_Join s filename).
Local Abbreviation target := (target filepath_Join s filename).

Lemma run_app st es1 es2 :
  run st (es1 ++ es2) =
  match run st es1 with Some st' => run st' es2 | None => None end.
Proof.
  revert st. induction es1 as [|e es1 IH]; intros st; simpl; [done|].
  destruct (step st e); [apply IH | done].
Qed.

Lemma run_snoc st es e :
  run st (es ++ [e]) =
  match run st es with Some st' => step st' e | None => None end.
Proof.
  rewrite run_app. destruct (run st es) as [st'|]; [|done].
  simpl. destruct (step st' e); done.
Qed.

(** Induction over a run from its last event. *)
Lemma run_invariant (P : list Event → State → Prop) :
  P [] initial →
  (∀ es st e st', run initial es = Some st → P es st →
     step st e = Some st' → P (es ++ [e]) st') →
  ∀ es st, run initial es = Some st → P es st.
Proof.
  intros H0 Hstep es. induction es as [|e es IH] using rev_ind; intros st Hrun.
  - simpl in Hrun. injection Hrun as <-. exact H0.
  - rewrite run_snoc in Hrun. destruct (run initial es) as [st0|] eqn:E; [|done].
    eapply Hstep; eauto.
Qed.


(** ** The invariant holds in every reachable state *)

Lemma Inv_initial : Inv initial.
Proof. constructor; unfold mainOK, closerOK, maxConcurrent; simpl; auto with lia. Qed.

Lemma Inv_step st e st' : Inv st → step st e = Some st' → Inv st'.
Proof.
  intros [Hp Hl Hs Hb Hw Hbuf Hm Hc] H.
  unfold mainOK, closerOK in *.
  destruct e; step_inv H; subst st'.
  all: unfold_handlers; goal_cases; st_simpl; prop_of_bool; rewrite_pcs; try use_live.
  all: constructor; unfold mainOK, closerOK, maxConcurrent in *; st_simpl;
       rewrite ?length_insert, ?length_app, ?countIf_app;
       cbn [countIf holdsTicket live terminated negb length].
  all: use_insert; rewrite_pcs.
  all: repeat match goal with H : _ ∧ _ |- _ => destruct H end.
  all: repeat match goal with E : resultsChan _ = _ |- _ => rewrite E in * end.
  all: finish.
  all: try (destruct (main st) eqn:?; finish; fail).
  all: try (destruct (closer st) eqn:?; finish; fail).
  all: try (destruct (main st) eqn:?; destruct (closer st) eqn:?; finish; fail).
Qed.

Lemma Inv_run es st : run initial es = Some st → Inv st.
Proof.
  revert es st. apply (run_invariant (λ _ st, Inv st)).
  - exact Inv_initial.
  - intros es st e st' _ HI Hstep. exact (Inv_step _ _ _ HI Hstep).
Qed.

Lemma Inv_reachable st : reachable st → Inv st.
Proof. intros [es Hrun]. exact (Inv_run _ _ Hrun). Qed.

End Invariant.

(** ** Each goroutine against its events *)

Lemma acquires_snoc i es e :
  acquires i (es ++ [e]) = (acquires i es + (if isAcquireOf i e then 1 else 0))%nat.
Proof. unfold acquires. rewrite countIf_app. simpl. lia. Qed.

Lemma releases_snoc i es e :
  releases i (es ++ [e]) = (releases i es + (if isReleaseOf i e then 1 else 0))%nat.
Proof. unfold releases. rewrite countIf_app. simpl. lia. Qed.

Lemma sends_snoc i es e :
  sends i (es ++ [e]) = (sends i es + (if isSendOf i e then 1 else 0))%nat.
Proof. unfold sends. rewrite countIf_app. simpl. lia. Qed.

Lemma sendOrder_snoc es e : sendOrder (es ++ [e]) = sendOrder es ++ sentBy e.
Proof. unfold sendOrder. rewrite map_app, concat_app. simpl. by rewrite app_nil_r. Qed.

Lemma violationsOf_snoc i es e :
  violationsOf i (es ++ [e]) = violationsStep i (violationsOf i es) e.
Proof. unfold violationsOf. by rewrite fold_left_app. Qed.

Ltac snoc_simpl :=
  rewrite ?acquires_snoc, ?releases_snoc, ?sends_snoc, ?sendOrder_snoc,
    ?violationsOf_snoc;
  cbn [isAcquireOf isReleaseOf isSendOf sentBy violationsStep].

(** The position of goroutine [i] after an update at [j] or a launch. *)
Ltac lookup_cases i :=
  lazymatch goal with
  | H : tasks ?st !! ?j = Some _ |- context [<[?j := _]> (tasks ?st) !! i] =>
    let Hne := fresh "Hne" in
    destruct (decide (i = j)) as [->|Hne];
    [ rewrite list_lookup_insert_eq by (eapply lookup_lt_Some; exact H)
    | rewrite list_lookup_insert_ne by congruence ];
    rewrite ?Nat.eqb_refl;
    try (rewrite (proj2 (Nat.eqb_neq i j)) by assumption)
  | |- context [(tasks ?st ++ [AtAcquire]) !! i] =>
    let Hlt := fresh "Hlt" in
    destruct (decide (i < length (tasks st))%nat) as [Hlt|Hlt];
    [ rewrite lookup_app_l by assumption
    | rewrite lookup_app_r by lia;
      pose proof (lookup_ge_None_2 (tasks st) i ltac:(lia));
      destruct (i - length (tasks st))%nat as [|[|?]]; cbn [lookup list_lookup] ]
  | _ => idtac
  end.

Section TaskInvariant.

Variable filepath_Join : string → string → string.
Variable s : IQReportService.
Variable orgID : option string.
Variable filename : string.

Local Abbreviation step := (step filepath_Join s orgID filename).
Local Abbreviation run := (run filepath_Join s orgID filename).

Lemma TaskInv_step es st e st' :
  (∀ i, TaskInv es st i) → step st e = Some st' → panicked st' = false →
  ∀ i, TaskInv (es ++ [e]) st' i.
Proof.
  intros IH H Hnp i. destruct (IH i) as [Ha Hr Hs Hwf Hrows Hord].
  destruct e; step_inv H; subst st'.
  all: unfold_handlers; goal_cases; st_simpl; try discriminate Hnp.
  all: constructor; snoc_simpl; st_simpl; lookup_cases i.
  all: rewrite ?app_nil_r, ?Nat.add_0_r, ?elem_of_app, ?list_elem_of_singleton.
  all: try assumption.
  all: repeat match goal with
       | H : tasks _ !! _ = _ |- _ => rewrite H in *
       end.
  all: repeat match goal with o : Outcome |- _ => destruct o end.
  all: cbn [acquiredBy releasedBy sentCount carried hasDelivered outcomeOf] in *.
  all: try done; try lia; try congruence.
  all: try (intuition (try lia; try congruence); fail).
Qed.

Lemma TaskInv_initial i : TaskInv [] initial i.
Proof.
  constructor; simpl; try done. unfold sendOrder; simpl.
  split; [intros H%elem_of_nil; done | done].
Qed.

(** The invariant of the state and of each goroutine along a run. *)
Lemma Inv_TaskInv_run es st :
  run initial es = Some st → Inv filepath_Join s filename st ∧ ∀ i, TaskInv es st i.
Proof.
  revert es st.
  apply (run_invariant filepath_Join s orgID filename
           (λ es st, Inv filepath_Join s filename st ∧ ∀ i, TaskInv es st i)).
  - split; [apply Inv_initial | apply TaskInv_initial].
  - intros es st e st' _ [HI HT] Hstep.
    pose proof (Inv_step _ _ _ _ _ _ _ HI Hstep) as HI'.
    split; [exact HI'|].
    eapply TaskInv_step; eauto. apply HI'.
Qed.

Lemma TaskInv_run es st i : run initial es = Some st → TaskInv es st i.
Proof. intros H. apply Inv_TaskInv_run, H. Qed.

(** ** What has been sent is what is buffered or collected *)

(** Once goroutine [i] carries its rows, no later event changes what its
    violations call returned. *)
Lemma violationsOf_stable es st e st' i :
  step st e = Some st' → carried (tasks st !! i) ≠ None →
  violationsOf i (es ++ [e]) = violationsOf i es.
Proof.
  intros H Hc. rewrite violationsOf_snoc.
  destruct e; try reflexivity.
  destruct err; [reflexivity|]. cbn [violationsStep].
  destruct (Nat.eqb_spec i i0) as [->|]; [|reflexivity].
  step_inv H. rewrite H0 in Hc. simpl in Hc. congruence.
Qed.

Lemma sent_carried st i : sentCount (tasks st !! i) = 1%nat → carried (tasks st !! i) ≠ None.
Proof.
  destruct (tasks st !! i) as [[| | | | |o|o|o]|]; simpl; try done;
    destruct o; simpl; done.
Qed.

Lemma sentRows_step es st e st' :
  run initial es = Some st → step st e = Some st' →
  map (λ i, convertRows (violationsOf i (es ++ [e]))) (sendOrder es) =
  map (λ i, convertRows (violationsOf i es)) (sendOrder es).
Proof.
  intros Hrun H. apply map_ext_in. intros i Hi.
  f_equal. eapply violationsOf_stable; [exact H|].
  apply sent_carried. apply (ti_order _ _ _ (TaskInv_run _ _ i Hrun)).
  by apply list_elem_of_In.
Qed.

Lemma aggregate_run es st :
  run initial es = Some st →
  allViolationRows st ++ concat (map Rows (resultsChan st)) =
  sentRows es.
Proof.
  revert es st. apply run_invariant; [reflexivity|].
  intros es st e st' Hrun IH H. unfold sentRows in *.
  rewrite sendOrder_snoc, map_app, concat_app.
  rewrite (sentRows_step _ _ _ _ Hrun H), <- IH.
  pose proof (λ i, ti_rows _ _ _ (TaskInv_run es st i Hrun)) as HT.
  pose proof (inv_panic _ _ _ _
                (Inv_step _ _ _ _ _ _ _ (Inv_run _ _ _ _ _ _ Hrun) H)) as Hnp.
  destruct e; step_inv H; subst st'.
  all: unfold_handlers; goal_cases; st_simpl; cbn [sentBy map concat];
       rewrite ?app_nil_r; try reflexivity; try discriminate Hnp.
  - specialize (HT i). rewrite H0 in HT. cbn [carried] in HT.
    rewrite violationsOf_snoc. cbn [violationsStep]. rewrite <- HT.
    rewrite map_app, concat_app. simpl. by rewrite app_nil_r, app_assoc.
  - by rewrite <- app_assoc.
  - rewrite Heql. simpl. by rewrite app_nil_r.
Qed.

End TaskInvariant.

(** ** Outcomes are final *)

Section Outcomes.

Variable filepath_Join : string → string → string.
Variable s : IQReportService.
Variable orgID : option string.
Variable filename : string.

Local Abbreviation step := (step filepath_Join s orgID filename).
Local Abbreviation run := (run filepath_Join s orgID filename).

(** A goroutine that has its outcome keeps it, and sends nothing more. *)
Lemma outcome_step st e st' i o :
  step st e = Some st' → outcomeAt st i = Some o →
  outcomeAt st' i = Some o ∧ e ≠ EvSend i.
Proof.
  intros H Ho.
  destruct e; step_inv H; subst st'.
  all: unfold_handlers; goal_cases; st_simpl;
       (split; [|try discriminate]).
  all: unfold outcomeAt in *; st_simpl; lookup_cases i; try assumption.
  all: repeat match goal with
       | H : tasks _ !! _ = _ |- _ => rewrite H in *
       end; try discriminate Ho; try assumption.
  all: try (intros [= ->]; rewrite H0 in Ho; discriminate Ho).
Qed.


(** A failed stage decides the outcome of its goroutine. *)
Lemma stageFailure_step st e st' i o :
  step st e = Some st' → stageFailure e = Some (i, o) →
  outcomeAt st' i = Some o.
Proof.
  unfold stageFailure. intros H Hsf.
  destruct e; try discriminate Hsf; step_inv H; subst st'.
  all: revert Hsf; unfold_handlers; goal_cases; st_simpl; intros Hsf;
       try discriminate Hsf; injection Hsf as <- <-.
  all: unfold outcomeAt; st_simpl.
  all: rewrite list_lookup_insert_eq by (eapply lookup_lt_Some; eassumption).
  all: try reflexivity.
Qed.

Lemma stageFailure_run es st e i o :
  run initial es = Some st → In e es → stageFailure e = Some (i, o) →
  outcomeAt st i = Some o.
Proof.
  intros Hrun. revert e i o. revert es st Hrun.
  apply (run_invariant filepath_Join s orgID filename
    (λ es st, ∀ e i o, In e es → stageFailure e = Some (i, o) →
                       outcomeAt st i = Some o)).
  - intros e i o [].
  - intros es st e' st' Hrun IH Hstep e i o Hin Hsf.
    apply in_app_or in Hin. destruct Hin as [Hin|[<-|[]]].
    + exact (proj1 (outcome_step _ _ _ _ _ Hstep (IH _ _ _ Hin Hsf))).
    + exact (stageFailure_step _ _ _ _ _ Hstep Hsf).
Qed.

(** ** Cancellation *)

(** Without a cancelled context no goroutine ends as cancelled. *)
Lemma cancel_step st e st' :
  step st e = Some st' →
  (ctxDone st = false → ∀ i o, outcomeAt st i = Some o → cancelOutcome o = false) →
  e ≠ EvCancel →
  ctxDone st' = ctxDone st ∧
  (ctxDone st' = false → ∀ i o, outcomeAt st' i = Some o → cancelOutcome o = false).
Proof.
  intros H IH Hne.
  destruct e; try congruence; step_inv H; subst st'.
  all: unfold_handlers; goal_cases; st_simpl;
       (split; [first [reflexivity | assumption]|]).
  all: intros Hctx i' o'; try congruence;
       specialize (IH ltac:(first [assumption | reflexivity]) i' o').
  all: unfold outcomeAt in *; st_simpl; lookup_cases i'; try assumption.
  all: repeat match goal with
       | H : tasks _ !! _ = _ |- _ => rewrite H in *
       end; try assumption; try discriminate.
  all: try (intros [= <-]; try reflexivity; apply IH; reflexivity).
Qed.

Lemma cancel_run es st :
  run initial es = Some st → ¬ In EvCancel es →
  ctxDone st = false ∧
  ∀ i o, outcomeAt st i = Some o → cancelOutcome o = false.
Proof.
  revert es st.
  apply (run_invariant filepath_Join s orgID filename
    (λ es st, ¬ In EvCancel es →
       ctxDone st = false ∧
       ∀ i o, outcomeAt st i = Some o → cancelOutcome o = false)).
  - intros _. split; [reflexivity|]. intros i o. unfold outcomeAt.
    destruct i; discriminate.
  - intros es st e st' Hrun IH Hstep Hnin.
    assert (¬ In EvCancel es) as Hnin' by (intros Hin; apply Hnin, in_or_app; auto).
    assert (e ≠ EvCancel) as Hne by (intros ->; apply Hnin, in_or_app; simpl; auto).
    destruct (IH Hnin') as [Hctx Hout].
    destruct (cancel_step _ _ _ Hstep (λ _, Hout) Hne) as [Hctx' Hout'].
    split; [congruence|]. apply Hout'. congruence.
Qed.

End Outcomes.

(** ** The calling goroutine against its events *)

Section History.

Variable filepath_Join : string → string → string.
Variable s : IQReportService.
Variable orgID : option string.
Variable filename : string.

Local Abbreviation step := (step filepath_Join s orgID filename).
Local Abbreviation run := (run filepath_Join s orgID filename).
Local Abbreviation target := (target filepath_Join s filename).

Lemma Returned_step st e st' p err :
  step st e = Some st' → main st = Returned p err → main st' = Returned p err.
Proof.
  intros H Hm. destruct e; step_inv H; subst st'; try congruence.
  all: unfold_handlers; goal_cases; st_simpl; assumption.
Qed.

Lemma write_run es st r :
  run initial es = Some st → In (EvWriteCSV r) es →
  main st = returnOfWrite target r.
Proof.
  intros Hrun. revert r. revert es st Hrun.
  apply (run_invariant filepath_Join s orgID filename
    (λ es st, ∀ r, In (EvWriteCSV r) es → main st = returnOfWrite target r)).
  - intros r [].
  - intros es st e st' Hrun IH Hstep r Hin.
    apply in_app_or in Hin. destruct Hin as [Hin|[->|[]]].
    + specialize (IH r Hin). destruct r; simpl in *;
        eapply Returned_step; eauto.
    + step_inv Hstep. subst st'. unfold onWriteCSV, returnOfWrite.
      destruct r; reflexivity.
Qed.

Lemma setup_run es st orgs :
  run initial es = Some st → In (EvGetOrganizations orgs None) es →
  orgIDToName st = buildOrgIDToName orgs ∧ pastSetup es st.
Proof.
  intros Hrun. revert orgs. revert es st Hrun.
  apply (run_invariant filepath_Join s orgID filename
    (λ es st, ∀ orgs, In (EvGetOrganizations orgs None) es →
       orgIDToName st = buildOrgIDToName orgs ∧ pastSetup es st)).
  - intros orgs [].
  - intros es st e st' Hrun IH Hstep orgs Hin. unfold pastSetup in *.
    apply in_app_or in Hin. destruct Hin as [Hin|[->|[]]].
    + destruct (IH orgs Hin) as [Ho Hp]. clear IH.
      destruct e; step_inv Hstep; subst st'.
      all: unfold_handlers; goal_cases; st_simpl; rewrite_pcs; try done.
      all: try (split; [assumption|]); try discriminate.
      all: try (eexists; apply in_or_app; right; left; reflexivity).
      all: revert Hp; destruct (main st); intros Hp; try done.
      all: destruct Hp as [r' Hr]; exists r'; apply in_or_app; auto.
    + step_inv Hstep. subst st'. unfold onOrganizations. st_simpl. done.
Qed.

Lemma Closed_step st e st' :
  Inv filepath_Join s filename st → step st e = Some st' →
  closer st = Closed → closer st' = Closed.
Proof.
  intros HI H Hc.
  pose proof (inv_main _ _ _ _ HI) as Hm. unfold mainOK in Hm.
  destruct e; step_inv H; subst st'; try congruence.
  all: unfold_handlers; goal_cases; st_simpl; rewrite_pcs; try assumption.
  destruct Hm. congruence.
Qed.

(** Once the CSV has been handed over, the fan-in is over. *)
Lemma write_closed_run es st r :
  run initial es = Some st → In (EvWriteCSV r) es → closer st = Closed.
Proof.
  intros Hrun. revert r. revert es st Hrun.
  apply (run_invariant filepath_Join s orgID filename
    (λ es st, ∀ r, In (EvWriteCSV r) es → closer st = Closed)).
  - intros r [].
  - intros es st e st' Hrun IH Hstep r Hin.
    pose proof (Inv_run _ _ _ _ _ _ Hrun) as HI.
    apply in_app_or in Hin. destruct Hin as [Hin|[->|[]]].
    + eapply Closed_step; eauto.
    + pose proof (inv_main _ _ _ _ HI) as Hm. unfold mainOK in Hm.
      step_inv Hstep. subst st'. rewrite_pcs.
      unfold onWriteCSV. destruct r; st_simpl; apply Hm.
Qed.

Lemma returnedBy_snoc es e p err :
  returnedBy target es p err → returnedBy target (es ++ [e]) p err.
Proof.
  unfold returnedBy.
  intros [(got & x & H & ?)|[(H & ?)|[(got & x & H & ?)|[(x & H & ?)|(H & ?)]]]].
  - left. exists got, x. split; [apply in_or_app; auto | done].
  - right; left. split; [apply in_or_app; auto | done].
  - right; right; left. exists got, x. split; [apply in_or_app; auto | done].
  - right; right; right; left. exists x. split; [apply in_or_app; auto | done].
  - right; right; right; right. split; [apply in_or_app; auto | done].
Qed.

Lemma returned_run es st p err :
  run initial es = Some st → main st = Returned p err →
  returnedBy target es p err.
Proof.
  intros Hrun. revert p err. revert es st Hrun.
  apply (run_invariant filepath_Join s orgID filename
    (λ es st, ∀ p err, main st = Returned p err → returnedBy target es p err)).
  - intros p err H. discriminate H.
  - intros es st e st' Hrun IH Hstep p err Hm.
    destruct (main st) eqn:Hmain.
    6: { apply returnedBy_snoc, IH.
         rewrite (Returned_step _ _ _ _ _ Hstep Hmain) in Hm. congruence. }
    all: clear IH; destruct e; step_inv Hstep; subst st'.
    all: revert Hm; unfold_handlers; goal_cases; st_simpl; intros Hm;
         try congruence; injection Hm as <- <-.
    all: prop_of_bool; unfold returnedBy.
    + left. eexists _, _. split; [apply in_or_app; right; left; reflexivity | done].
    + destruct got; [|discriminate]. right; left.
      split; [apply in_or_app; right; left; reflexivity | done].
    + right; right; left. eexists _, _.
      split; [apply in_or_app; right; left; reflexivity | done].
    + right; right; right; left. eexists.
      split; [apply in_or_app; right; left; reflexivity | done].
    + right; right; right; right.
      split; [apply in_or_app; right; left; reflexivity | done].
Qed.

(** Before the application list is there, nothing has been called; with
    an empty list the call returns at once and nothing more happens. *)
Lemma start_run es st :
  run initial es = Some st → main st = AtGetApplications →
  calls st = [] ∧ tasks st = [] ∧ closer st = NotStarted ∧ onlyCancel es.
Proof.
  revert es st.
  apply (run_invariant filepath_Join s orgID filename
    (λ es st, main st = AtGetApplications →
       calls st = [] ∧ tasks st = [] ∧ closer st = NotStarted ∧ onlyCancel es)).
  - intros _. repeat split. intros e [].
  - intros es st e st' Hrun IH Hstep Hm. unfold onlyCancel in *.
    destruct e; step_inv Hstep; subst st'.
    all: revert Hm; unfold_handlers; goal_cases; st_simpl; intros Hm;
         try congruence.
    all: destruct (IH Hm) as (Hc & Ht & Hcl & Hes); try no_task; try congruence.
    repeat split; try assumption.
    intros e Hin. apply in_app_or in Hin. destruct Hin as [Hin|[<-|[]]]; auto.
Qed.

Lemma empty_step st e st' :
  step st e = Some st' →
  main st = Returned EmptyString (Some (fmt.Errorf "no applications found")) →
  tasks st = [] → closer st = NotStarted →
  e = EvCancel ∧ calls st' = calls st ∧ tasks st' = [] ∧ closer st' = NotStarted.
Proof.
  intros H Hm Ht Hc.
  destruct e; step_inv H; subst st'; try no_task; try congruence.
  st_simpl. done.
Qed.

Lemma empty_run es st :
  run initial es = Some st → In (EvGetApplications [] None) es →
  main st = Returned EmptyString (Some (fmt.Errorf "no applications found")) ∧
  tasks st = [] ∧ closer st = NotStarted ∧
  calls st = [CallGetApplications orgID] ∧
  ∀ e, In e es → e = EvCancel ∨ e = EvGetApplications [] None.
Proof.
  revert es st.
  apply (run_invariant filepath_Join s orgID filename
    (λ es st, In (EvGetApplications [] None) es →
       main st = Returned EmptyString (Some (fmt.Errorf "no applications found")) ∧
       tasks st = [] ∧ closer st = NotStarted ∧
       calls st = [CallGetApplications orgID] ∧
       ∀ e, In e es → e = EvCancel ∨ e = EvGetApplications [] None)).
  - intros [].
  - intros es st e st' Hrun IH Hstep Hin.
    apply in_app_or in Hin. destruct Hin as [Hin|[->|[]]].
    + destruct (IH Hin) as (Hm & Ht & Hcl & Hc & Hes).
      destruct (empty_step _ _ _ Hstep Hm Ht Hcl) as (-> & Hc' & Ht' & Hcl').
      rewrite (Returned_step _ _ _ _ _ Hstep Hm).
      repeat split; try congruence.
      intros e Hin'. apply in_app_or in Hin'.
      destruct Hin' as [Hin'|[<-|[]]]; auto.
    + clear IH. pose proof Hstep as Hstep'. step_inv Hstep. subst st'.
      destruct (start_run _ _ Hrun Heqm) as (Hc & Ht & Hcl & Hes).
      unfold onApplications. st_simpl. rewrite Hc. repeat split; try done.
      intros e Hin'. apply in_app_or in Hin'.
      destruct Hin' as [Hin'|[<-|[]]]; auto.
Qed.

(** Goroutines exist only once the organization table has been built. *)
Lemma launched_after_setup es st :
  run initial es = Some st → main st = AtLaunch ∨ tasks st ≠ [] →
  ∃ orgs, In (EvGetOrganizations orgs None) es.
Proof.
  revert es st.
  apply (run_invariant filepath_Join s orgID filename
    (λ es st, main st = AtLaunch ∨ tasks st ≠ [] →
              ∃ orgs, In (EvGetOrganizations orgs None) es)).
  - intros [H|H]; [discriminate H | done].
  - intros es st e st' Hrun IH Hstep Hor.
    assert ((main st = AtLaunch ∨ tasks st ≠ []) ∨
            ∃ orgs, e = EvGetOrganizations orgs None) as [Hold|[orgs ->]].
    { destruct e; step_inv Hstep; subst st'.
      all: revert Hor; unfold_handlers; goal_cases; st_simpl; intros Hor;
           rewrite_pcs; eauto.
      all: try (destruct Hor as [Hor|Hor]; [congruence|]; eauto; fail).
      all: try (left; right; intros Hnil; no_task). }
    + destruct (IH Hold) as [orgs Hin]. exists orgs. apply in_or_app. auto.
    + exists orgs. apply in_or_app. right. left. reflexivity.
Qed.

End History.

(** ** Strings *)

Lemma append_cons (c : ascii) (a b : string) :
  String c a +:+ b = String c (a +:+ b).
Proof. reflexivity. Qed.

Lemma append_empty (a b : string) : a +:+ b = EmptyString → a = EmptyString.
Proof. destruct a; [done | discriminate]. Qed.

Lemma joinBytes_nil (l : list (Z * string)) :
  Forall (λ t, t.2 ≠ EmptyString) l → strings.joinBytes l = EmptyString → l = [].
Proof.
  destruct l as [|t l]; [done|]. intros Hall H. simpl in H.
  apply append_empty in H. inversion Hall; subst. contradiction.
Qed.

Lemma runesFrom_bytes (k : nat) (s : string) :
  Forall (λ t, t.2 ≠ EmptyString) (strings.runesFrom k s).
Proof.
  revert k. induction s as [|c s IH]; intros k; simpl; [constructor|].
  destruct k as [|k]; [|apply IH].
  destruct (utf8.DecodeRuneInString (String c s)) as [r w].
  constructor; [discriminate | apply IH].
Qed.

Lemma dropWhile_Forall {A} (P : A → Prop) (p : A → bool) (l : list A) :
  Forall P l → Forall P (strings.dropWhile p l).
Proof.
  induction 1 as [|x l Hx Hl IH]; simpl; [constructor|].
  destruct (p x); [exact IH | by constructor].
Qed.

Lemma dropWhile_nil {A} (p : A → bool) (l : list A) :
  strings.dropWhile p l = [] ↔ forallb p l = true.
Proof.
  induction l as [|x l IH]; simpl; [done|].
  destruct (p x); simpl; [exact IH | split; discriminate].
Qed.

Lemma dropWhile_head {A} (p : A → bool) (l : list A) x l' :
  strings.dropWhile p l = x :: l' → p x = false.
Proof.
  induction l as [|y l IH]; simpl; [discriminate|].
  destruct (p y) eqn:E; [exact IH | intros [= <- <-]; exact E].
Qed.

Lemma forallb_rev {A} (p : A → bool) (l : list A) :
  forallb p (rev l) = forallb p l.
Proof.
  induction l as [|x l IH]; simpl; [done|].
  rewrite forallb_app, IH. simpl. destruct (p x), (forallb p l); done.
Qed.

(** [strings.TrimSpace] leaves nothing exactly when every rune is a space. *)
Lemma TrimSpace_empty (s : string) :
  strings.TrimSpace s = EmptyString ↔ whitespaceOnly s = true.
Proof.
  unfold strings.TrimSpace, whitespaceOnly, strings.runes. split.
  - intros H. apply joinBytes_nil in H.
    2: { apply Forall_rev, dropWhile_Forall, Forall_rev, dropWhile_Forall,
           runesFrom_bytes. }
    apply (f_equal (@rev _)) in H. rewrite rev_involutive in H. simpl in H.
    apply dropWhile_nil in H. rewrite forallb_rev in H.
    destruct (strings.dropWhile strings.isSpaceRune (strings.runesFrom 0 s))
      as [|x l] eqn:E.
    + by apply dropWhile_nil.
    + apply dropWhile_head in E. simpl in H. rewrite E in H. discriminate.
  - intros H. apply dropWhile_nil in H. rewrite H. reflexivity.
Qed.

Lemma TrimSpace_eqb (s : string) :
  String.eqb (strings.TrimSpace s) EmptyString = whitespaceOnly s.
Proof.
  destruct (whitespaceOnly s) eqn:E.
  - apply String.eqb_eq. by apply TrimSpace_empty.
  - apply String.eqb_neq. intros H. apply TrimSpace_empty in H. congruence.
Qed.

Lemma sliceFrom_empty (k : nat) : sliceFrom k EmptyString = EmptyString.
Proof. by destruct k. Qed.

Lemma slice_split (k : nat) (s : string) : sliceTo k s +:+ sliceFrom k s = s.
Proof.
  revert s. induction k as [|k IH]; intros [|c s]; try done.
  simpl. rewrite append_cons. f_equal. apply IH.
Qed.

Lemma sliceFrom_add (k n : nat) (s : string) :
  sliceFrom (k + n) s = sliceFrom n (sliceFrom k s).
Proof.
  revert s. induction k as [|k IH]; intros [|c s]; simpl; try done.
  by rewrite sliceFrom_empty.
Qed.

Lemma length_sliceTo (k : nat) (s : string) :
  (k ≤ String.length s)%nat → String.length (sliceTo k s) = k.
Proof.
  revert s. induction k as [|k IH]; intros [|c s]; simpl; try done; try lia.
  intros H. rewrite IH; lia.
Qed.

Lemma HasPrefix_split (s sep : string) :
  strings.HasPrefix s sep = true → s = sep +:+ sliceFrom (String.length sep) s.
Proof.
  revert s. induction sep as [|a sep IH]; intros [|b s]; simpl; try done.
  intros [Hab H]%andb_true_iff. apply Ascii.eqb_eq in Hab. subst b.
  rewrite append_cons. f_equal. by apply IH.
Qed.

Lemma HasPrefix_length (s sep : string) :
  strings.HasPrefix s sep = true → (String.length sep ≤ String.length s)%nat.
Proof.
  revert s. induction sep as [|a sep IH]; intros [|b s]; simpl; try done; try lia.
  intros [_ H]%andb_true_iff. specialize (IH s H). lia.
Qed.

Lemma Index_nil (sep : string) :
  strings.Index EmptyString sep =
  if strings.HasPrefix EmptyString sep then 0 else -1.
Proof. reflexivity. Qed.

Lemma Index_cons (c : ascii) (s sep : string) :
  strings.Index (String c s) sep =
  if strings.HasPrefix (String c s) sep then 0
  else if strings.Index s sep <? 0 then -1 else strings.Index s sep + 1.
Proof. reflexivity. Qed.

(** [strings.Index] finds the first instance, or says that there is none. *)
Lemma Index_spec (s sep : string) :
  (strings.Index s sep = -1 ∧ ∀ k, occursAt k sep s = false) ∨
  (0 ≤ strings.Index s sep ∧ firstOccurrence sep s (Z.to_nat (strings.Index s sep))).
Proof.
  induction s as [|c s IH].
  - rewrite Index_nil. destruct (strings.HasPrefix EmptyString sep) eqn:E.
    + right. split; [lia|]. split; [exact E | intros j Hj; simpl in Hj; lia].
    + left. split; [done|]. intros k. unfold occursAt.
      by rewrite sliceFrom_empty.
  - rewrite Index_cons. destruct (strings.HasPrefix (String c s) sep) eqn:E.
    + right. split; [lia|]. split; [exact E | intros j Hj; simpl in Hj; lia].
    + destruct IH as [[Hi Hno]|[Hi [Hocc Hfirst]]].
      * left. rewrite Hi. simpl. split; [done|].
        intros [|k]; [exact E | exact (Hno k)].
      * right. destruct (strings.Index s sep <? 0) eqn:Hlt; [lia|].
        split; [lia|].
        replace (Z.to_nat (strings.Index s sep + 1))
          with (S (Z.to_nat (strings.Index s sep))) by lia.
        split; [exact Hocc|].
        intros [|j] Hj; [exact E | apply Hfirst; lia].
Qed.

Lemma Cut_found (s sep before after : string) :
  strings.Cut s sep = (before, after, true) →
  ∃ k, firstOccurrence sep s k ∧ before = sliceTo k s ∧
       after = sliceFrom (k + String.length sep) s ∧
       s = before +:+ sep +:+ after.
Proof.
  unfold strings.Cut.
  destruct (Index_spec s sep) as [[Hi _]|[Hi Hfirst]].
  - rewrite Hi. simpl. discriminate.
  - destruct (0 <=? strings.Index s sep) eqn:E; [|lia].
    intros [= <- <-]. exists (Z.to_nat (strings.Index s sep)).
    repeat split; try apply Hfirst.
    rewrite sliceFrom_add.
    rewrite <- (HasPrefix_split _ _ (proj1 Hfirst)).
    by rewrite slice_split.
Qed.

Lemma Cut_not_found (s sep before after : string) :
  strings.Cut s sep = (before, after, false) →
  ∀ k, occursAt k sep s = false.
Proof.
  unfold strings.Cut.
  destruct (Index_spec s sep) as [[Hi Hno]|[Hi Hfirst]].
  - intros _ k. by apply Hno.
  - destruct (0 <=? strings.Index s sep) eqn:E; [discriminate | lia].
Qed.

Lemma firstOccurrence_unique (sep s : string) (k1 k2 : nat) :
  firstOccurrence sep s k1 → firstOccurrence sep s k2 → k1 = k2.
Proof.
  intros [H1 F1] [H2 F2].
  destruct (Nat.lt_trichotomy k1 k2) as [Hlt|[Heq|Hgt]]; [|done|].
  - specialize (F2 _ Hlt). congruence.
  - specialize (F1 _ Hgt). congruence.
Qed.

Example TrimSpace_ascii :
  strings.TrimSpace "  http://h/ui/links/application/a/report/r1 " =
  "http://h/ui/links/application/a/report/r1".
Proof. vm_compute. reflexivity. Qed.

Example TrimSpace_nbsp :
  strings.TrimSpace (String (ascii_of_nat 194) (String (ascii_of_nat 160) " ")) = EmptyString.
Proof. vm_compute. reflexivity. Qed.

Example Cut_first_marker :
  strings.Cut "x/report/a/report/b" "/report/" = ("x", "a/report/b", true).
Proof. vm_compute. reflexivity. Qed.

Example Cut_no_marker :
  strings.Cut "x/reports/a" "/report/" = ("x/reports/a", EmptyString, false).
Proof. vm_compute. reflexivity. Qed.

Example whitespaceOnly_unicode :
  whitespaceOnly (String (ascii_of_nat 226) (String (ascii_of_nat 128)
                   (String (ascii_of_nat 131) (String (ascii_of_nat 9) EmptyString)))) = true.
Proof. vm_compute. reflexivity. Qed.

Example DecodeRune_invalid :
  utf8.DecodeRuneInString (String (ascii_of_nat 192) (String (ascii_of_nat 128) EmptyString)) =
  (utf8.RuneError, 1%nat).
Proof. vm_compute. reflexivity. Qed.

(** ** What is enabled *)

Lemma taskAt_lookup st i pc :
  (length (tasks st) ≤ length (apps st))%nat → tasks st !! i = Some pc →
  ∃ app, apps st !! i = Some app ∧ taskAt st i = Some (pc, app).
Proof.
  intros Hlen Hpc. pose proof (lookup_lt_Some _ _ _ Hpc) as Hlt.
  destruct (lookup_lt_is_Some_2 (apps st) i ltac:(lia)) as [app Happ].
  exists app. split; [done|]. unfold taskAt. by rewrite Hpc, Happ.
Qed.

(** The metadata call returns to a goroutine that waits for it. *)
Lemma step_reportInfo J svc org file st i reportInfo err st' :
  step J svc org file st (EvGetLatestReportInfo i reportInfo err) = Some st' →
  ∃ app, tasks st !! i = Some AtGetLatestReportInfo ∧ apps st !! i = Some app ∧
         panicked st = false ∧ st' = onReportInfo i app reportInfo err st.
Proof.
  unfold step. destruct (panicked st); [discriminate|].
  destruct (taskAt st i) as [[pc app]|] eqn:E; [|discriminate].
  apply taskAt_Some in E. destruct E as [Hpc Happ].
  destruct pc; try discriminate. intros H. exists app.
  repeat split; try done. congruence.
Qed.

(** While a goroutine is live the result channel is open. *)
Lemma live_open J svc file st i pc :
  Inv J svc file st → tasks st !! i = Some pc → live pc = true →
  chanClosed st = false.
Proof.
  intros HI Hpc Hlive.
  pose proof (countIf_pos live _ _ _ Hpc Hlive) as Hpos.
  pose proof (inv_wg _ _ _ _ HI) as Hwg.
  pose proof (inv_closer _ _ _ _ HI) as Hc. unfold closerOK in Hc.
  destruct (closer st); try done; destruct Hc; lia.
Qed.

(** The send of line 166 finds room in the buffer, whatever the calling
    goroutine is doing. *)
Lemma send_enabled J svc org file st i reportRows :
  Inv J svc file st → tasks st !! i = Some (AtSend reportRows) →
  (length (resultsChan st) < length (apps st))%nat ∧
  step J svc org file st (EvSend i) =
    Some (setTask i (AtRelease (Delivered reportRows))
            (setResultsChan (resultsChan st ++ [mkResult reportRows None]) st)).
Proof.
  intros HI Hpc.
  destruct (taskAt_lookup _ _ _ (inv_len _ _ _ _ HI) Hpc) as (app & Happ & Hat).
  pose proof (live_open _ _ _ _ _ _ HI Hpc eq_refl) as Hopen.
  pose proof (countIf_pos atSend _ _ _ Hpc eq_refl) as Hpos.
  pose proof (countIf_disjoint hasDelivered atSend (tasks st)) as Hdis.
  pose proof (inv_buf _ _ _ _ HI) as Hbuf.
  pose proof (inv_len _ _ _ _ HI) as Hlen.
  assert (length (resultsChan st) < length (apps st))%nat as Hroom.
  { assert (∀ x, hasDelivered x = true → atSend x = false) as Hx
      by (intros [| | | | |o|o|o]; simpl; done).
    specialize (Hdis Hx). lia. }
  split; [exact Hroom|].
  unfold step. rewrite (inv_panic _ _ _ _ HI), Hat, Hopen.
  by rewrite (proj2 (Nat.ltb_lt _ _) Hroom).
Qed.

(** The deferred receive of line 99 finds a slot to take. *)
Lemma release_enabled J svc org file st i o :
  Inv J svc file st → tasks st !! i = Some (AtRelease o) →
  ∃ n, sem st = S n ∧
       step J svc org file st (EvRelease i) =
         Some (setTask i (AtWgDone o) (setSem n st)).
Proof.
  intros HI Hpc.
  destruct (taskAt_lookup _ _ _ (inv_len _ _ _ _ HI) Hpc) as (app & Happ & Hat).
  pose proof (countIf_pos holdsTicket _ _ _ Hpc eq_refl) as Hpos.
  pose proof (inv_sem _ _ _ _ HI) as Hsem.
  destruct (sem st) as [|n] eqn:E; [lia|].
  exists n. split; [done|].
  unfold step. by rewrite (inv_panic _ _ _ _ HI), Hat, E.
Qed.

Lemma countIf_witness {A} (p : A → bool) (l : list A) :
  (1 ≤ countIf p l)%nat → ∃ i x, l !! i = Some x ∧ p x = true.
Proof.
  induction l as [|y l IH]; simpl; [lia|].
  destruct (p y) eqn:E.
  - intros _. by exists 0%nat, y.
  - intros H. destruct (IH ltac:(lia)) as (i & x & Hi & Hx).
    by exists (S i), x.
Qed.

(** A goroutine that holds a slot can take its next step. *)
Lemma holder_enabled J svc org file st i pc :
  Inv J svc file st → tasks st !! i = Some pc → holdsTicket pc = true →
  ∃ e st', step J svc org file st e = Some st'.
Proof.
  intros HI Hpc Hh.
  destruct (taskAt_lookup _ _ _ (inv_len _ _ _ _ HI) Hpc) as (app & Happ & Hat).
  pose proof (inv_panic _ _ _ _ HI) as Hnp.
  destruct pc; try discriminate Hh.
  - exists (EvCtxCheck i). unfold step. rewrite Hnp, Hat.
    destruct (ctxDone st); eauto.
  - exists (EvGetLatestReportInfo i None None). unfold step. rewrite Hnp, Hat. eauto.
  - exists (EvGetPolicyViolations i [] None). unfold step. rewrite Hnp, Hat. eauto.
  - exists (EvSend i). eexists. apply (send_enabled _ _ _ _ _ _ _ HI Hpc).
  - exists (EvRelease i).
    destruct (release_enabled J svc org file _ _ _ HI Hpc) as (n & _ & Hs). eauto.
Qed.

(** A goroutine that has not terminated can take a step, or a holder of a
    slot can. *)
Lemma live_enabled J svc org file st i pc :
  Inv J svc file st → tasks st !! i = Some pc → live pc = true →
  ∃ e st', step J svc org file st e = Some st'.
Proof.
  intros HI Hpc Hl.
  destruct (holdsTicket pc) eqn:Hh; [by eapply holder_enabled|].
  destruct (taskAt_lookup _ _ _ (inv_len _ _ _ _ HI) Hpc) as (app & Happ & Hat).
  pose proof (inv_panic _ _ _ _ HI) as Hnp.
  destruct pc; try discriminate Hh; try discriminate Hl.
  - destruct (sem st <? maxConcurrent)%nat eqn:E.
    + exists (EvAcquire i). unfold step. rewrite Hnp, Hat, E. eauto.
    + apply Nat.ltb_ge in E. unfold maxConcurrent in E.
      pose proof (inv_sem _ _ _ _ HI) as Hsem.
      destruct (countIf_witness holdsTicket (tasks st) ltac:(lia))
        as (j & pcj & Hj & Hhj).
      by eapply holder_enabled.
  - exists (EvWgDone i). unfold step. rewrite Hnp, Hat.
    pose proof (countIf_pos live _ _ _ Hpc eq_refl) as Hpos.
    pose proof (inv_wg _ _ _ _ HI) as Hwg.
    destruct (wg st) eqn:E; [lia | eauto].
Qed.

(** No deadlock: until [GenerateLatestPolicyReport] has returned, some
    goroutine can take a step. *)
Lemma progress J svc org file st :
  Inv J svc file st → (∀ p err, main st ≠ Returned p err) →
  ∃ e st', step J svc org file st e = Some st'.
Proof.
  intros HI Hm.
  pose proof (inv_panic _ _ _ _ HI) as Hnp.
  pose proof (inv_main _ _ _ _ HI) as Hmain. unfold mainOK in Hmain.
  pose proof (inv_closer _ _ _ _ HI) as Hc. unfold closerOK in Hc.
  destruct (main st) eqn:Em.
  - exists (EvGetApplications [] None). unfold step. rewrite Hnp, Em. eauto.
  - exists (EvGetOrganizations [] None). unfold step. rewrite Hnp, Em. eauto.
  - destruct (length (tasks st) <? length (apps st))%nat eqn:E.
    + exists EvGo. unfold step. rewrite Hnp, Em, E. eauto.
    + exists EvGoCloser. unfold step. rewrite Hnp, Em, E. eauto.
  - destruct (resultsChan st) as [|res rest] eqn:Eb.
    2: { exists EvRecv. unfold step. rewrite Hnp, Em, Eb. eauto. }
    destruct (closer st) eqn:Ec.
    + destruct Hmain as [? _]. done.
    + destruct (wg st) eqn:Ew.
      * exists EvWaitReturns. unfold step. rewrite Hnp, Ec, Ew. eauto.
      * pose proof (inv_wg _ _ _ _ HI) as Hwg.
        destruct (countIf_witness live (tasks st) ltac:(lia))
          as (j & pcj & Hj & Hlj).
        by eapply live_enabled.
    + exists EvClose. unfold step. rewrite Hnp, Ec.
      destruct Hc as [-> _]. eauto.
    + exists EvRangeEnd. unfold step. rewrite Hnp, Em, Eb.
      destruct Hc as [-> _]. eauto.
  - exists (EvWriteCSV None). unfold step. rewrite Hnp, Em. eauto.
  - by destruct (Hm path err).
Qed.

(** ** Every run comes to its end *)

Lemma sum_rank_insert (l : list TaskPC) (i : nat) (x y : TaskPC) :
  l !! i = Some x →
  (sum_list_with taskRank (<[i := y]> l) + taskRank x =
   sum_list_with taskRank l + taskRank y)%nat.
Proof.
  revert i. induction l as [|z l IH]; intros [|i] H; simpl in *; try done.
  - injection H as ->. lia.
  - specialize (IH i H). lia.
Qed.

Ltac use_rank :=
  repeat match goal with
  | H : tasks ?st !! ?i = Some ?x
    |- context [sum_list_with taskRank (<[?i := ?y]> (tasks ?st))] =>
    let F := fresh in
    pose proof (sum_rank_insert _ _ _ y H) as F; cbn [taskRank] in F;
    generalize dependent (sum_list_with taskRank (<[i := y]> (tasks st))); intros
  end.

(** Each step uses up some of what is left. *)
Lemma step_decreases J svc org file st e st' :
  Inv J svc file st → main st ≠ AtGetApplications →
  step J svc org file st e = Some st' → (stepsLeft st' < stepsLeft st)%nat.
Proof.
  intros HI Hm H.
  pose proof (inv_panic _ _ _ _ (Inv_step _ _ _ _ _ _ _ HI H)) as Hnp.
  pose proof (inv_len _ _ _ _ HI) as Hlen.
  destruct e; step_inv H; subst st'; try congruence.
  all: unfold_handlers; goal_cases; st_simpl; try discriminate Hnp.
  all: unfold stepsLeft; st_simpl.
  all: repeat match goal with
       | E : main _ = _ |- _ => rewrite !E
       | E : closer _ = _ |- _ => rewrite !E
       | E : ctxDone _ = _ |- _ => rewrite !E
       | E : resultsChan _ = _ |- _ => rewrite !E
       end.
  all: prop_of_bool; cbn [mainRank closerRank].
  all: rewrite ?length_insert, ?length_app, ?sum_list_with_app;
       cbn [length sum_list_with taskRank].
  all: use_rank.
  all: try lia.
  all: try (destruct (ctxDone st); lia).
  pose proof (inv_main _ _ _ _ HI) as Hmain. unfold mainOK in Hmain.
  rewrite Heqm in Hmain. destruct Hmain as [Hc _]. rewrite Hc.
  cbn [closerRank]. destruct (ctxDone st); lia.
Qed.

(** From every reachable state the call can be run to its return. *)
Lemma returned_or_not (m : MainPC) :
  (∃ p err, m = Returned p err) ∨ (∀ p err, m ≠ Returned p err).
Proof. destruct m; eauto; right; discriminate. Qed.

Lemma step_past_start J svc org file st e st' :
  main st ≠ AtGetApplications → step J svc org file st e = Some st' →
  main st' ≠ AtGetApplications.
Proof.
  intros Hm H Hm'. destruct e; step_inv H; subst st'.
  all: revert Hm'; unfold_handlers; goal_cases; st_simpl; congruence.
Qed.

Lemma can_return_from J svc org file (n : nat) : ∀ st,
  Inv J svc file st → main st ≠ AtGetApplications → (stepsLeft st ≤ n)%nat →
  ∃ es st' p err, run J svc org file st es = Some st' ∧ main st' = Returned p err.
Proof.
  induction n as [|n IH]; intros st HI Hm Hn;
    destruct (returned_or_not (main st)) as [(p & err & Hret)|Hnot];
    try (exists [], st, p, err; done).
  - destruct (progress J svc org file st HI Hnot) as (e & st1 & Hstep).
    pose proof (step_decreases _ _ _ _ _ _ _ HI Hm Hstep). lia.
  - destruct (progress J svc org file st HI Hnot) as (e & st1 & Hstep).
    pose proof (step_decreases _ _ _ _ _ _ _ HI Hm Hstep) as Hlt.
    pose proof (Inv_step _ _ _ _ _ _ _ HI Hstep) as HI1.
    pose proof (step_past_start _ _ _ _ _ _ _ Hm Hstep) as Hm1.
    destruct (IH st1 HI1 Hm1 ltac:(lia)) as (es & st' & p & err & Hrun & Hret).
    exists (e :: es), st', p, err. simpl. rewrite Hstep. done.
Qed.

Lemma can_return J svc org file st :
  Inv J svc file st →
  ∃ es st' p err, run J svc org file st es = Some st' ∧ main st' = Returned p err.
Proof.
  intros HI.
  assert (main st = AtGetApplications ∨ main st ≠ AtGetApplications) as [Em|Hm]
    by (destruct (main st); auto; right; discriminate).
  - pose proof (inv_panic _ _ _ _ HI) as Hnp.
    exists [EvGetApplications [] None]. eexists. eexists. eexists.
    simpl. unfold step. rewrite Hnp, Em. split; reflexivity.
  - by apply (can_return_from J svc org file (stepsLeft st)).
Qed.

(** No run goes on for ever. *)
Lemma run_bounded J svc org file es : ∀ st st',
  Inv J svc file st → main st ≠ AtGetApplications →
  run J svc org file st es = Some st' → (length es + stepsLeft st' ≤ stepsLeft st)%nat.
Proof.
  induction es as [|e es IH]; intros st st' HI Hm Hrun; simpl in Hrun.
  - injection Hrun as <-. simpl. lia.
  - destruct (step J svc org file st e) as [st1|] eqn:Hstep; [|done].
    pose proof (step_decreases _ _ _ _ _ _ _ HI Hm Hstep) as Hlt.
    pose proof (Inv_step _ _ _ _ _ _ _ HI Hstep) as HI1.
    pose proof (step_past_start _ _ _ _ _ _ _ Hm Hstep) as Hm1.
    specialize (IH st1 st' HI1 Hm1 Hrun). simpl. lia.
Qed.

(** ** The organization name *)

Lemma no_violations_call (l : list Call) publicID reportID name :
  forallb (λ c, negb (isViolationsCall c)) l = true →
  ¬ In (CallGetPolicyViolations publicID reportID name) l.
Proof.
  intros H Hin. rewrite forallb_forall in H. specialize (H _ Hin). done.
Qed.

Section Resolve.

Variable filepath_Join : string → string → string.
Variable s : IQReportService.
Variable orgID : option string.
Variable filename : string.

Local Abbreviation step := (step filepath_Join s orgID filename).
Local Abbreviation run := (run filepath_Join s orgID filename).

Lemma resolveOrgName_fst st app name ok :
  resolveOrgName (orgIDToName st) app = (name, ok) → resolvedFor st app name.
Proof.
  unfold resolveOrgName, resolvedFor.
  destruct (orgIDToName st !! client.Application.OrganizationID app);
    intros [= <- <-]; reflexivity.
Qed.

Lemma ResolveInv_step st e st' :
  Inv filepath_Join s filename st → ResolveInv st → step st e = Some st' →
  ResolveInv st'.
Proof.
  intros HI [Ht Hc He] H.
  pose proof (inv_main _ _ _ _ HI) as Hm. unfold mainOK in Hm.
  destruct e; step_inv H; subst st'.
  all: unfold_handlers; goal_cases; st_simpl; rewrite_pcs.
  all: try match goal with
       | E : resolveOrgName _ _ = _ |- _ => apply resolveOrgName_fst in E
       end.
  all: constructor; unfold resolvedFor in *; st_simpl; rewrite_pcs;
       try exact I; try assumption.
  (* the early phases *)
  all: try (destruct (main st); try exact I; destruct He; no_task).
  all: try (split; [apply He|]; rewrite forallb_app, (proj2 He); reflexivity).
  (* the goroutines *)
  all: try (intros i' rid name app'; lookup_cases i'; intros Hpc Happ;
            first [ discriminate Hpc
                  | injection Hpc as <- <-; congruence
                  | eapply Ht; eassumption
                  | destruct Hm as [Hnil _]; rewrite Hnil in Hpc; destruct i'; discriminate Hpc ]).
  (* the calls *)
  all: try (intros pub rid name Hin; apply in_app_or in Hin;
            destruct Hin as [Hin|[Hin|[]]];
            [ first [ exact (Hc _ _ _ Hin)
                    | destruct He as [_ He];
                      destruct (no_violations_call _ _ _ _ He Hin) ]
            | first [ discriminate Hin
                    | injection Hin as <- <- <- ;
                      eexists; split; [eapply list_elem_of_In, list_elem_of_lookup_2; eassumption|];
                      split; [reflexivity|]; eapply Ht; eassumption ] ]).
Qed.

Lemma ResolveInv_run es st : run initial es = Some st → ResolveInv st.
Proof.
  revert es st.
  apply (run_invariant filepath_Join s orgID filename (λ _ st, ResolveInv st)).
  - constructor; simpl; done.
  - intros es st e st' Hrun IH Hstep.
    exact (ResolveInv_step _ _ _ (Inv_run _ _ _ _ _ _ Hrun) IH Hstep).
Qed.

End Resolve.

(** ** The aggregate as a rearrangement of the contributions *)

Lemma concat_map_nil {A B} (h : A → list B) (l : list A) :
  (∀ x, x ∈ l → h x = []) → concat (map h l) = [].
Proof.
  induction l as [|x l IH]; intros H; simpl; [done|].
  rewrite (H x) by (left). simpl. apply IH. intros y Hy. apply H. by right.
Qed.

(** Summing over the senders is summing over everybody, when the others
    contribute nothing. *)
Lemma concat_map_support {B} (h : nat → list B) (σ : list nat) (n : nat) :
  NoDup σ → (∀ i, i ∈ σ → (i < n)%nat) →
  (∀ i, (i < n)%nat → i ∉ σ → h i = []) →
  concat (map h σ) ≡ₚ concat (map h (seq 0 n)).
Proof.
  intros Hnd Hlt Hnil.
  assert (σ ⊆+ seq 0 n) as Hsub.
  { apply NoDup_submseteq; [done|]. intros i Hi. apply elem_of_seq.
    specialize (Hlt i Hi). lia. }
  apply submseteq_Permutation in Hsub as [k Hk].
  assert (concat (map h k) = []) as Hrest.
  { apply concat_map_nil. intros i Hi.
    assert (NoDup (σ ++ k)) as Hnd' by (rewrite <- Hk; apply NoDup_seq).
    apply NoDup_app in Hnd' as (_ & Hdisj & _).
    apply Hnil.
    - assert (i ∈ seq 0 n) as Hin by (rewrite Hk; apply elem_of_app; auto).
      apply elem_of_seq in Hin. lia.
    - intros Hσ. exact (Hdisj i Hσ Hi). }
  rewrite Hk, map_app, concat_app, Hrest, app_nil_r. reflexivity.
Qed.

Lemma concat_map_lookup {A B} (f : A → list B) (l : list A) :
  concat (map f l) =
  concat (map (λ i, match l !! i with Some x => f x | None => [] end)
              (seq 0 (length l))).
Proof.
  induction l as [|x l IH]; simpl; [done|].
  rewrite IH. f_equal. rewrite <- seq_shift, map_map. reflexivity.
Qed.

Lemma countIf_zero_not_in {A} (p : A → bool) (l : list A) x :
  countIf p l = 0%nat → In x l → p x = false.
Proof.
  induction l as [|y l IH]; simpl; [done|].
  intros H [->|Hin].
  - destruct (p x); [discriminate | done].
  - apply IH; [|done]. destruct (p y); [discriminate | done].
Qed.

Lemma sends_zero i es : sends i es = 0%nat → ¬ In (EvSend i) es.
Proof.
  intros H Hin. pose proof (countIf_zero_not_in _ _ _ H Hin) as Hp.
  simpl in Hp. by rewrite Nat.eqb_refl in Hp.
Qed.

Lemma sum_length_concat {A B} (h : A → list B) (l : list A) :
  length (concat (map h l)) = sum_list (map (λ x, length (h x)) l).
Proof.
  induction l as [|x l IH]; simpl; [done|]. by rewrite length_app, IH.
Qed.

(** The conversion loop is [map]. *)
Lemma fillRows_spec (clientRows : list client.ViolationRow.t)
    (done_ rest : list report.Row.t) :
  length rest = length clientRows →
  fillRows (length done_) clientRows (done_ ++ rest) =
  done_ ++ map toReportRow clientRows.
Proof.
  revert done_ rest. induction clientRows as [|r rows IH]; intros done_ rest Hlen.
  - destruct rest; [done | discriminate].
  - destruct rest as [|z rest]; [discriminate|]. simpl.
    replace (<[length done_ := toReportRow r]> (done_ ++ z :: rest))
      with ((done_ ++ [toReportRow r]) ++ rest).
    2: { rewrite insert_app_r_alt by lia. rewrite Nat.sub_diag. simpl.
         by rewrite <- app_assoc. }
    replace (S (length done_)) with (length (done_ ++ [toReportRow r]))
      by (rewrite length_app; simpl; lia).
    rewrite IH by (simpl in Hlen; lia). by rewrite <- app_assoc.
Qed.

Lemma convertRows_map (clientRows : list client.ViolationRow.t) :
  convertRows clientRows = map toReportRow clientRows.
Proof.
  unfold convertRows.
  apply (fillRows_spec clientRows [] (replicate (length clientRows) report.Row.zero)).
  apply length_replicate.
Qed.

Section Aggregate.

Variable filepath_Join : string → string → string.
Variable s : IQReportService.
Variable orgID : option string.
Variable filename : string.

Local Abbreviation step := (step filepath_Join s orgID filename).
Local Abbreviation run := (run filepath_Join s orgID filename).

Lemma sendOrder_NoDup es st : run initial es = Some st → NoDup (sendOrder es).
Proof.
  revert es st.
  apply (run_invariant filepath_Join s orgID filename (λ es _, NoDup (sendOrder es))).
  - constructor.
  - intros es st e st' Hrun IH Hstep. rewrite sendOrder_snoc.
    destruct e; simpl; rewrite ?app_nil_r; try assumption.
    apply NoDup_app. split; [done|]. split; [|apply NoDup_singleton].
    intros j Hj ->%list_elem_of_singleton.
    pose proof (ti_order _ _ _ (TaskInv_run _ _ _ _ _ _ i Hrun)) as Hord.
    apply Hord in Hj.
    step_inv Hstep;
      match goal with
      | H : tasks st !! _ = Some _ |- _ => rewrite H in Hj; discriminate Hj
      end.
Qed.

(** Who is in the send order, and what they sent. *)
Lemma sendOrder_delivered es st i :
  run initial es = Some st → i ∈ sendOrder es →
  ∃ pc, tasks st !! i = Some pc ∧ hasDelivered pc = true ∧
        deliveredRows pc = convertRows (violationsOf i es).
Proof.
  intros Hrun Hi.
  destruct (TaskInv_run _ _ _ _ _ _ i Hrun) as [_ _ _ _ Hrows Hord].
  apply Hord in Hi.
  destruct (tasks st !! i) as [pc|]; [|discriminate Hi].
  exists pc. split; [done|]. unfold sentCount in Hi.
  destruct (hasDelivered pc) eqn:E; [|discriminate Hi]. split; [done|].
  unfold hasDelivered, deliveredRows in *.
  destruct pc as [| | | | |o|o|o]; try discriminate E;
    destruct o; try discriminate E; simpl in *; done.
Qed.

Lemma not_sent_no_rows es st i pc :
  run initial es = Some st → tasks st !! i = Some pc → i ∉ sendOrder es →
  deliveredRows pc = [].
Proof.
  intros Hrun Hpc Hi.
  destruct (TaskInv_run _ _ _ _ _ _ i Hrun) as [_ _ _ _ _ Hord].
  rewrite Hpc in Hord. simpl in Hord.
  unfold hasDelivered, deliveredRows in *.
  destruct (outcomeOf pc) as [[]|]; simpl; try done.
  destruct Hi. by apply Hord.
Qed.

(** What has been sent is, up to the order of the goroutines, what the
    goroutines have delivered. *)
Lemma sentRows_delivered es st :
  run initial es = Some st →
  sentRows es ≡ₚ concat (map deliveredRows (tasks st)).
Proof.
  intros Hrun. unfold sentRows.
  rewrite (concat_map_lookup deliveredRows (tasks st)).
  rewrite <- (concat_map_support _ (sendOrder es)).
  - erewrite map_ext_in; [reflexivity|]. intros i Hi%list_elem_of_In.
    destruct (sendOrder_delivered _ _ _ Hrun Hi) as (pc & -> & _ & ->). done.
  - by eapply sendOrder_NoDup.
  - intros i Hi.
    destruct (sendOrder_delivered _ _ _ Hrun Hi) as (pc & Hpc & _).
    by eapply lookup_lt_Some.
  - intros i Hlt Hi. destruct (tasks st !! i) as [pc|] eqn:E; [|done].
    by eapply not_sent_no_rows.
Qed.

End Aggregate.

(** ** Complete runs *)

Lemma countIf_zero_lookup {A} (p : A → bool) (l : list A) i x :
  countIf p l = 0%nat → l !! i = Some x → p x = false.
Proof.
  intros H Hx. apply (countIf_zero_not_in p l x H).
  by eapply list_elem_of_In, list_elem_of_lookup_2.
Qed.

Section Complete.

Variable filepath_Join : string → string → string.
Variable s : IQReportService.
Variable orgID : option string.
Variable filename : string.

Local Abbreviation step := (step filepath_Join s orgID filename).
Local Abbreviation run := (run filepath_Join s orgID filename).
Local Abbreviation target := (target filepath_Join s filename).

(** When the closing goroutine is through, every goroutine was launched
    and has terminated. *)
Lemma closed_terminated st :
  Inv filepath_Join s filename st → closer st = Closed →
  chanClosed st = true ∧
  ∀ i pc, tasks st !! i = Some pc → terminated pc = true.
Proof.
  intros HI Hc.
  pose proof (inv_closer _ _ _ _ HI) as Hcl. unfold closerOK in Hcl.
  rewrite Hc in Hcl. destruct Hcl as [Hclosed Hwg]. split; [done|].
  intros i pc Hpc. rewrite (inv_wg _ _ _ _ HI) in Hwg.
  pose proof (countIf_zero_lookup live _ _ _ Hwg Hpc) as Hl.
  unfold live in Hl. by destruct (terminated pc).
Qed.

(** The channel is closed only by the closing goroutine, after its wait. *)
Lemma chanClosed_Closed st :
  Inv filepath_Join s filename st → chanClosed st = true → closer st = Closed.
Proof.
  intros HI Hc.
  pose proof (inv_closer _ _ _ _ HI) as Hcl. unfold closerOK in Hcl.
  destruct (closer st); try done; intuition congruence.
Qed.

Lemma started_launched st :
  Inv filepath_Join s filename st → closer st ≠ NotStarted →
  length (tasks st) = length (apps st).
Proof.
  intros HI Hc.
  pose proof (inv_main _ _ _ _ HI) as Hm. unfold mainOK in Hm.
  destruct (main st); try (destruct Hm as (? & ? & ? & ?); done);
    try (destruct Hm as (? & ? & ?); done); try (destruct Hm; done).
  destruct Hm as [(? & ? & _)|(? & ? & _)]; done.
Qed.

(** After the write the aggregate is everything that was ever sent. *)
Lemma complete_run es st r :
  run initial es = Some st → In (EvWriteCSV r) es →
  main st = returnOfWrite target r ∧
  length (tasks st) = length (apps st) ∧
  (∀ i pc, tasks st !! i = Some pc → terminated pc = true) ∧
  resultsChan st = [] ∧ allViolationRows st = sentRows es.
Proof.
  intros Hrun Hin.
  pose proof (Inv_run _ _ _ _ _ _ Hrun) as HI.
  pose proof (write_run _ _ _ _ _ _ _ Hrun Hin) as Hm.
  pose proof (write_closed_run _ _ _ _ _ _ _ Hrun Hin) as Hc.
  destruct (closed_terminated _ HI Hc) as [_ Hterm].
  assert (resultsChan st = []) as Hbuf.
  { pose proof (inv_main _ _ _ _ HI) as Hmain. unfold mainOK in Hmain.
    unfold returnOfWrite in Hm. destruct r; rewrite Hm in Hmain;
      destruct Hmain as [(_ & _ & ? & _)|(_ & _ & ? & _)]; assumption. }
  split; [done|]. split; [apply started_launched; [done | congruence]|].
  split; [done|]. split; [done|].
  rewrite <- (aggregate_run _ _ _ _ _ _ Hrun), Hbuf. simpl.
  by rewrite app_nil_r.
Qed.

(** A failed stage never is a delivery. *)
Lemma stageFailure_kind e i o :
  stageFailure e = Some (i, o) →
  (∃ x, o = InfoFailed x) ∨ o = ParseFailed ∨ (∃ x, o = ViolationsFailed x).
Proof.
  unfold stageFailure. intros H.
  repeat case_match; try discriminate H; injection H as <- <-; eauto.
Qed.

Lemma outcomeAt_sentCount st i o :
  outcomeAt st i = Some o → (∀ rows, o ≠ Delivered rows) →
  sentCount (tasks st !! i) = 0%nat.
Proof.
  unfold outcomeAt, sentCount, hasDelivered.
  destruct (tasks st !! i) as [pc|]; [|done].
  intros -> Hne. destruct o; try done. by destruct (Hne rows).
Qed.

(** The step that records a failed stage touches nothing that the other
    goroutines or the calling goroutine depend on. *)
Lemma stageFailure_frame st e st' i o :
  step st e = Some st' → stageFailure e = Some (i, o) →
  (∀ j, j ≠ i → tasks st' !! j = tasks st !! j) ∧
  main st' = main st ∧ closer st' = closer st ∧ ctxDone st' = ctxDone st ∧
  sem st' = sem st ∧ wg st' = wg st ∧ resultsChan st' = resultsChan st ∧
  chanClosed st' = chanClosed st ∧
  allViolationRows st' = allViolationRows st ∧ panicked st' = false.
Proof.
  unfold stageFailure. intros H Hsf.
  destruct e; try discriminate Hsf; step_inv H; subst st'.
  all: revert Hsf; unfold_handlers; goal_cases; st_simpl; intros Hsf;
       try discriminate Hsf; injection Hsf as <- <-.
  all: repeat split; try assumption.
  all: intros j Hj; by rewrite list_lookup_insert_ne.
Qed.

(** No error value ever travels on the result channel. *)
Lemma Err_run es st :
  run initial es = Some st → Forall (λ r, Err r = None) (resultsChan st).
Proof.
  revert es st.
  apply (run_invariant filepath_Join s orgID filename
    (λ _ st, Forall (λ r, Err r = None) (resultsChan st))).
  - constructor.
  - intros es st e st' _ IH H.
    destruct e; step_inv H; subst st'.
    all: unfold_handlers; goal_cases; st_simpl; try assumption.
    all: try (apply Forall_app; split; [assumption | by constructor]).
    all: try (by inversion IH).
    rewrite Heql. constructor.
Qed.

(** Once the call has returned, every goroutine that exists has
    terminated. *)
Lemma returned_terminated st path err :
  Inv filepath_Join s filename st → main st = Returned path err →
  resultsChan st = [] ∧
  ∀ i pc, tasks st !! i = Some pc → terminated pc = true.
Proof.
  intros HI Hm.
  pose proof (inv_main _ _ _ _ HI) as Hmain. unfold mainOK in Hmain.
  rewrite Hm in Hmain.
  destruct Hmain as [(Ht & _ & Hb & _)|(Hc & _ & Hb & _)]; (split; [done|]).
  - intros i pc Hpc. rewrite Ht in Hpc. destruct i; discriminate Hpc.
  - by apply closed_terminated.
Qed.

End Complete.

(** ** The organization table *)

(** The table built at lines 69-72. *)
Lemma foldl_orgs_lookup (orgs : list client.Organization.t)
    (m : gmap string string) (id : string) :
  foldl (λ m org, <[client.Organization.ID org := client.Organization.Name org]> m)
        m orgs !! id =
  match buildOrgIDToName orgs !! id with
  | Some name => Some name
  | None => m !! id
  end.
Proof.
  unfold buildOrgIDToName. revert m.
  induction orgs as [|o orgs IH]; intros m; simpl.
  - by rewrite lookup_empty.
  - rewrite IH, (IH (<[_ := _]> ∅)).
    destruct (foldl _ ∅ orgs !! id); [done|].
    destruct (decide (client.Organization.ID o = id)) as [->|Hne].
    + by rewrite !lookup_insert_eq.
    + rewrite !lookup_insert_ne by done. by rewrite lookup_empty.
Qed.

Lemma buildOrgIDToName_app (orgs1 orgs2 : list client.Organization.t) (id : string) :
  buildOrgIDToName (orgs1 ++ orgs2) !! id =
  match buildOrgIDToName orgs2 !! id with
  | Some name => Some name
  | None => buildOrgIDToName orgs1 !! id
  end.
Proof.
  unfold buildOrgIDToName at 1. rewrite foldl_app. apply foldl_orgs_lookup.
Qed.

Lemma buildOrgIDToName_cons (o : client.Organization.t)
    (orgs : list client.Organization.t) (id : string) :
  buildOrgIDToName (o :: orgs) !! id =
  match buildOrgIDToName orgs !! id with
  | Some name => Some name
  | None => if decide (client.Organization.ID o = id)
            then Some (client.Organization.Name o) else None
  end.
Proof.
  change (o :: orgs) with ([o] ++ orgs). rewrite buildOrgIDToName_app.
  destruct (buildOrgIDToName orgs !! id); [done|].
  unfold buildOrgIDToName. simpl.
  destruct (decide (client.Organization.ID o = id)) as [->|Hne].
  - by rewrite lookup_insert_eq.
  - rewrite lookup_insert_ne by done. by rewrite lookup_empty.
Qed.

Lemma buildOrgIDToName_None (orgs : list client.Organization.t) (id : string) :
  buildOrgIDToName orgs !! id = None ↔
  ∀ o, In o orgs → client.Organization.ID o ≠ id.
Proof.
  induction orgs as [|o orgs IH].
  - split; [intros _ o [] | intros _; apply lookup_empty].
  - rewrite buildOrgIDToName_cons. split.
    + intros H o' [<-|Hin].
      * destruct (buildOrgIDToName orgs !! id); [done|].
        by destruct (decide (client.Organization.ID o = id)).
      * destruct (buildOrgIDToName orgs !! id) eqn:E; [done|].
        by apply (proj1 IH eq_refl).
    + intros H. rewrite (proj2 IH) by (intros o' Hin; apply H; by right).
      destruct (decide (client.Organization.ID o = id)) as [He|]; [|done].
      destruct (H o (or_introl eq_refl) He).
Qed.

Lemma buildOrgIDToName_Some (orgs : list client.Organization.t) (id name : string) :
  buildOrgIDToName orgs !! id = Some name →
  ∃ o, In o orgs ∧ client.Organization.ID o = id ∧
       client.Organization.Name o = name.
Proof.
  induction orgs as [|o orgs IH].
  - unfold buildOrgIDToName. simpl. by rewrite lookup_empty.
  - rewrite buildOrgIDToName_cons.
    destruct (buildOrgIDToName orgs !! id) as [n|].
    + intros [= ->]. destruct (IH eq_refl) as (o' & Hin & ? & ?).
      exists o'. split; [by right | done].
    + destruct (decide (client.Organization.ID o = id)); [|done].
      intros [= <-]. exists o. split; [by left | done].
Qed.

Lemma buildOrgIDToName_size (orgs : list client.Organization.t) :
  (size (buildOrgIDToName orgs) ≤ length orgs)%nat.
Proof.
  induction orgs as [|o orgs IH] using rev_ind; [done|].
  unfold buildOrgIDToName in *. rewrite foldl_app, length_app. simpl.
  match goal with
  | |- context [<[?k := _]> ?m] => destruct (m !! k) eqn:E
  end.
  - erewrite map_size_insert_Some by done. lia.
  - erewrite map_size_insert_None by done. lia.
Qed.

(** An entry of the table is the name of the last organization of the
    list with that ID. *)
Lemma buildOrgIDToName_last (orgs : list client.Organization.t) (id name : string) :
  buildOrgIDToName orgs !! id = Some name →
  ∃ orgs1 o orgs2,
    orgs = orgs1 ++ o :: orgs2 ∧ client.Organization.ID o = id ∧
    client.Organization.Name o = name ∧
    ∀ o', In o' orgs2 → client.Organization.ID o' ≠ id.
Proof.
  induction orgs as [|o orgs IH].
  - unfold buildOrgIDToName. simpl. by rewrite lookup_empty.
  - rewrite buildOrgIDToName_cons.
    destruct (buildOrgIDToName orgs !! id) as [n|] eqn:E.
    + intros [= ->]. destruct (IH eq_refl) as (orgs1 & o' & orgs2 & -> & ? & ? & ?).
      exists (o :: orgs1), o', orgs2. done.
    + destruct (decide (client.Organization.ID o = id)) as [He|]; [|done].
      intros [= <-]. exists [], o, orgs. repeat split; try done.
      by apply buildOrgIDToName_None.
Qed.

Lemma buildOrgIDToName_at (orgs1 orgs2 : list client.Organization.t)
    (o : client.Organization.t) :
  (∀ o', In o' orgs2 → client.Organization.ID o' ≠ client.Organization.ID o) →
  buildOrgIDToName (orgs1 ++ o :: orgs2) !! client.Organization.ID o =
    Some (client.Organization.Name o).
Proof.
  intros Hno. rewrite buildOrgIDToName_app, buildOrgIDToName_cons.
  rewrite (proj2 (buildOrgIDToName_None orgs2 _) Hno).
  by rewrite decide_True.
Qed.

(** ** The delivery of line 166 *)

Section Delivery.

Variable filepath_Join : string → string → string.
Variable s : IQReportService.
Variable orgID : option string.
Variable filename : string.

Local Abbreviation step := (step filepath_Join s orgID filename).
Local Abbreviation run := (run filepath_Join s orgID filename).
Local Abbreviation Inv := (Inv filepath_Join s filename).

(** A goroutine keeps the rows it carries. *)
Lemma carried_step st e st' i rows :
  step st e = Some st' → carried (tasks st !! i) = Some rows →
  carried (tasks st' !! i) = Some rows.
Proof.
  intros H Hc.
  destruct e; step_inv H; subst st'.
  all: unfold_handlers; goal_cases; st_simpl; lookup_cases i; try assumption.
  all: repeat match goal with
       | H : tasks _ !! _ = _ |- _ => rewrite H in *
       end.
  all: try discriminate Hc; try assumption.
Qed.

(** After a successful violations call the goroutine carries the
    converted rows. *)
Lemma fetched_carried es st i clientRows :
  run initial es = Some st → In (EvGetPolicyViolations i clientRows None) es →
  carried (tasks st !! i) = Some (convertRows clientRows).
Proof.
  intros Hrun. revert i clientRows. revert es st Hrun.
  apply (run_invariant filepath_Join s orgID filename
    (λ es st, ∀ i clientRows, In (EvGetPolicyViolations i clientRows None) es →
       carried (tasks st !! i) = Some (convertRows clientRows))).
  - intros i clientRows [].
  - intros es st e st' _ IH Hstep i clientRows Hin.
    apply in_app_or in Hin. destruct Hin as [Hin|[->|[]]].
    + eapply carried_step; eauto.
    + step_inv Hstep. subst st'. unfold onPolicyViolations, setTask. st_simpl.
      by rewrite list_lookup_insert_eq by (eapply lookup_lt_Some; eassumption).
Qed.

(** At its send a goroutine finds the channel open and with room; as
    long as the context is not cancelled, the send is the only step it
    can take. *)
Lemma send_only st i reportRows :
  Inv st → tasks st !! i = Some (AtSend reportRows) →
  (∃ st', step st (EvSend i) = Some st' ∧ panicked st' = false ∧
          resultsChan st' = resultsChan st ++ [mkResult reportRows None] ∧
          tasks st' !! i = Some (AtRelease (Delivered reportRows))) ∧
  (ctxDone st = false → step st (EvSendCancelled i) = None).
Proof.
  intros HI Hpc. split.
  - destruct (send_enabled filepath_Join s orgID filename _ _ _ HI Hpc)
      as [_ Hstep].
    eexists. split; [exact Hstep|]. unfold setTask. st_simpl.
    split; [apply (inv_panic _ _ _ _ HI)|]. split; [done|].
    apply list_lookup_insert_eq. by eapply lookup_lt_Some.
  - intros Hd.
    destruct (taskAt_lookup _ _ _ (inv_len _ _ _ _ HI) Hpc) as (app & _ & Hat).
    unfold step. by rewrite (inv_panic _ _ _ _ HI), Hat, Hd.
Qed.

(** Without cancellation, a goroutine whose violations call succeeded
    ends with a delivery, and has sent once by then. *)
Lemma fetched_delivered es st i clientRows o :
  run initial es = Some st → ¬ In EvCancel es →
  In (EvGetPolicyViolations i clientRows None) es →
  outcomeAt st i = Some o →
  o = Delivered (convertRows clientRows) ∧ sends i es = 1%nat.
Proof.
  intros Hrun Hnc Hin Ho.
  pose proof (fetched_carried _ _ _ _ Hrun Hin) as Hc.
  pose proof (proj2 (cancel_run _ _ _ _ _ _ Hrun Hnc) i o Ho) as Hcan.
  rewrite (ti_sends _ _ _ (TaskInv_run _ _ _ _ _ _ i Hrun)).
  unfold outcomeAt in Ho.
  destruct (tasks st !! i) as [[| | | | |o'|o'|o']|]; simpl in *;
    try discriminate Ho; injection Ho as ->;
    destruct o; simpl in *; try discriminate Hc; try discriminate Hcan;
    injection Hc as ->; done.
Qed.

End Delivery.

(** * The claims *)

Section Claims.

Variable filepath_Join : string → string → string.
Variable s : IQReportService.
Variable orgID : option string.
Variable filename : string.

Local Abbreviation step := (step filepath_Join s orgID filename).
Local Abbreviation run := (run filepath_Join s orgID filename).
Local Abbreviation target := (target filepath_Join s filename).

(** C1. Per-application failure isolation.  In every run in which both
    sequential fetches succeeded and the call has returned: every
    application got its goroutine and every goroutine has terminated; the
    aggregate is, up to the order of the goroutines, the concatenation of
    the rows of the goroutines that delivered; a goroutine whose metadata
    fetch, report-ID parse or violations fetch failed has that failure as
    its outcome, has no rows and never sent; the step that records such a
    failure leaves the other goroutines, the calling goroutine, the
    context and the result channel as they were; and what the call returns
    is decided by the CSV write alone, so it is no error when the write
    succeeds. *)
Theorem C1_failure_isolation (es : list Event) (st : State)
    (orgs : list client.Organization.t) (path : string) (err : option error) :
  run initial es = Some st →
  In (EvGetOrganizations orgs None) es →
  main st = Returned path err →
  (length (tasks st) = length (apps st) ∧
   ∀ i pc, tasks st !! i = Some pc → terminated pc = true) ∧
  allViolationRows st ≡ₚ concat (map deliveredRows (tasks st)) ∧
  (∀ e i o, In e es → stageFailure e = Some (i, o) →
     outcomeAt st i = Some o ∧ outcomeRows o = [] ∧ ¬ In (EvSend i) es) ∧
  (∀ st1 e st2 i o, step st1 e = Some st2 → stageFailure e = Some (i, o) →
     (∀ j, j ≠ i → tasks st2 !! j = tasks st1 !! j) ∧
     main st2 = main st1 ∧ ctxDone st2 = ctxDone st1 ∧
     resultsChan st2 = resultsChan st1 ∧ chanClosed st2 = chanClosed st1 ∧
     panicked st2 = false) ∧
  (∃ r, In (EvWriteCSV r) es ∧ main st = returnOfWrite target r) ∧
  (In (EvWriteCSV None) es → err = None).
Proof.
  intros Hrun Horgs Hm.
  destruct (setup_run _ _ _ _ _ _ _ Hrun Horgs) as [_ Hpast].
  unfold pastSetup in Hpast. rewrite Hm in Hpast. destruct Hpast as [r Hr].
  destruct (complete_run _ _ _ _ _ _ _ Hrun Hr) as (Hret & Hlen & Hterm & Hbuf & Hagg).
  split; [done|]. split; [|split; [|split; [|split]]].
  - rewrite Hagg. by eapply sentRows_delivered.
  - intros e i o Hin Hsf.
    pose proof (stageFailure_run _ _ _ _ _ _ _ _ _ Hrun Hin Hsf) as Ho.
    split; [done|].
    assert ((∀ rows, o ≠ Delivered rows) ∧ outcomeRows o = []) as [Hnd Hrows].
    { destruct (stageFailure_kind _ _ _ Hsf) as [[x ->]|[->|[x ->]]]; done. }
    split; [done|]. apply sends_zero.
    rewrite (ti_sends _ _ _ (TaskInv_run _ _ _ _ _ _ i Hrun)).
    by eapply outcomeAt_sentCount.
  - intros st1 e st2 i o Hstep Hsf.
    destruct (stageFailure_frame _ _ _ _ _ _ _ _ _ Hstep Hsf)
      as (? & ? & ? & ? & ? & ? & ? & ? & ? & ?).
    done.
  - exists r. done.
  - intros Hw. pose proof (write_run _ _ _ _ _ _ _ Hrun Hw) as Hm'.
    simpl in Hm'. congruence.
Qed.

(** C2. Admission bound with guaranteed release.  In every state of every
    run at most [maxConcurrent] = 10 goroutines are past "ticket acquired"
    and before "ticket released", and their number is the fill of the
    semaphore.  A goroutine takes a slot at most once; it holds one exactly
    when it has taken and not yet given back; once it has terminated, with
    whatever outcome, it has given back what it took; a goroutine cancelled
    while waiting never took and never gave back; and the deferred release
    of a goroutine that is about to return is never blocked. *)
Theorem C2_admission_bound (es : list Event) (st : State) :
  run initial es = Some st →
  ((ticketsHeld st ≤ maxConcurrent)%nat ∧ maxConcurrent = 10%nat ∧
   sem st = ticketsHeld st) ∧
  (∀ i, (acquires i es ≤ 1)%nat ∧ (releases i es ≤ acquires i es)%nat) ∧
  (∀ i pc, tasks st !! i = Some pc →
     holdsTicket pc = true ↔ acquires i es = 1%nat ∧ releases i es = 0%nat) ∧
  (∀ i o, tasks st !! i = Some (Exited o) → releases i es = acquires i es) ∧
  (∀ i pc, tasks st !! i = Some pc → outcomeOf pc = Some CancelledWaiting →
     acquires i es = 0%nat ∧ releases i es = 0%nat) ∧
  (∀ i o, tasks st !! i = Some (AtRelease o) →
     ∃ st', step st (EvRelease i) = Some st' ∧ S (sem st') = sem st).
Proof.
  intros Hrun.
  pose proof (Inv_run _ _ _ _ _ _ Hrun) as HI.
  pose proof (λ i, TaskInv_run _ _ _ _ _ _ i Hrun) as HT.
  split; [|split; [|split; [|split; [|split]]]].
  - unfold ticketsHeld. rewrite <- (inv_sem _ _ _ _ HI).
    split; [apply (inv_bound _ _ _ _ HI) | done].
  - intros i. destruct (HT i) as [Ha Hr _ _ _ _]. rewrite Ha, Hr.
    destruct (tasks st !! i) as [[| | | | |o|o|o]|]; simpl; try lia;
      destruct o; simpl; lia.
  - intros i pc Hpc. destruct (HT i) as [Ha Hr _ Hwf _ _].
    rewrite Ha, Hr, Hpc. rewrite Hpc in Hwf.
    destruct pc as [| | | | |o|o|o]; simpl; try (split; [done|intros []; done]);
      try (split; [done | intros [? ?]; lia]);
      destruct o; simpl; try done; split; try done; intros [? ?]; lia.
  - intros i o Hpc. destruct (HT i) as [Ha Hr _ _ _ _]. rewrite Ha, Hr, Hpc.
    destruct o; reflexivity.
  - intros i pc Hpc Ho. destruct (HT i) as [Ha Hr _ Hwf _ _].
    rewrite Ha, Hr, Hpc. rewrite Hpc in Hwf.
    destruct pc as [| | | | |o|o|o]; try discriminate Ho;
      injection Ho as ->; simpl; done.
  - intros i o Hpc.
    destruct (release_enabled filepath_Join s orgID filename _ _ _ HI Hpc)
      as (n & Hn & Hstep).
    eexists. split; [exact Hstep|]. st_simpl. done.
Qed.

(** C3, as the code has it.  A goroutine sends at most once, so no row set
    is duplicated; a terminated goroutine has sent exactly when its
    outcome is a delivery, so a goroutine that failed, found no report or
    was cancelled, also during the delivery itself, has put nothing on the
    channel; no error value travels on the channel; the channel is closed
    only when every application has its goroutine and every goroutine has
    terminated; and what was sent is, in the order of the sends, what has
    been collected followed by what is still buffered, so that after the
    write the aggregate is everything that was sent.  A goroutine that
    has reached the delivery of line 166 finds the channel open and with
    room, so its send goes through, and as long as the context is not
    cancelled the send is the only step it can take; hence in a run
    without cancellation a goroutine whose violations call succeeded
    carries the converted rows, ends with their delivery and has sent
    exactly once, and when the call has returned every such goroutine
    has delivered exactly one result. *)
Theorem C3_result_channel (es : list Event) (st : State) :
  run initial es = Some st →
  (∀ i, (sends i es ≤ 1)%nat) ∧
  (∀ i o, tasks st !! i = Some (Exited o) →
     sends i es = 1%nat ↔ ∃ rows, o = Delivered rows) ∧
  (∀ i o, tasks st !! i = Some (Exited o) →
     (∀ rows, o ≠ Delivered rows) → ¬ In (EvSend i) es) ∧
  Forall (λ r, Err r = None) (resultsChan st) ∧
  (chanClosed st = true →
     length (tasks st) = length (apps st) ∧
     ∀ i pc, tasks st !! i = Some pc → terminated pc = true) ∧
  allViolationRows st ++ concat (map Rows (resultsChan st)) = sentRows es ∧
  (∀ r, In (EvWriteCSV r) es → allViolationRows st = sentRows es) ∧
  (∀ i reportRows, tasks st !! i = Some (AtSend reportRows) →
     (∃ st', step st (EvSend i) = Some st' ∧ panicked st' = false ∧
             resultsChan st' = resultsChan st ++ [mkResult reportRows None] ∧
             tasks st' !! i = Some (AtRelease (Delivered reportRows))) ∧
     (ctxDone st = false → step st (EvSendCancelled i) = None)) ∧
  (¬ In EvCancel es →
   ∀ i clientRows, In (EvGetPolicyViolations i clientRows None) es →
     carried (tasks st !! i) = Some (convertRows clientRows) ∧
     ∀ o, outcomeAt st i = Some o →
          o = Delivered (convertRows clientRows) ∧ sends i es = 1%nat) ∧
  (∀ path err, main st = Returned path err → ¬ In EvCancel es →
   ∀ i clientRows, In (EvGetPolicyViolations i clientRows None) es →
     tasks st !! i = Some (Exited (Delivered (convertRows clientRows))) ∧
     sends i es = 1%nat).
Proof.
  intros Hrun.
  pose proof (Inv_run _ _ _ _ _ _ Hrun) as HI.
  pose proof (λ i, ti_sends _ _ _ (TaskInv_run _ _ _ _ _ _ i Hrun)) as HS.
  split; [|split; [|split; [|split; [|split; [|split; [|split; [|split; [|split]]]]]]]].
  - intros i. rewrite HS. unfold sentCount.
    destruct (tasks st !! i) as [pc|]; [destruct (hasDelivered pc)|]; lia.
  - intros i o Hpc. rewrite HS, Hpc. simpl. unfold hasDelivered. simpl.
    destruct o; split; try done; try (intros [? [=]]); eauto.
  - intros i o Hpc Hne. apply sends_zero. rewrite HS.
    apply (outcomeAt_sentCount _ _ o); [|done].
    unfold outcomeAt. by rewrite Hpc.
  - by eapply Err_run.
  - intros Hc. pose proof (chanClosed_Closed _ _ _ _ HI Hc) as Hcl.
    split; [apply (started_launched _ _ _ _ HI); congruence|].
    by apply (closed_terminated _ _ _ _ HI).
  - by eapply aggregate_run.
  - intros r Hr. by apply (complete_run _ _ _ _ _ _ _ Hrun Hr).
  - intros i reportRows Hpc. by apply send_only.
  - intros Hnc i clientRows Hin.
    split; [by eapply fetched_carried|].
    intros o Ho. by eapply fetched_delivered.
  - intros path err Hm Hnc i clientRows Hin.
    pose proof (fetched_carried _ _ _ _ _ _ _ _ Hrun Hin) as Hc.
    destruct (returned_terminated _ _ _ _ _ _ HI Hm) as [_ Hterm].
    destruct (tasks st !! i) as [pc|] eqn:Hpc; [|discriminate Hc].
    pose proof (Hterm _ _ Hpc) as Ht.
    destruct pc as [| | | | | | |o]; try discriminate Ht.
    destruct (fetched_delivered _ _ _ _ _ _ _ _ o Hrun Hnc Hin) as [-> Hs].
    { unfold outcomeAt. by rewrite Hpc. }
    done.
Qed.

(** C4. Empty-input failure.  In every run in which the application list
    comes back empty, the call has returned the empty path and the error
    "no applications found"; no goroutine was launched, the closing
    goroutine was not started, the only call made on the collaborators is
    [GetApplications], and nothing but that call and cancellations of the
    context has happened. *)
Theorem C4_empty_input (es : list Event) (st : State) :
  run initial es = Some st → In (EvGetApplications [] None) es →
  (∃ err, main st = Returned EmptyString (Some err) ∧
          Error err = "no applications found") ∧
  tasks st = [] ∧ closer st = NotStarted ∧
  calls st = [CallGetApplications orgID] ∧
  ∀ e, In e es → e = EvCancel ∨ e = EvGetApplications [] None.
Proof.
  intros Hrun Hin.
  destruct (empty_run _ _ _ _ _ _ Hrun Hin) as (Hm & Ht & Hc & Hcalls & Hes).
  split; [|done]. eexists. split; [exact Hm | reflexivity].
Qed.


(** C6, as the code has it.  The conversion copies each of the ten fields
    and the loop that fills the slice is [map] of it.  When the call has
    returned and the context was not cancelled during the run, the
    aggregate is the concatenation, in the order of the sends, of the
    converted rows that each sender's violations call returned, every
    block in the order of the remote source; no goroutine appears twice;
    and the number of rows is the sum over the applications of the number
    of rows their violations call returned, none for an application that
    made no such call. *)
Theorem C6_mapping_and_aggregation (es : list Event) (st : State)
    (path : string) (err : option error) :
  run initial es = Some st → main st = Returned path err →
  ¬ In EvCancel es →
  (∀ r : client.ViolationRow.t,
     report.Row.Application (toReportRow r) = client.ViolationRow.Application r ∧
     report.Row.Organization (toReportRow r) = client.ViolationRow.Organization r ∧
     report.Row.Policy (toReportRow r) = client.ViolationRow.Policy r ∧
     report.Row.Format (toReportRow r) = client.ViolationRow.Format r ∧
     report.Row.Component (toReportRow r) = client.ViolationRow.Component r ∧
     report.Row.Threat (toReportRow r) = client.ViolationRow.Threat r ∧
     report.Row.PolicyAction (toReportRow r) = client.ViolationRow.PolicyAction r ∧
     report.Row.ConstraintName (toReportRow r) = client.ViolationRow.ConstraintName r ∧
     report.Row.Condition (toReportRow r) = client.ViolationRow.Condition r ∧
     report.Row.CVE (toReportRow r) = client.ViolationRow.CVE r) ∧
  (∀ clientRows, convertRows clientRows = map toReportRow clientRows) ∧
  allViolationRows st =
    concat (map (λ i, map toReportRow (violationsOf i es)) (sendOrder es)) ∧
  NoDup (sendOrder es) ∧
  length (allViolationRows st) =
    sum_list (map (λ i, length (violationsOf i es)) (seq 0 (length (apps st)))).
Proof.
  intros Hrun Hm Hnc.
  pose proof (Inv_run _ _ _ _ _ _ Hrun) as HI.
  destruct (returned_terminated _ _ _ _ _ _ HI Hm) as [Hbuf Hterm].
  assert (allViolationRows st =
          concat (map (λ i, map toReportRow (violationsOf i es)) (sendOrder es)))
    as Hagg.
  { pose proof (aggregate_run _ _ _ _ _ _ Hrun) as Ha.
    rewrite Hbuf in Ha. simpl in Ha. rewrite app_nil_r in Ha. rewrite Ha.
    unfold sentRows. f_equal. apply map_ext. intros i. apply convertRows_map. }
  split; [intros r; repeat split|].
  split; [exact convertRows_map|]. split; [exact Hagg|].
  split; [by eapply sendOrder_NoDup|].
  rewrite Hagg, sum_length_concat.
  erewrite map_ext; [|intros i; apply length_map].
  rewrite <- !sum_length_concat. apply Permutation_length.
  apply concat_map_support.
  - by eapply sendOrder_NoDup.
  - intros i Hi.
    destruct (sendOrder_delivered _ _ _ _ _ _ _ Hrun Hi) as (pc & Hpc & _).
    pose proof (lookup_lt_Some _ _ _ Hpc). pose proof (inv_len _ _ _ _ HI). lia.
  - intros i _ Hi.
    destruct (TaskInv_run _ _ _ _ _ _ i Hrun) as [_ _ _ _ Hrows Hord].
    destruct (tasks st !! i) as [pc|] eqn:Hpc; [|exact Hrows].
    pose proof (Hterm _ _ Hpc) as Ht.
    destruct pc as [| | | | | | |o]; try discriminate Ht.
    pose proof (proj2 (cancel_run _ _ _ _ _ _ Hrun Hnc) i o) as Hcan.
    unfold outcomeAt in Hcan. rewrite Hpc in Hcan. specialize (Hcan eq_refl).
    destruct o; simpl in *; try done. destruct Hi. by apply Hord.
Qed.

(** C7. Organization-name resolution.  The table is the one built from the
    fetched organization list, in every state after the fetch; goroutines
    exist only after it has been built.  The name that a goroutine takes
    to the violations call, and the name in every violations call made, is
    the table's entry for the organization of its application when there
    is one and the organization ID itself when there is none.  A missing
    entry is not a failure: the goroutine logs a warning and goes on to
    the violations call, and the calling goroutine is not touched.  What
    the table holds is read off the fetched list: the entry for the ID of
    an organization is the name of the last organization of the list
    with that ID, there is no entry exactly for the IDs that no
    organization of the list has, and every entry is the name of an
    organization of the list; so the name in every violations call made
    is the name of the last fetched organization with the application's
    organization ID, or that ID when no fetched organization has it. *)
Theorem C7_organization_name (es : list Event) (st : State) :
  run initial es = Some st →
  (∀ orgs, In (EvGetOrganizations orgs None) es →
     orgIDToName st = buildOrgIDToName orgs) ∧
  (tasks st ≠ [] → ∃ orgs, In (EvGetOrganizations orgs None) es) ∧
  (∀ i reportID name app,
     tasks st !! i = Some (AtGetPolicyViolations reportID name) →
     apps st !! i = Some app →
     match orgIDToName st !! client.Application.OrganizationID app with
     | Some orgName => name = orgName
     | None => name = client.Application.OrganizationID app
     end) ∧
  (∀ publicID reportID name,
     In (CallGetPolicyViolations publicID reportID name) (calls st) →
     ∃ app, In app (apps st) ∧ publicID = client.Application.PublicID app ∧
       match orgIDToName st !! client.Application.OrganizationID app with
       | Some orgName => name = orgName
       | None => name = client.Application.OrganizationID app
       end) ∧
  (∀ i app ri st',
     apps st !! i = Some app →
     step st (EvGetLatestReportInfo i (Some ri) None) = Some st' →
     orgIDToName st !! client.Application.OrganizationID app = None →
     whitespaceOnly (client.ReportInfo.ReportHTMLURL ri) = false →
     stageFailure (EvGetLatestReportInfo i (Some ri) None) = None →
     (∃ reportID,
        tasks st' !! i =
          Some (AtGetPolicyViolations reportID (client.Application.OrganizationID app))) ∧
     main st' = main st ∧ panicked st' = false ∧
     last (log st') =
       Some (mkLog Warn (Some app) "organization name not found, using ID as fallback")) ∧
  (∀ orgs, In (EvGetOrganizations orgs None) es →
     (∀ orgs1 o orgs2, orgs = orgs1 ++ o :: orgs2 →
        (∀ o', In o' orgs2 →
           client.Organization.ID o' ≠ client.Organization.ID o) →
        orgIDToName st !! client.Organization.ID o =
          Some (client.Organization.Name o)) ∧
     (∀ id, orgIDToName st !! id = None ↔
            ∀ o, In o orgs → client.Organization.ID o ≠ id) ∧
     (∀ id name, orgIDToName st !! id = Some name →
        ∃ o, In o orgs ∧ client.Organization.ID o = id ∧
             client.Organization.Name o = name) ∧
     (∀ publicID reportID name,
        In (CallGetPolicyViolations publicID reportID name) (calls st) →
        ∃ app, In app (apps st) ∧ publicID = client.Application.PublicID app ∧
          ((∃ orgs1 o orgs2,
              orgs = orgs1 ++ o :: orgs2 ∧
              client.Organization.ID o = client.Application.OrganizationID app ∧
              (∀ o', In o' orgs2 →
                 client.Organization.ID o' ≠ client.Application.OrganizationID app) ∧
              name = client.Organization.Name o) ∨
           ((∀ o, In o orgs →
               client.Organization.ID o ≠ client.Application.OrganizationID app) ∧
            name = client.Application.OrganizationID app)))).
Proof.
  intros Hrun.
  destruct (ResolveInv_run _ _ _ _ _ _ Hrun) as [Ht Hc _].
  split; [|split; [|split; [|split; [|split]]]].
  - intros orgs Hin. by apply (setup_run _ _ _ _ _ _ _ Hrun Hin).
  - intros Hne. eapply launched_after_setup; eauto.
  - intros i reportID name app Hpc Happ.
    specialize (Ht _ _ _ _ Hpc Happ). unfold resolvedFor in Ht.
    by destruct (orgIDToName st !! client.Application.OrganizationID app).
  - intros publicID reportID name Hin.
    destruct (Hc _ _ _ Hin) as (app & Happ & Hpub & Hres).
    exists app. split; [done|]. split; [done|]. unfold resolvedFor in Hres.
    by destruct (orgIDToName st !! client.Application.OrganizationID app).
  - intros i app ri st' Happ Hstep Hnone Hws Hsf.
    destruct (step_reportInfo _ _ _ _ _ _ _ _ _ Hstep)
      as (app' & H0 & Happ' & Hnp & ->).
    assert (app' = app) as -> by congruence.
    assert (∀ pc, <[i := pc]> (tasks st) !! i = Some pc) as Hlook.
    { intros pc. apply list_lookup_insert_eq. by eapply lookup_lt_Some. }
    revert Hsf. unfold stageFailure, onReportInfo.
    rewrite TrimSpace_eqb, Hws.
    destruct (strings.Cut _ _) as [[before after] found].
    destruct (negb found || String.eqb after EmptyString); [discriminate|].
    intros _. st_simpl. unfold resolveOrgName. rewrite Hnone. st_simpl.
    rewrite Hlook. split; [eauto|]. split; [done|]. split; [done|].
    by rewrite last_snoc.
  - intros orgs Hin.
    destruct (setup_run _ _ _ _ _ _ _ Hrun Hin) as [Htable _].
    rewrite Htable.
    split; [intros orgs1 o orgs2 -> Hno; by apply buildOrgIDToName_at|].
    split; [intros id; apply buildOrgIDToName_None|].
    split; [intros id name; apply buildOrgIDToName_Some|].
    intros publicID reportID name Hcall.
    destruct (Hc _ _ _ Hcall) as (app & Happ & Hpub & Hres).
    exists app. split; [done|]. split; [done|].
    unfold resolvedFor in Hres. rewrite Htable in Hres.
    destruct (buildOrgIDToName orgs !! client.Application.OrganizationID app)
      as [orgName|] eqn:E; simpl in Hres.
    + left. destruct (buildOrgIDToName_last _ _ _ E)
        as (orgs1 & o & orgs2 & ? & ? & ? & ?).
      exists orgs1, o, orgs2. repeat split; try done. congruence.
    + right. split; [by apply buildOrgIDToName_None | done].
Qed.

(** C9. Error-path return value.  Whenever the call has returned, it
    returned in one of five ways: the application list could not be
    fetched, it was empty, the organization list could not be fetched, the
    CSV could not be written, each with the empty path and an error, or
    the CSV was written, with no error and the join of the configured
    output directory and the file name as path. *)
Theorem C9_return_value (es : list Event) (st : State) (path : string)
    (err : option error) :
  run initial es = Some st → main st = Returned path err →
  (err ≠ None → path = EmptyString) ∧
  (err = None → path = filepath_Join (config.OutputDir (cfg s)) filename) ∧
  returnedBy target es path err.
Proof.
  intros Hrun Hm.
  pose proof (returned_run _ _ _ _ _ _ _ _ Hrun Hm) as Hby.
  split; [|split; [|exact Hby]].
  - intros Hne. unfold returnedBy in Hby.
    destruct Hby as [(?&?&?&?&?)|[(?&?&?)|[(?&?&?&?&?)|[(?&?&?&?)|(?&?&?)]]]];
      congruence.
  - intros ->. unfold returnedBy in Hby.
    destruct Hby as [(?&?&?&?&?)|[(?&?&?)|[(?&?&?&?&?)|[(?&?&?&?)|(?&?&?)]]]];
      try discriminate. done.
Qed.

(** C10. Non-blocking delivery.  The result channel holds at most as many
    results as there are applications, its capacity; a goroutine sends at
    most once; so in every state of every run, wherever the calling
    goroutine stands, a goroutine that is at its send finds the channel
    open and with room, and the send goes through.  There is no deadlock:
    as long as the call has not returned, some goroutine can take a step;
    from every state the call can be run to its return; and once the
    application list is there, no run takes more than [stepsLeft]
    steps. *)
Theorem C10_delivery_never_blocks (es : list Event) (st : State) :
  run initial es = Some st →
  (length (resultsChan st) ≤ length (apps st))%nat ∧
  (∀ i, (sends i es ≤ 1)%nat) ∧
  (∀ i reportRows, tasks st !! i = Some (AtSend reportRows) →
     chanClosed st = false ∧
     (length (resultsChan st) < length (apps st))%nat ∧
     ∃ st', step st (EvSend i) = Some st' ∧ panicked st' = false ∧
            resultsChan st' = resultsChan st ++ [mkResult reportRows None] ∧
            tasks st' !! i = Some (AtRelease (Delivered reportRows))) ∧
  ((∀ p e, main st ≠ Returned p e) → ∃ e st', step st e = Some st') ∧
  (∃ es' st' p e, run st es' = Some st' ∧ main st' = Returned p e) ∧
  (main st ≠ AtGetApplications →
   ∀ es' st', run st es' = Some st' → (length es' ≤ stepsLeft st)%nat).
Proof.
  intros Hrun.
  pose proof (Inv_run _ _ _ _ _ _ Hrun) as HI.
  split; [|split; [|split; [|split; [|split]]]].
  - pose proof (inv_buf _ _ _ _ HI). pose proof (inv_len _ _ _ _ HI).
    pose proof (countIf_le_length hasDelivered (tasks st)). lia.
  - intros i. rewrite (ti_sends _ _ _ (TaskInv_run _ _ _ _ _ _ i Hrun)).
    unfold sentCount.
    destruct (tasks st !! i) as [pc|]; [destruct (hasDelivered pc)|]; lia.
  - intros i reportRows Hpc.
    destruct (send_enabled filepath_Join s orgID filename _ _ _ HI Hpc)
      as [Hroom Hstep].
    split; [by eapply live_open|]. split; [exact Hroom|].
    eexists. split; [exact Hstep|]. st_simpl.
    split; [apply (inv_panic _ _ _ _ HI)|]. split; [done|].
    apply list_lookup_insert_eq. by eapply lookup_lt_Some.
  - by apply progress.
  - by apply can_return.
  - intros Hm es' st' Hrun'.
    pose proof (run_bounded _ _ _ _ _ _ _ HI Hm Hrun'). lia.
Qed.

End Claims.

(** C8, as the code has it.  The ceiling is the constant 10: whether a
    waiting goroutine gets a slot does not depend on the configuration,
    the output directory is all of the configuration that any step
    depends on, a waiting goroutine gets a slot exactly when fewer than
    ten are taken, and in no state of any run under any configuration
    more than ten goroutines hold one. *)
Theorem C8_fixed_ceiling :
  maxConcurrent = 10%nat ∧
  (∀ J (svc svc' : IQReportService) org file st i,
     step J svc org file st (EvAcquire i) = step J svc' org file st (EvAcquire i)) ∧
  (∀ J (svc svc' : IQReportService) org file st e,
     config.OutputDir (cfg svc) = config.OutputDir (cfg svc') →
     step J svc org file st e = step J svc' org file st e) ∧
  (∀ J svc org file st i app,
     panicked st = false → taskAt st i = Some (AtAcquire, app) →
     is_Some (step J svc org file st (EvAcquire i)) ↔ (sem st < 10)%nat) ∧
  (∀ J svc org file es st,
     run J svc org file initial es = Some st → (ticketsHeld st ≤ 10)%nat).
Proof.
  split; [reflexivity|]. split; [reflexivity|]. split; [|split].
  - intros J svc svc' org file st e Hdir. unfold step.
    destruct e; try reflexivity.
    unfold onWriteCSV, target. by rewrite Hdir.
  - intros J svc org file st i app Hnp Hat. unfold step.
    rewrite Hnp, Hat. unfold maxConcurrent.
    destruct (sem st <? 10)%nat eqn:E.
    + apply Nat.ltb_lt in E. split; [done | eauto].
    + apply Nat.ltb_ge in E. split; [intros [? [=]] | lia].
  - intros J svc org file es st Hrun.
    pose proof (Inv_run _ _ _ _ _ _ Hrun) as HI.
    unfold ticketsHeld. rewrite <- (inv_sem _ _ _ _ HI).
    apply (inv_bound _ _ _ _ HI).
Qed.


(** * The claims on the sample runs *)

Lemma C2_admission_bound_witness :
  run Sample.Join Sample.svc None "report.csv" initial Sample.runOneFails =
    Some Sample.finalOneFails ∧
  (ticketsHeld Sample.finalOneFails ≤ maxConcurrent)%nat ∧
  releases 1 Sample.runOneFails = acquires 1 Sample.runOneFails.
Proof.
  assert (run Sample.Join Sample.svc None "report.csv" initial Sample.runOneFails =
          Some Sample.finalOneFails) as Hrun by (vm_compute; reflexivity).
  split; [exact Hrun|].
  destruct (C2_admission_bound Sample.Join Sample.svc None "report.csv" _ _ Hrun)
    as ((Hb & _ & _) & _ & _ & Hex & _).
  split; [exact Hb|].
  apply (Hex 1%nat (ViolationsFailed Sample.boom)). reflexivity.
Defined.

Lemma C4_empty_input_witness :
  run Sample.Join Sample.svc None "report.csv" initial Sample.runEmpty =
    Some Sample.finalEmpty ∧
  In (EvGetApplications [] None) Sample.runEmpty ∧
  tasks Sample.finalEmpty = [] ∧
  calls Sample.finalEmpty = [CallGetApplications None].
Proof.
  assert (run Sample.Join Sample.svc None "report.csv" initial Sample.runEmpty =
          Some Sample.finalEmpty) as Hrun by (vm_compute; reflexivity).
  assert (In (EvGetApplications [] None) Sample.runEmpty) as Hin by (left; reflexivity).
  split; [exact Hrun|]. split; [exact Hin|].
  destruct (C4_empty_input Sample.Join Sample.svc None "report.csv" _ _ Hrun Hin)
    as (_ & Ht & _ & Hc & _).
  split; [exact Ht | exact Hc].
Defined.

Lemma C9_return_value_witness :
  run Sample.Join Sample.svc None "report.csv" initial Sample.runBlank =
    Some Sample.finalBlank ∧
  main Sample.finalBlank = Returned "reports_output/report.csv" None ∧
  (@None error = None → "reports_output/report.csv" =
     Sample.Join (config.OutputDir (cfg Sample.svc)) "report.csv").
Proof.
  assert (run Sample.Join Sample.svc None "report.csv" initial Sample.runBlank =
          Some Sample.finalBlank) as Hrun by (vm_compute; reflexivity).
  assert (main Sample.finalBlank = Returned "reports_output/report.csv" None)
    as Hm by reflexivity.
  split; [exact Hrun|]. split; [exact Hm|].
  exact (proj1 (proj2 (C9_return_value Sample.Join Sample.svc None "report.csv"
                         _ _ _ _ Hrun Hm))).
Defined.

Lemma C1_failure_isolation_witness :
  run Sample.Join Sample.svc None "report.csv" initial Sample.runOneFails =
    Some Sample.finalOneFails ∧
  In (EvGetOrganizations Sample.orgs None) Sample.runOneFails ∧
  main Sample.finalOneFails = Returned "reports_output/report.csv" None ∧
  allViolationRows Sample.finalOneFails ≡ₚ
    concat (map deliveredRows (tasks Sample.finalOneFails)) ∧
  outcomeAt Sample.finalOneFails 1 = Some (ViolationsFailed Sample.boom).
Proof.
  assert (run Sample.Join Sample.svc None "report.csv" initial Sample.runOneFails =
          Some Sample.finalOneFails) as Hrun by (vm_compute; reflexivity).
  assert (In (EvGetOrganizations Sample.orgs None) Sample.runOneFails) as Hin
    by (right; left; reflexivity).
  assert (main Sample.finalOneFails = Returned "reports_output/report.csv" None)
    as Hm by reflexivity.
  split; [exact Hrun|]. split; [exact Hin|]. split; [exact Hm|].
  destruct (C1_failure_isolation Sample.Join Sample.svc None "report.csv"
              _ _ _ _ _ Hrun Hin Hm) as (_ & Hperm & Hfail & _).
  split; [exact Hperm|].
  apply (Hfail (EvGetPolicyViolations 1 [] (Some Sample.boom)) 1%nat
               (ViolationsFailed Sample.boom)).
  - simpl. tauto.
  - reflexivity.
Defined.

Lemma C3_result_channel_witness :
  run Sample.Join Sample.svc None "report.csv" initial Sample.runOneFails =
    Some Sample.finalOneFails ∧
  (sends 0 Sample.runOneFails ≤ 1)%nat ∧
  allViolationRows Sample.finalOneFails = sentRows Sample.runOneFails ∧
  ¬ In EvCancel Sample.runOneFails ∧
  tasks Sample.finalOneFails !! 0%nat =
    Some (Exited (Delivered (convertRows [Sample.v1; Sample.v2]))) ∧
  sends 0 Sample.runOneFails = 1%nat.
Proof.
  assert (run Sample.Join Sample.svc None "report.csv" initial Sample.runOneFails =
          Some Sample.finalOneFails) as Hrun by (vm_compute; reflexivity).
  assert (¬ In EvCancel Sample.runOneFails) as Hnc.
  { intros H. simpl in H.
    repeat (destruct H as [H|H]; [discriminate H|]). exact H. }
  split; [exact Hrun|].
  destruct (C3_result_channel Sample.Join Sample.svc None "report.csv" _ _ Hrun)
    as (Hone & _ & _ & _ & _ & _ & Hall & _ & _ & Hdone).
  split; [exact (Hone 0%nat)|].
  split; [apply (Hall None); simpl; tauto|].
  split; [exact Hnc|].
  apply (Hdone "reports_output/report.csv" None eq_refl Hnc 0%nat
               [Sample.v1; Sample.v2]).
  simpl. tauto.
Defined.

(** C3 as stated fails: the goroutine of the sample run whose metadata call
    fails took a slot, terminated, and put nothing on the channel. *)
Lemma C3_counterexample :
  ¬ oneResultEach Sample.Join Sample.svc None "report.csv".
Proof.
  intros Hclaim.
  assert (sends 0 Sample.runInfoFails = 1%nat) as H.
  { apply (Hclaim Sample.runInfoFails Sample.finalInfoFails 0%nat
                  (InfoFailed Sample.boom)).
    - vm_compute. reflexivity.
    - reflexivity.
    - discriminate. }
  vm_compute in H. discriminate H.
Qed.


Lemma C6_mapping_and_aggregation_witness :
  run Sample.Join Sample.svc None "report.csv" initial Sample.runBlank =
    Some Sample.finalBlank ∧
  main Sample.finalBlank = Returned "reports_output/report.csv" None ∧
  ¬ In EvCancel Sample.runBlank ∧
  length (allViolationRows Sample.finalBlank) =
    sum_list (map (λ i, length (violationsOf i Sample.runBlank))
                  (seq 0 (length (apps Sample.finalBlank)))).
Proof.
  assert (run Sample.Join Sample.svc None "report.csv" initial Sample.runBlank =
          Some Sample.finalBlank) as Hrun by (vm_compute; reflexivity).
  assert (main Sample.finalBlank = Returned "reports_output/report.csv" None)
    as Hm by reflexivity.
  assert (¬ In EvCancel Sample.runBlank) as Hnc.
  { simpl. intros H. repeat (destruct H as [H|H]; [discriminate H|]). exact H. }
  split; [exact Hrun|]. split; [exact Hm|]. split; [exact Hnc|].
  apply (C6_mapping_and_aggregation Sample.Join Sample.svc None "report.csv"
           _ _ _ _ Hrun Hm Hnc).
Defined.

(** C6 as stated fails: in the sample run every remote call succeeds, the
    context is cancelled between the violations call and the send, and the
    call returns no row where the violations call returned two. *)
Lemma C6_counterexample :
  ¬ countIsSum Sample.Join Sample.svc None "report.csv".
Proof.
  intros Hclaim.
  assert (length (allViolationRows Sample.finalCancelledAtSend) =
          sum_list (map (λ i, length (violationsOf i Sample.runCancelledAtSend))
                        (seq 0 (length (apps Sample.finalCancelledAtSend))))) as H.
  { apply (Hclaim Sample.runCancelledAtSend Sample.finalCancelledAtSend
                  "reports_output/report.csv" None).
    - vm_compute. reflexivity.
    - reflexivity.
    - intros e He. simpl in He.
      repeat (destruct He as [<-|He]; [reflexivity|]). destruct He. }
  vm_compute in H. discriminate H.
Qed.

Lemma C7_organization_name_witness :
  run Sample.Join Sample.svc None "report.csv" initial Sample.runToInfo =
    Some Sample.atInfo ∧
  orgIDToName Sample.atInfo = buildOrgIDToName Sample.orgs ∧
  orgIDToName Sample.atInfo !! client.Application.OrganizationID Sample.A1 =
    Some "Org One" ∧
  orgIDToName Sample.atInfo !! client.Application.OrganizationID Sample.A2 = None ∧
  ∃ reportID,
    tasks Sample.afterInfo1 !! 1%nat =
      Some (AtGetPolicyViolations reportID
              (client.Application.OrganizationID Sample.A2)).
Proof.
  assert (run Sample.Join Sample.svc None "report.csv" initial Sample.runToInfo =
          Some Sample.atInfo) as Hrun by (vm_compute; reflexivity).
  assert (In (EvGetOrganizations Sample.orgs None) Sample.runToInfo) as Hin
    by (right; left; reflexivity).
  destruct (C7_organization_name Sample.Join Sample.svc None "report.csv" _ _ Hrun)
    as (Htable & _ & _ & _ & Hfallback & Hcontent).
  destruct (Hcontent _ Hin) as (Hlast & Hnone & _ & _).
  assert (orgIDToName Sample.atInfo !!
            client.Application.OrganizationID Sample.A2 = None) as Hno.
  { apply Hnone. intros o [<-|[]]. discriminate. }
  split; [exact Hrun|].
  split; [apply Htable; exact Hin|].
  split.
  { apply (Hlast [] (client.Organization.mk "org-1" "Org One") []);
      [reflexivity | intros o' []]. }
  split; [exact Hno|].
  apply (Hfallback 1%nat Sample.A2 Sample.info1 Sample.afterInfo1).
  - reflexivity.
  - vm_compute. reflexivity.
  - exact Hno.
  - vm_compute. reflexivity.
  - vm_compute. reflexivity.
Defined.

(** C8 as stated fails: no two configurations, whatever ceiling they
    carry, decide differently on a goroutine that asks for a slot. *)
Lemma C8_counterexample : ¬ ceilingConfigurable.
Proof.
  intros (J & svc & svc' & org & file & st & i & [st' Hsome] & Hnone).
  change (step J svc org file st (EvAcquire i))
    with (step J svc' org file st (EvAcquire i)) in Hsome.
  congruence.
Qed.

Lemma C8_fixed_ceiling_witness :
  step Sample.Join Sample.svc None "report.csv" Sample.atInfo (EvAcquire 0) =
  step Sample.Join Sample.svcCustom None "report.csv" Sample.atInfo (EvAcquire 0).
Proof.
  exact (proj1 (proj2 C8_fixed_ceiling) Sample.Join Sample.svc Sample.svcCustom
           None "report.csv" Sample.atInfo 0%nat).
Defined.

Lemma C10_delivery_never_blocks_witness :
  run Sample.Join Sample.svc None "report.csv" initial Sample.runToSend =
    Some Sample.readyToSend ∧
  main Sample.readyToSend = AtLaunch ∧
  chanClosed Sample.readyToSend = false ∧
  (length (resultsChan Sample.readyToSend) < length (apps Sample.readyToSend))%nat.
Proof.
  assert (run Sample.Join Sample.svc None "report.csv" initial Sample.runToSend =
          Some Sample.readyToSend) as Hrun by (vm_compute; reflexivity).
  split; [exact Hrun|]. split; [reflexivity|].
  destruct (C10_delivery_never_blocks Sample.Join Sample.svc None "report.csv"
              _ _ Hrun) as (_ & _ & Hsend & _).
  destruct (Hsend 0%nat (convertRows [Sample.v1; Sample.v2]) eq_refl)
    as (Hopen & Hroom & _).
  split; [exact Hopen | exact Hroom].
Defined.

(** * Further properties of [GenerateLatestPolicyReport] *)

(** ** No panic, and nothing left running *)

Lemma countIf_none {A} (p : A → bool) (l : list A) :
  (∀ i x, l !! i = Some x → p x = false) → countIf p l = 0%nat.
Proof.
  induction l as [|y l IH]; intros H; simpl; [done|].
  rewrite (H 0%nat y eq_refl), IH; [done|].
  intros i x Hx. exact (H (S i) x Hx).
Qed.

Section Shutdown.

Variable filepath_Join : string → string → string.
Variable s : IQReportService.
Variable orgID : option string.
Variable filename : string.

Local Abbreviation step := (step filepath_Join s orgID filename).
Local Abbreviation run := (run filepath_Join s orgID filename).
Local Abbreviation Inv := (Inv filepath_Join s filename).

Lemma closes_run es st :
  run initial es = Some st →
  closes es = if chanClosed st then 1%nat else 0%nat.
Proof.
  revert es st.
  apply (run_invariant filepath_Join s orgID filename
    (λ es st, closes es = if chanClosed st then 1%nat else 0%nat)).
  - reflexivity.
  - intros es st e st' Hrun IH Hstep.
    pose proof (Inv_step _ _ _ _ _ _ _ (Inv_run _ _ _ _ _ _ Hrun) Hstep) as HI'.
    pose proof (inv_panic _ _ _ _ HI') as Hnp.
    unfold closes in *. rewrite countIf_app, IH.
    destruct e; cbn [countIf isClose]; step_inv Hstep; subst st'.
    all: revert Hnp; unfold_handlers; goal_cases; st_simpl; intros Hnp;
         try discriminate Hnp;
         repeat match goal with E : chanClosed _ = _ |- _ => rewrite E end;
         try reflexivity; try lia.
    all: destruct (chanClosed st); lia.
Qed.

(** Once the call has returned, only the context can still change. *)
Lemma returned_frozen st e st' path err :
  Inv st → main st = Returned path err → step st e = Some st' →
  e = EvCancel ∧ st' = setCtxDone st.
Proof.
  intros HI Hm Hstep.
  destruct (returned_terminated _ _ _ _ _ _ HI Hm) as [Hbuf Hterm].
  pose proof (inv_main _ _ _ _ HI) as Hmain. unfold mainOK in Hmain.
  rewrite Hm in Hmain.
  pose proof (inv_closer _ _ _ _ HI) as Hcl. unfold closerOK in Hcl.
  destruct e; step_inv Hstep; subst st'; try congruence; try done.
  all: try match goal with
       | H : tasks _ !! _ = Some _ |- _ =>
         apply Hterm in H; discriminate H
       end.
  all: destruct Hmain as [(? & ? & _)|(? & _)]; done.
Qed.

End Shutdown.

(** ** The calls made on the collaborators *)

Ltac count_insert :=
  repeat match goal with
  | H : tasks ?st !! ?i = Some ?x
    |- context [countIf ?p (<[?i := ?y]> (tasks ?st))] =>
    let F := fresh in
    pose proof (countIf_insert p _ _ _ y H) as F;
    cbn [calledInfo calledViolations inCall] in F;
    generalize dependent (countIf p (<[i := y]> (tasks st))); intros
  end.

Section Calls.

Variable filepath_Join : string → string → string.
Variable s : IQReportService.
Variable orgID : option string.
Variable filename : string.

Local Abbreviation step := (step filepath_Join s orgID filename).
Local Abbreviation run := (run filepath_Join s orgID filename).
Local Abbreviation Inv := (Inv filepath_Join s filename).
Local Abbreviation target := (target filepath_Join s filename).
Local Abbreviation callsOK := (callsOK orgID target).

Lemma forallb_snoc {A} (p : A → bool) (l : list A) (x : A) :
  forallb p l = true → p x = true → forallb p (l ++ [x]) = true.
Proof. intros Hl Hx. rewrite forallb_app, Hl. simpl. by rewrite Hx. Qed.

Lemma callsOK_step st e st' :
  Inv st → callsOK st → step st e = Some st' → callsOK st'.
Proof.
  intros HI Hc Hstep.
  assert ((∃ p x, main st = Returned p x) ∨ ∀ p x, main st ≠ Returned p x)
    as [(p & x & Hm)|Hnr].
  { destruct (main st); eauto; right; intros; discriminate. }
  { destruct (returned_frozen _ _ _ _ _ _ _ _ _ HI Hm Hstep) as [-> ->].
    unfold callsOK in *. st_simpl. exact Hc. }
  pose proof (inv_main _ _ _ _ HI) as Hmain. unfold mainOK in Hmain.
  unfold callsOK in *.
  destruct e; step_inv Hstep; subst st'.
  all: unfold_handlers; goal_cases; st_simpl; rewrite_pcs; try assumption.
  all: try (destruct (main st) eqn:Hm; try assumption;
            try (destruct Hmain as (? & _); no_task);
            try (by destruct (Hnr _ _ eq_refl));
            destruct Hc as (per & -> & Hper); eexists (per ++ [_]);
            (split; [reflexivity | by apply forallb_snoc]); fail).
  all: try (rewrite Hc; simpl; auto; fail).
  all: try (rewrite Hc; exists []; done).
  all: destruct Hc as (per & -> & Hper); right; right; exists per; done.
Qed.

Lemma callsOK_run es st : run initial es = Some st → callsOK st.
Proof.
  revert es st. apply (run_invariant filepath_Join s orgID filename (λ _ st, callsOK st)).
  - reflexivity.
  - intros es st e st' Hrun IH Hstep.
    exact (callsOK_step _ _ _ (Inv_run _ _ _ _ _ _ Hrun) IH Hstep).
Qed.

Lemma CallCount_step st e st' :
  Inv st → callsOK st → CallCount st → step st e = Some st' → CallCount st'.
Proof.
  intros HI Hok [Hi Hv Ha] Hstep.
  pose proof (inv_main _ _ _ _ HI) as Hmain. unfold mainOK in Hmain.
  unfold callsOK in Hok.
  destruct e; step_inv Hstep; subst st'.
  all: unfold_handlers; goal_cases; st_simpl; rewrite_pcs.
  all: constructor; st_simpl; rewrite ?countIf_app;
       cbn [countIf isInfoCall isViolationsCall calledInfo calledViolations].
  all: count_insert.
  all: try assumption; try lia.
  all: intros appID Hin; apply in_app_or in Hin;
       destruct Hin as [Hin|[Hin|[]]]; try discriminate Hin.
  all: try (by apply Ha).
  all: try (rewrite Hok in Hin; destruct Hin).
  all: injection Hin as <-; eexists; split; [|reflexivity].
  all: eapply list_elem_of_In, list_elem_of_lookup_2; eassumption.
Qed.

Lemma CallCount_run es st : run initial es = Some st → CallCount st.
Proof.
  revert es st.
  apply (run_invariant filepath_Join s orgID filename (λ _ st, CallCount st)).
  - constructor; simpl; [done | done | intros ? []].
  - intros es st e st' Hrun IH Hstep.
    exact (CallCount_step _ _ _ (Inv_run _ _ _ _ _ _ Hrun)
             (callsOK_run _ _ Hrun) IH Hstep).
Qed.

Lemma countIf_mono {A} (p q : A → bool) (l : list A) :
  (∀ x, p x = true → q x = true) → (countIf p l ≤ countIf q l)%nat.
Proof.
  intros Hpq. induction l as [|x l IH]; simpl; [lia|].
  specialize (Hpq x).
  destruct (p x), (q x); first [lia | discriminate (Hpq eq_refl)].
Qed.

Lemma perApp_length (per : list Call) :
  forallb perAppCall per = true →
  length per = (countIf isInfoCall per + countIf isViolationsCall per)%nat.
Proof.
  induction per as [|c per IH]; simpl; [done|].
  intros [Hc Hper]%andb_prop. rewrite (IH Hper).
  destruct c; simpl in *; try discriminate Hc; lia.
Qed.

Lemma calls_length st :
  callsOK st →
  (length (calls st) ≤
   3 + countIf isInfoCall (calls st) + countIf isViolationsCall (calls st))%nat.
Proof.
  unfold callsOK. intros H.
  destruct (main st);
    try (rewrite H; simpl; lia);
    try (destruct H as (per & -> & Hper); simpl; rewrite (perApp_length _ Hper); lia).
  destruct H as [->|[->|(per & -> & Hper)]]; simpl; try lia.
  rewrite length_app, !countIf_app, (perApp_length _ Hper). simpl. lia.
Qed.

(** Once [WriteCSV] has been called it is the last call, and it was
    handed what had been collected. *)
Lemma calls_write_run es st r :
  run initial es = Some st → In (EvWriteCSV r) es →
  ∃ per, calls st = CallGetApplications orgID :: CallGetOrganizations :: per ++
                    [CallWriteCSV target (allViolationRows st)] ∧
         forallb perAppCall per = true.
Proof.
  intros Hrun. revert r. revert es st Hrun.
  apply (run_invariant filepath_Join s orgID filename
    (λ es st, ∀ r, In (EvWriteCSV r) es →
       ∃ per, calls st = CallGetApplications orgID :: CallGetOrganizations :: per ++
                         [CallWriteCSV target (allViolationRows st)] ∧
              forallb perAppCall per = true)).
  - intros r [].
  - intros es st e st' Hrun IH Hstep r Hin.
    pose proof (Inv_run _ _ _ _ _ _ Hrun) as HI.
    apply in_app_or in Hin. destruct Hin as [Hin|[->|[]]].
    + pose proof (write_run _ _ _ _ _ _ _ Hrun Hin) as Hm.
      assert (∃ p x, main st = Returned p x) as (p & x & Hret).
      { rewrite Hm. unfold returnOfWrite. destruct r; eauto. }
      destruct (returned_frozen _ _ _ _ _ _ _ _ _ HI Hret Hstep) as [-> ->].
      st_simpl. eauto.
    + pose proof (callsOK_run _ _ Hrun) as Hok. unfold callsOK in Hok.
      step_inv Hstep. subst st'.
      destruct Hok as (per & Hc & Hper). exists per.
      unfold onWriteCSV. destruct r; st_simpl; rewrite Hc; done.
Qed.

(** Each goroutine against its two calls. *)
Lemma FetchInv_step es st e st' i :
  FetchInv es st i → step st e = Some st' → FetchInv (es ++ [e]) st' i.
Proof.
  intros [Hi Hv] H.
  destruct e; step_inv H; subst st'.
  all: unfold_handlers; goal_cases; st_simpl.
  all: constructor; rewrite countIf_app; cbn [countIf isInfoOf isViolationsOf];
       st_simpl; lookup_cases i.
  all: rewrite ?Nat.add_0_r; try assumption.
  all: repeat match goal with
       | H : tasks _ !! _ = _ |- _ => rewrite H in *
       end.
  all: cbn [infoReturns violationsReturns calledInfo calledViolations] in *.
  all: try lia.
Qed.

Lemma FetchInv_run es st i : run initial es = Some st → FetchInv es st i.
Proof.
  revert es st.
  apply (run_invariant filepath_Join s orgID filename (λ es st, FetchInv es st i)).
  - by constructor.
  - intros es st e st' _ IH Hstep. exact (FetchInv_step _ _ _ _ _ IH Hstep).
Qed.

End Calls.

(** ** Cancellation before the first fetch *)

Section Cancel.

Variable filepath_Join : string → string → string.
Variable s : IQReportService.
Variable orgID : option string.
Variable filename : string.

Local Abbreviation step := (step filepath_Join s orgID filename).
Local Abbreviation run := (run filepath_Join s orgID filename).
Local Abbreviation Inv := (Inv filepath_Join s filename).
Local Abbreviation target := (target filepath_Join s filename).

Lemma ctxDone_step st e st' :
  step st e = Some st' → ctxDone st = true → ctxDone st' = true.
Proof.
  intros H Hd. destruct e; step_inv H; subst st'.
  all: unfold_handlers; goal_cases; st_simpl; first [assumption | reflexivity | congruence].
Qed.

Lemma noFetch_step st e st' i pc :
  step st e = Some st' → ctxDone st = true →
  tasks st !! i = Some pc → noFetch pc = true →
  isFetchOf i e = false ∧
  ∃ pc', tasks st' !! i = Some pc' ∧ noFetch pc' = true.
Proof.
  intros H Hd Hpc Hn.
  destruct e; step_inv H; subst st'.
  all: unfold_handlers; goal_cases; st_simpl; cbn [isFetchOf].
  all: try (split; [reflexivity | eauto]; fail).
  all: try congruence.
  all: lookup_cases i.
  all: try (split; [reflexivity | eauto]; fail).
  all: try lia.
  all: try match goal with
       | |- (?a =? ?j)%nat = false ∧ _ =>
         destruct (decide (a = j)) as [->|Hne];
         [| rewrite (proj2 (Nat.eqb_neq _ _) Hne); eauto]
       end.
  all: try match goal with
       | H : tasks _ !! ?j = Some ?x |- _ =>
         rewrite H in Hpc; injection Hpc as Hpc; rewrite <- Hpc in Hn
       end.
  all: try congruence.
  all: cbn [noFetch] in Hn; try discriminate Hn.
  all: split; [reflexivity|]; eexists; split; [reflexivity|];
       first [reflexivity | exact Hn].
Qed.

Lemma noFetch_run st es st' i pc :
  run st es = Some st' → ctxDone st = true →
  tasks st !! i = Some pc → noFetch pc = true →
  (∀ e, In e es → isFetchOf i e = false) ∧
  ∃ pc', tasks st' !! i = Some pc' ∧ noFetch pc' = true.
Proof.
  revert st pc. induction es as [|e es IH]; intros st pc Hrun Hd Hpc Hn;
    simpl in Hrun.
  - injection Hrun as <-. split; [intros e [] | eauto].
  - destruct (step st e) as [st1|] eqn:Hstep; [|done].
    destruct (noFetch_step _ _ _ _ _ Hstep Hd Hpc Hn) as (He & pc1 & Hpc1 & Hn1).
    destruct (IH _ _ Hrun (ctxDone_step _ _ _ Hstep Hd) Hpc1 Hn1) as [Hes Hlast].
    split; [|exact Hlast]. intros e' [<-|Hin]; auto.
Qed.

Lemma quiet_step st e st' :
  quiet st → step st e = Some st' →
  ctxDone st = true ∨ isCtxCheck e = false → quiet st'.
Proof.
  intros (Ht & Hc & Hb & Ha) H Hor. unfold quiet.
  destruct e; step_inv H; subst st'.
  all: try match goal with
       | H : tasks _ !! _ = Some _ |- _ =>
         pose proof (Ht _ _ H) as Hn; cbn [noFetch] in Hn; try discriminate Hn
       end.
  all: unfold_handlers; goal_cases; st_simpl.
  all: rewrite ?forallb_app; cbn [forallb perAppCall negb andb].
  all: rewrite ?Hc, ?Hb, ?Ha.
  all: try (destruct Hor as [Hor|Hor]; [congruence | discriminate Hor]).
  all: try congruence.
  all: (split; [|done]).
  all: intros k pck; lookup_cases k; try apply Ht.
  all: try (intros [= <-]; first [reflexivity | exact Hn]).
  all: try (intros [=]).
Qed.

Lemma quiet_prefix es st :
  run initial es = Some st → (∀ e, In e es → isCtxCheck e = false) → quiet st.
Proof.
  revert es st.
  apply (run_invariant filepath_Join s orgID filename
    (λ es st, (∀ e, In e es → isCtxCheck e = false) → quiet st)).
  - intros _. repeat split. intros i pc H. discriminate H.
  - intros es st e st' _ IH Hstep Hes.
    apply (quiet_step st e); [|exact Hstep|].
    + apply IH. intros e' Hin. apply Hes, in_or_app. by left.
    + right. apply Hes, in_or_app. right. by left.
Qed.

Lemma quiet_run st es st' :
  run st es = Some st' → ctxDone st = true → quiet st → quiet st'.
Proof.
  revert st. induction es as [|e es IH]; intros st Hrun Hd Hq; simpl in Hrun.
  - by injection Hrun as <-.
  - destruct (step st e) as [st1|] eqn:Hstep; [|done].
    apply (IH st1); [done | by eapply ctxDone_step |].
    apply (quiet_step st e); auto.
Qed.

(** A run in which the context is cancelled before any goroutine has
    passed the check of line 105. *)
Lemma quiet_cancelled es1 es2 st :
  run initial (es1 ++ EvCancel :: es2) = Some st →
  (∀ i, ¬ In (EvCtxCheck i) es1) → quiet st.
Proof.
  intros Hrun Hes. rewrite run_app in Hrun.
  destruct (run initial es1) as [st1|] eqn:H1; [|done].
  simpl in Hrun. destruct (step st1 EvCancel) as [st2|] eqn:H2; [|done].
  assert (quiet st1) as Hq1.
  { apply (quiet_prefix _ _ H1). intros e Hin.
    destruct e; try reflexivity. destruct (Hes _ Hin). }
  pose proof (quiet_step _ _ _ Hq1 H2 (or_intror eq_refl)) as Hq2.
  apply (quiet_run _ _ _ Hrun); [|exact Hq2].
  step_inv H2. by subst st2.
Qed.

End Cancel.


(** ** Failures are logged *)


Section Log.

Variable filepath_Join : string → string → string.
Variable s : IQReportService.
Variable orgID : option string.
Variable filename : string.

Local Abbreviation step := (step filepath_Join s orgID filename).
Local Abbreviation run := (run filepath_Join s orgID filename).
Local Abbreviation Inv := (Inv filepath_Join s filename).




End Log.

(** ** A failed set-up *)

Section Setup.

Variable filepath_Join : string → string → string.
Variable s : IQReportService.
Variable orgID : option string.
Variable filename : string.

Local Abbreviation step := (step filepath_Join s orgID filename).
Local Abbreviation run := (run filepath_Join s orgID filename).
Local Abbreviation Inv := (Inv filepath_Join s filename).
Local Abbreviation target := (target filepath_Join s filename).

(** What has happened when the call returns before the fan-out. *)
Lemma early_return_step st e st' p x :
  Inv st → step st e = Some st' →
  main st = Returned p x ∧ tasks st = [] ∧ closer st = NotStarted →
  main st' = Returned p x ∧ tasks st' = [] ∧ closer st' = NotStarted ∧
  calls st' = calls st ∧ log st' = log st.
Proof.
  intros HI Hstep (Hm & Ht & Hc).
  destruct (returned_frozen _ _ _ _ _ _ _ _ _ HI Hm Hstep) as [-> ->].
  st_simpl. done.
Qed.

Lemma applications_failed_run es st got x :
  run initial es = Some st → In (EvGetApplications got (Some x)) es →
  main st = Returned EmptyString (Some (fmt.Errorf_w "get applications: " x)) ∧
  tasks st = [] ∧ closer st = NotStarted ∧
  calls st = [CallGetApplications orgID].
Proof.
  intros Hrun. revert got x. revert es st Hrun.
  apply (run_invariant filepath_Join s orgID filename
    (λ es st, ∀ got x, In (EvGetApplications got (Some x)) es →
       main st = Returned EmptyString (Some (fmt.Errorf_w "get applications: " x)) ∧
       tasks st = [] ∧ closer st = NotStarted ∧
       calls st = [CallGetApplications orgID])).
  - intros got x [].
  - intros es st e st' Hrun IH Hstep got x Hin.
    pose proof (Inv_run _ _ _ _ _ _ Hrun) as HI.
    apply in_app_or in Hin. destruct Hin as [Hin|[->|[]]].
    + destruct (IH _ _ Hin) as (Hm & Ht & Hc & Hcalls).
      destruct (early_return_step _ _ _ _ _ HI Hstep (conj Hm (conj Ht Hc)))
        as (? & ? & ? & Hcalls' & _).
      rewrite Hcalls'. done.
    + pose proof (callsOK_run _ _ _ _ _ _ Hrun) as Hok. unfold callsOK in Hok.
      pose proof (inv_main _ _ _ _ HI) as Hmain. unfold mainOK in Hmain.
      step_inv Hstep. subst st'. unfold onApplications. st_simpl.
      rewrite Hok. destruct Hmain as (? & ? & ? & ?). done.
Qed.

Lemma organizations_failed_run es st got x :
  run initial es = Some st → In (EvGetOrganizations got (Some x)) es →
  main st = Returned EmptyString (Some (fmt.Errorf_w "get organizations: " x)) ∧
  tasks st = [] ∧ closer st = NotStarted ∧
  calls st = [CallGetApplications orgID; CallGetOrganizations].
Proof.
  intros Hrun. revert got x. revert es st Hrun.
  apply (run_invariant filepath_Join s orgID filename
    (λ es st, ∀ got x, In (EvGetOrganizations got (Some x)) es →
       main st = Returned EmptyString (Some (fmt.Errorf_w "get organizations: " x)) ∧
       tasks st = [] ∧ closer st = NotStarted ∧
       calls st = [CallGetApplications orgID; CallGetOrganizations])).
  - intros got x [].
  - intros es st e st' Hrun IH Hstep got x Hin.
    pose proof (Inv_run _ _ _ _ _ _ Hrun) as HI.
    apply in_app_or in Hin. destruct Hin as [Hin|[->|[]]].
    + destruct (IH _ _ Hin) as (Hm & Ht & Hc & Hcalls).
      destruct (early_return_step _ _ _ _ _ HI Hstep (conj Hm (conj Ht Hc)))
        as (? & ? & ? & Hcalls' & _).
      rewrite Hcalls'. done.
    + pose proof (callsOK_run _ _ _ _ _ _ Hrun) as Hok. unfold callsOK in Hok.
      pose proof (inv_main _ _ _ _ HI) as Hmain. unfold mainOK in Hmain.
      step_inv Hstep. subst st'. unfold onOrganizations. st_simpl.
      rewrite Hok. destruct Hmain as (? & ? & ? & ?). done.
Qed.

End Setup.

(** ** The report identifier, and a run that fills the semaphore *)

Lemma Cut_first (s sep : string) (k : nat) :
  firstOccurrence sep s k →
  strings.Cut s sep = (sliceTo k s, sliceFrom (k + String.length sep) s, true).
Proof.
  intros Hk. destruct (strings.Cut s sep) as [[b a] found] eqn:E.
  destruct found.
  - destruct (Cut_found _ _ _ _ E) as (k' & Hk' & -> & -> & _).
    by rewrite (firstOccurrence_unique _ _ _ _ Hk' Hk).
  - pose proof (Cut_not_found _ _ _ _ E k) as Hno. destruct Hk. congruence.
Qed.

Lemma countIf_replicate {A} (p : A → bool) (n : nat) (x : A) :
  countIf p (replicate n x) = if p x then n else 0%nat.
Proof.
  induction n as [|n IH]; simpl; [by destruct (p x)|].
  rewrite IH. by destruct (p x).
Qed.

Lemma replicate_middle {A} (n : nat) (x : A) (l : list A) :
  replicate n x ++ x :: l = x :: replicate n x ++ l.
Proof. induction n as [|n IH]; simpl; [done|]. by rewrite IH. Qed.

Section Ceiling.

Variable filepath_Join : string → string → string.
Variable s : IQReportService.
Variable orgID : option string.
Variable filename : string.

Local Abbreviation step := (step filepath_Join s orgID filename).
Local Abbreviation run := (run filepath_Join s orgID filename).

Lemma run_cons st e es :
  run st (e :: es) =
  match step st e with Some st' => run st' es | None => None end.
Proof. reflexivity. Qed.

(** The loop of lines 87-170 launches [m] more goroutines. *)
Lemma launch_run (m : nat) (st : State) :
  panicked st = false → main st = AtLaunch →
  (length (tasks st) + m ≤ length (apps st))%nat →
  ∃ st', run st (replicate m EvGo) = Some st' ∧
         panicked st' = false ∧ main st' = AtLaunch ∧ apps st' = apps st ∧
         sem st' = sem st ∧
         tasks st' = tasks st ++ replicate m AtAcquire.
Proof.
  revert st. induction m as [|m IH]; intros st Hnp Hm Hlen.
  - exists st. simpl. by rewrite app_nil_r.
  - simpl. unfold step at 1. rewrite Hnp, Hm.
    destruct (length (tasks st) <? length (apps st))%nat eqn:E;
      [|apply Nat.ltb_ge in E; lia].
    destruct (IH (setTasks (tasks st ++ [AtAcquire]) (setWg (S (wg st)) st)))
      as (st' & Hrun & ? & ? & ? & ? & Ht); st_simpl; try done.
    { rewrite length_app. simpl. lia. }
    exists st'. split; [exact Hrun|]. repeat split; try done.
    rewrite Ht, <- app_assoc. done.
Qed.

(** The goroutines [j], ..., [j + m - 1] take a slot one after the other. *)
Lemma acquire_run (m : nat) (st : State) (j r : nat) :
  panicked st = false →
  tasks st = replicate j AtCtxCheck ++ replicate (m + r) AtAcquire →
  (length (tasks st) ≤ length (apps st))%nat →
  sem st = j → (j + m ≤ maxConcurrent)%nat →
  ∃ st', run st (map EvAcquire (seq j m)) = Some st' ∧
         panicked st' = false ∧ apps st' = apps st ∧ main st' = main st ∧
         sem st' = (j + m)%nat ∧
         tasks st' = replicate (j + m) AtCtxCheck ++ replicate r AtAcquire.
Proof.
  revert st j. induction m as [|m IH]; intros st j Hnp Ht Hlen Hs Hb.
  - exists st. simpl. rewrite Nat.add_0_r. done.
  - assert (tasks st !! j = Some AtAcquire) as Hj.
    { rewrite Ht, lookup_app_r by (rewrite length_replicate; lia).
      rewrite length_replicate, Nat.sub_diag. done. }
    destruct (lookup_lt_is_Some_2 (apps st) j) as [app Happ].
    { pose proof (lookup_lt_Some _ _ _ Hj). lia. }
    simpl. unfold step at 1, taskAt. rewrite Hnp, Hj, Happ.
    destruct (sem st <? maxConcurrent)%nat eqn:E;
      [|apply Nat.ltb_ge in E; lia].
    destruct (IH (setTask j AtCtxCheck (setSem (S (sem st)) st)) (S j))
      as (st' & Hrun & ? & ? & ? & Hs' & Ht'); unfold setTask; st_simpl;
      try done; try lia.
    { rewrite Ht, insert_app_r_alt by (rewrite length_replicate; lia).
      rewrite length_replicate, Nat.sub_diag. simpl.
      by rewrite replicate_middle. }
    { by rewrite length_insert. }
    exists st'. split; [exact Hrun|]. repeat split; try done.
    + rewrite Hs'. lia.
    + rewrite Ht'. by replace (S j + m)%nat with (j + S m)%nat by lia.
Qed.

End Ceiling.

(** ** What the report contains *)

Lemma submseteq_concat_map {A B} (h : A → list B) (l k : list A) :
  l ⊆+ k → concat (map h l) ⊆+ concat (map h k).
Proof.
  induction 1 as [|x l1 l2 _ IH|x y l|x l1 l2 _ IH|l1 l2 l3 _ IH1 _ IH2]; simpl.
  - done.
  - by apply submseteq_skips_l.
  - apply Permutation_submseteq. rewrite !app_assoc.
    apply Permutation_app_tail, Permutation_app_comm.
  - by apply submseteq_inserts_l.
  - by etrans.
Qed.

Section Content.

Variable filepath_Join : string → string → string.
Variable s : IQReportService.
Variable orgID : option string.
Variable filename : string.

Local Abbreviation step := (step filepath_Join s orgID filename).
Local Abbreviation run := (run filepath_Join s orgID filename).

Lemma sendOrder_bound es st i :
  run initial es = Some st → i ∈ sendOrder es → (i < length (apps st))%nat.
Proof.
  intros Hrun Hi.
  destruct (sendOrder_delivered _ _ _ _ _ _ _ Hrun Hi) as (pc & Hpc & _).
  pose proof (lookup_lt_Some _ _ _ Hpc).
  pose proof (inv_len _ _ _ _ (Inv_run _ _ _ _ _ _ Hrun)). lia.
Qed.

(** Whatever was sent came from a violations call, and from each call at
    most once. *)
Lemma sentRows_sub es st :
  run initial es = Some st →
  sentRows es ⊆+
  concat (map (λ i, map toReportRow (violationsOf i es)) (seq 0 (length (apps st)))).
Proof.
  intros Hrun. unfold sentRows.
  erewrite (map_ext (λ i, convertRows (violationsOf i es)))
    by (intros; apply convertRows_map).
  apply submseteq_concat_map, NoDup_submseteq.
  - by eapply sendOrder_NoDup.
  - intros i Hi. apply elem_of_seq.
    pose proof (sendOrder_bound _ _ _ Hrun Hi). lia.
Qed.

(** Without cancellation, what a finished goroutine did not send was
    nothing. *)
Lemma unsent_empty es st i :
  run initial es = Some st → ¬ In EvCancel es →
  (∀ j pc, tasks st !! j = Some pc → terminated pc = true) →
  i ∉ sendOrder es → violationsOf i es = [].
Proof.
  intros Hrun Hnc Hterm Hi.
  destruct (TaskInv_run _ _ _ _ _ _ i Hrun) as [_ _ _ _ Hrows Hord].
  destruct (tasks st !! i) as [pc|] eqn:Hpc; [|exact Hrows].
  pose proof (Hterm _ _ Hpc) as Ht.
  destruct pc as [| | | | | | |o]; try discriminate Ht.
  pose proof (proj2 (cancel_run _ _ _ _ _ _ Hrun Hnc) i o) as Hcan.
  unfold outcomeAt in Hcan. rewrite Hpc in Hcan. specialize (Hcan eq_refl).
  destruct o; simpl in *; try done. destruct Hi. by apply Hord.
Qed.

End Content.

(** ** The white space that [strings.TrimSpace] removes *)

Lemma append_assoc (a b c : string) : (a +:+ b) +:+ c = a +:+ (b +:+ c).
Proof. induction a as [|x a IH]; [done|]. by rewrite !append_cons, IH. Qed.

Lemma joinBytes_app (l k : list (Z * string)) :
  strings.joinBytes (l ++ k) = strings.joinBytes l +:+ strings.joinBytes k.
Proof.
  induction l as [|t l IH]; simpl; [done|]. by rewrite IH, append_assoc.
Qed.

(** Putting the bytes of the runes together gives the string back. *)
Lemma joinBytes_runesFrom (k : nat) (s : string) :
  strings.joinBytes (strings.runesFrom k s) = sliceFrom k s.
Proof.
  revert k. induction s as [|c s IH]; intros k; simpl.
  - by destruct k.
  - destruct k as [|k]; [|apply IH].
    destruct (utf8.DecodeRuneInString (String c s)) as [r w].
    simpl. rewrite IH, append_cons, slice_split. done.
Qed.

Lemma dropWhile_split {A} (p : A → bool) (l : list A) :
  ∃ ws, l = ws ++ strings.dropWhile p l ∧ forallb p ws = true.
Proof.
  induction l as [|x l (ws & Hl & Hws)]; simpl.
  - by exists [].
  - destruct (p x) eqn:E.
    + exists (x :: ws). simpl. rewrite E, Hws. split; [by f_equal | done].
    + by exists [].
Qed.

Lemma TrimSpace_split (s : string) :
  ∃ ws1 kept ws2,
    strings.runes s = ws1 ++ kept ++ ws2 ∧
    forallb strings.isSpaceRune ws1 = true ∧
    forallb strings.isSpaceRune ws2 = true ∧
    strings.TrimSpace s = strings.joinBytes kept ∧
    (∀ t, head kept = Some t → strings.isSpaceRune t = false) ∧
    (∀ t, last kept = Some t → strings.isSpaceRune t = false).
Proof.
  unfold strings.TrimSpace.
  destruct (dropWhile_split strings.isSpaceRune (strings.runes s))
    as (ws1 & H1 & Hws1).
  set (l1 := strings.dropWhile strings.isSpaceRune (strings.runes s)) in *.
  destruct (dropWhile_split strings.isSpaceRune (rev l1)) as (ws2 & H2 & Hws2).
  set (l2 := strings.dropWhile strings.isSpaceRune (rev l1)) in *.
  exists ws1, (rev l2), (rev ws2).
  assert (l1 = rev l2 ++ rev ws2) as Hl1.
  { rewrite <- rev_app_distr, <- H2. by rewrite rev_involutive. }
  split; [by rewrite <- Hl1|].
  split; [done|]. split; [by rewrite forallb_rev|]. split; [done|].
  split.
  - intros t Ht. destruct (rev l2) as [|t' k] eqn:E; [discriminate|].
    injection Ht as ->. simpl in Hl1.
    by apply (dropWhile_head _ _ _ _ Hl1).
  - intros t Ht. destruct l2 as [|t' k] eqn:E.
    + discriminate Ht.
    + simpl in Ht. rewrite last_snoc in Ht. injection Ht as ->.
      by apply (dropWhile_head _ _ _ _ E).
Qed.

(** ** The log of the calling goroutine *)

Section MainLog.

Variable filepath_Join : string → string → string.
Variable s : IQReportService.
Variable orgID : option string.
Variable filename : string.

Local Abbreviation step := (step filepath_Join s orgID filename).
Local Abbreviation run := (run filepath_Join s orgID filename).
Local Abbreviation Inv := (Inv filepath_Join s filename).

Lemma earlyLog_run es st : run initial es = Some st → earlyLog st.
Proof.
  revert es st.
  apply (run_invariant filepath_Join s orgID filename (λ _ st, earlyLog st)).
  - reflexivity.
  - intros es st e st' Hrun IH Hstep.
    pose proof (inv_main _ _ _ _ (Inv_run _ _ _ _ _ _ Hrun)) as Hmain.
    unfold mainOK in Hmain. unfold earlyLog in *.
    destruct e; step_inv Hstep; subst st'.
    all: unfold_handlers; goal_cases; st_simpl; rewrite_pcs; try done.
    all: try (by rewrite IH).
    all: destruct (main st) eqn:Hm; try done;
         destruct Hmain as (? & _); no_task.
Qed.

(** A log that no later step changes, because the call has returned. *)
Lemma returned_log es st e st' p x :
  run initial es = Some st → main st = Returned p x →
  step st e = Some st' → log st' = log st.
Proof.
  intros Hrun Hm Hstep.
  destruct (returned_frozen _ _ _ _ _ _ _ _ _ (Inv_run _ _ _ _ _ _ Hrun) Hm Hstep)
    as [-> ->].
  reflexivity.
Qed.

Lemma applications_failed_log es st got x :
  run initial es = Some st → In (EvGetApplications got (Some x)) es →
  log st = [mkLog Info None "GenerateLatestPolicyReport invoked";
            mkLog ErrorLevel None "failed to retrieve application list"].
Proof.
  intros Hrun. revert got x. revert es st Hrun.
  apply (run_invariant filepath_Join s orgID filename
    (λ es st, ∀ got x, In (EvGetApplications got (Some x)) es →
       log st = [mkLog Info None "GenerateLatestPolicyReport invoked";
                 mkLog ErrorLevel None "failed to retrieve application list"])).
  - intros got x [].
  - intros es st e st' Hrun IH Hstep got x Hin.
    apply in_app_or in Hin. destruct Hin as [Hin|[->|[]]].
    + destruct (applications_failed_run _ _ _ _ _ _ _ _ Hrun Hin) as (Hm & _).
      rewrite (returned_log _ _ _ _ _ _ Hrun Hm Hstep). by eapply IH.
    + pose proof (earlyLog_run _ _ Hrun) as Hl. unfold earlyLog in Hl.
      step_inv Hstep. subst st'. unfold onApplications. st_simpl. by rewrite Hl.
Qed.

Lemma empty_log es st :
  run initial es = Some st → In (EvGetApplications [] None) es →
  log st = [mkLog Info None "GenerateLatestPolicyReport invoked";
            mkLog Info None "Fetched applications";
            mkLog Warn None "Task finished: no applications found matching criteria"].
Proof.
  revert es st.
  apply (run_invariant filepath_Join s orgID filename
    (λ es st, In (EvGetApplications [] None) es →
       log st = [mkLog Info None "GenerateLatestPolicyReport invoked";
                 mkLog Info None "Fetched applications";
                 mkLog Warn None
                   "Task finished: no applications found matching criteria"])).
  - intros [].
  - intros es st e st' Hrun IH Hstep Hin.
    apply in_app_or in Hin. destruct Hin as [Hin|[->|[]]].
    + destruct (empty_run _ _ _ _ _ _ Hrun Hin) as (Hm & _).
      rewrite (returned_log _ _ _ _ _ _ Hrun Hm Hstep). by apply IH.
    + pose proof (earlyLog_run _ _ Hrun) as Hl. unfold earlyLog in Hl.
      step_inv Hstep. subst st'. unfold onApplications. st_simpl. by rewrite Hl.
Qed.

Lemma organizations_failed_log es st got x :
  run initial es = Some st → In (EvGetOrganizations got (Some x)) es →
  log st = [mkLog Info None "GenerateLatestPolicyReport invoked";
            mkLog Info None "Fetched applications";
            mkLog ErrorLevel None "failed to retrieve organization list"].
Proof.
  intros Hrun. revert got x. revert es st Hrun.
  apply (run_invariant filepath_Join s orgID filename
    (λ es st, ∀ got x, In (EvGetOrganizations got (Some x)) es →
       log st = [mkLog Info None "GenerateLatestPolicyReport invoked";
                 mkLog Info None "Fetched applications";
                 mkLog ErrorLevel None "failed to retrieve organization list"])).
  - intros got x [].
  - intros es st e st' Hrun IH Hstep got x Hin.
    apply in_app_or in Hin. destruct Hin as [Hin|[->|[]]].
    + destruct (organizations_failed_run _ _ _ _ _ _ _ _ Hrun Hin) as (Hm & _).
      rewrite (returned_log _ _ _ _ _ _ Hrun Hm Hstep). by eapply IH.
    + pose proof (earlyLog_run _ _ Hrun) as Hl. unfold earlyLog in Hl.
      step_inv Hstep. subst st'. unfold onOrganizations. st_simpl. by rewrite Hl.
Qed.

Lemma write_log es st r :
  run initial es = Some st → In (EvWriteCSV r) es →
  last (log st) = Some (writeLog r).
Proof.
  intros Hrun. revert r. revert es st Hrun.
  apply (run_invariant filepath_Join s orgID filename
    (λ es st, ∀ r, In (EvWriteCSV r) es → last (log st) = Some (writeLog r))).
  - intros r [].
  - intros es st e st' Hrun IH Hstep r Hin.
    apply in_app_or in Hin. destruct Hin as [Hin|[->|[]]].
    + pose proof (write_run _ _ _ _ _ _ _ Hrun Hin) as Hm.
      unfold returnOfWrite in Hm.
      destruct r; rewrite (returned_log _ _ _ _ _ _ Hrun Hm Hstep); by apply IH.
    + step_inv Hstep. subst st'. unfold onWriteCSV.
      destruct r; st_simpl; by rewrite last_snoc.
Qed.

End MainLog.

(** * Further properties of the service *)

Section Extras.

Variable filepath_Join : string → string → string.
Variable s : IQReportService.
Variable orgID : option string.
Variable filename : string.

Local Abbreviation step := (step filepath_Join s orgID filename).
Local Abbreviation run := (run filepath_Join s orgID filename).
Local Abbreviation target := (target filepath_Join s filename).

(** X1. The call never panics.  In every state of every run no send has
    hit a closed channel, the channel has not been closed twice and the
    wait-group counter has not gone below zero, and no step that is
    enabled leads to such a panic; the counter is the number of goroutines
    that have not finished; the channel is closed exactly when the closing
    goroutine is through, and [close] has run once then and not before. *)
Theorem X1_never_panics (es : list Event) (st : State) :
  run initial es = Some st →
  panicked st = false ∧
  (∀ e st', step st e = Some st' → panicked st' = false) ∧
  wg st = countIf live (tasks st) ∧
  (chanClosed st = true ↔ closer st = Closed) ∧
  closes es = (if chanClosed st then 1 else 0)%nat.
Proof.
  intros Hrun. pose proof (Inv_run _ _ _ _ _ _ Hrun) as HI.
  split; [apply (inv_panic _ _ _ _ HI)|].
  split.
  { intros e st' Hstep.
    apply (inv_panic _ _ _ _ (Inv_step _ _ _ _ _ _ _ HI Hstep)). }
  split; [apply (inv_wg _ _ _ _ HI)|].
  split.
  { split; [by apply (chanClosed_Closed _ _ _ _ HI)|].
    intros Hc. by destruct (closed_terminated _ _ _ _ HI Hc). }
  by apply (closes_run filepath_Join s orgID filename).
Qed.

(** X2. Nothing is left running when the call returns.  Whichever way it
    returns, every goroutine it launched has finished, the closing
    goroutine was either never started (no goroutine was launched) or is
    through, no semaphore slot is taken, the wait-group counter is zero
    and the result channel is empty; and from then on nothing of the call
    takes a step: only the context can still be cancelled. *)
Theorem X2_nothing_left_running (es : list Event) (st : State)
    (path : string) (err : option error) :
  run initial es = Some st → main st = Returned path err →
  (∀ i pc, tasks st !! i = Some pc → terminated pc = true) ∧
  (closer st = NotStarted ∧ tasks st = [] ∨
   closer st = Closed ∧ chanClosed st = true ∧
   length (tasks st) = length (apps st)) ∧
  sem st = 0%nat ∧ wg st = 0%nat ∧ resultsChan st = [] ∧
  (∀ e st', step st e = Some st' → e = EvCancel ∧ st' = setCtxDone st).
Proof.
  intros Hrun Hm. pose proof (Inv_run _ _ _ _ _ _ Hrun) as HI.
  destruct (returned_terminated _ _ _ _ _ _ HI Hm) as [Hbuf Hterm].
  split; [exact Hterm|].
  split.
  { pose proof (inv_main _ _ _ _ HI) as Hmain. unfold mainOK in Hmain.
    rewrite Hm in Hmain.
    destruct Hmain as [(? & ? & _)|(Hc & ? & _)]; [by left | right].
    split; [done|]. split; [|done].
    by destruct (closed_terminated _ _ _ _ HI Hc). }
  split.
  { rewrite (inv_sem _ _ _ _ HI). apply countIf_none.
    intros i pc Hpc. specialize (Hterm _ _ Hpc). by destruct pc. }
  split.
  { rewrite (inv_wg _ _ _ _ HI). apply countIf_none.
    intros i pc Hpc. specialize (Hterm _ _ Hpc). by destruct pc. }
  split; [exact Hbuf|].
  intros e st' Hstep. by eapply returned_frozen.
Qed.

(** X3. The CSV is written once, last, and with everything that was
    collected.  In every run in which [WriteCSV] has been called, the
    calls made on the collaborators are [GetApplications] with the
    organization filter of the caller, [GetOrganizations], then calls of
    the goroutines only, and last the one [WriteCSV], with the join of
    the output directory and the file name and with the rows that were
    sent on the result channel, in the order of the sends. *)
Theorem X3_csv_written_last (es : list Event) (st : State) (r : option error) :
  run initial es = Some st → In (EvWriteCSV r) es →
  ∃ per,
    calls st = CallGetApplications orgID :: CallGetOrganizations :: per ++
               [CallWriteCSV (filepath_Join (config.OutputDir (cfg s)) filename)
                             (sentRows es)] ∧
    forallb perAppCall per = true ∧
    allViolationRows st = sentRows es.
Proof.
  intros Hrun Hin.
  destruct (calls_write_run _ _ _ _ _ _ _ Hrun Hin) as (per & Hc & Hper).
  destruct (complete_run _ _ _ _ _ _ _ Hrun Hin) as (_ & _ & _ & _ & Ha).
  exists per. rewrite Hc, Ha. done.
Qed.

(** X4. The load on the server.  The metadata calls made are as many as
    the goroutines whose metadata call has returned, the violations calls
    as many as those whose violations call has returned; so there are no
    more violations calls than metadata calls, no more metadata calls
    than applications, and at most [3 + 2 * len(apps)] calls in all;
    every metadata call is for the ID of an application of the list; at
    any time at most ten goroutines are inside a remote call; and for
    each goroutine the metadata call returns at most once and the
    violations call at most once, and only after the metadata call. *)
Theorem X4_call_budget (es : list Event) (st : State) :
  run initial es = Some st →
  countIf isInfoCall (calls st) = countIf calledInfo (tasks st) ∧
  countIf isViolationsCall (calls st) = countIf calledViolations (tasks st) ∧
  (countIf isViolationsCall (calls st) ≤ countIf isInfoCall (calls st))%nat ∧
  (countIf isInfoCall (calls st) ≤ length (apps st))%nat ∧
  (length (calls st) ≤ 3 + 2 * length (apps st))%nat ∧
  (countIf inCall (tasks st) ≤ 10)%nat ∧
  (∀ appID, In (CallGetLatestReportInfo appID) (calls st) →
     ∃ app, In app (apps st) ∧ appID = client.Application.ID app) ∧
  (∀ i, countIf (isInfoOf i) es = infoReturns (tasks st !! i) ∧
        countIf (isViolationsOf i) es = violationsReturns (tasks st !! i) ∧
        (countIf (isViolationsOf i) es ≤ countIf (isInfoOf i) es ≤ 1)%nat).
Proof.
  intros Hrun. pose proof (Inv_run _ _ _ _ _ _ Hrun) as HI.
  destruct (CallCount_run _ _ _ _ _ _ Hrun) as [Hi Hv Ha].
  pose proof (calls_length _ _ _ _ _ (callsOK_run _ _ _ _ _ _ Hrun)) as Hlen.
  assert (countIf calledViolations (tasks st) ≤ countIf calledInfo (tasks st))%nat
    as Hvi.
  { apply countIf_mono. intros [| | | | |o|o|o]; try done; by destruct o. }
  assert (countIf calledInfo (tasks st) ≤ length (apps st))%nat as Hia.
  { pose proof (countIf_le_length calledInfo (tasks st)).
    pose proof (inv_len _ _ _ _ HI). lia. }
  assert (countIf inCall (tasks st) ≤ 10)%nat as Hcall.
  { pose proof (countIf_mono inCall holdsTicket (tasks st)) as Hin.
    rewrite <- (inv_sem _ _ _ _ HI) in Hin.
    pose proof (inv_bound _ _ _ _ HI) as Hb. unfold maxConcurrent in Hb.
    assert (countIf inCall (tasks st) ≤ sem st)%nat; [|lia].
    apply Hin. by intros []. }
  assert (∀ i, countIf (isInfoOf i) es = infoReturns (tasks st !! i) ∧
               countIf (isViolationsOf i) es = violationsReturns (tasks st !! i) ∧
               (countIf (isViolationsOf i) es ≤ countIf (isInfoOf i) es ≤ 1)%nat)
    as Hper.
  { intros i. destruct (FetchInv_run _ _ _ _ _ _ i Hrun) as [Hfi Hfv].
    split; [exact Hfi|]. split; [exact Hfv|]. rewrite Hfi, Hfv.
    destruct (tasks st !! i) as [[| | | | |o|o|o]|]; simpl; try lia;
      destruct o; simpl; lia. }
  repeat split; try done; try lia; apply Hper.
Qed.

(** X5. No fetch after cancellation.  A goroutine that waits for a slot,
    or has just taken one, when the context is cancelled makes no remote
    call and sends nothing in whatever follows, also when it still gets a
    slot: it stays before its first call or leaves at line 101 or 106,
    and the context stays cancelled. *)
Theorem X5_no_fetch_after_cancel (st st' : State) (es : list Event)
    (i : nat) (pc : TaskPC) :
  run st es = Some st' → ctxDone st = true →
  tasks st !! i = Some pc → noFetch pc = true →
  (∀ e, In e es → isFetchOf i e = false) ∧
  (∃ pc', tasks st' !! i = Some pc' ∧ noFetch pc' = true) ∧
  (∀ o, outcomeAt st' i = Some o →
     o = CancelledWaiting ∨ o = CancelledBeforeFetch) ∧
  (∀ o, outcomeAt st' i = Some o → outcomeRows o = []).
Proof.
  intros Hrun Hd Hpc Hn.
  destruct (noFetch_run _ _ _ _ _ _ _ _ _ Hrun Hd Hpc Hn)
    as (Hes & pc' & Hpc' & Hn').
  split; [exact Hes|]. split; [eauto|].
  assert (∀ o, outcomeAt st' i = Some o →
               o = CancelledWaiting ∨ o = CancelledBeforeFetch) as Ho.
  { intros o. unfold outcomeAt. rewrite Hpc'.
    destruct pc' as [| | | | |o'|o'|o']; simpl; intros [= <-];
      destruct o'; simpl in Hn'; try discriminate Hn'; auto. }
  split; [exact Ho|].
  intros o Hout. by destruct (Ho _ Hout) as [->| ->].
Qed.

(** X6. Cancellation is not an error.  When the context is cancelled
    before any goroutine has passed the check of line 105, no goroutine
    makes a remote call, nothing is sent or collected, and a goroutine
    that has ended has ended as cancelled.  When both fetches of the
    set-up have succeeded and the call has returned, it has called
    [WriteCSV], with no rows, as the third and last call, and what it
    returns is decided by [WriteCSV] alone: the path and no error when
    the write succeeded.  And the call does get there: from every such
    state it can be run on to its return. *)
Theorem X6_cancelled_before_first_fetch (es1 es2 : list Event) (st : State) :
  run initial (es1 ++ EvCancel :: es2) = Some st →
  (∀ i, ¬ In (EvCtxCheck i) es1) →
  allViolationRows st = [] ∧ resultsChan st = [] ∧
  forallb (λ c, negb (perAppCall c)) (calls st) = true ∧
  (∀ i o, outcomeAt st i = Some o →
     o = CancelledWaiting ∨ o = CancelledBeforeFetch) ∧
  (∀ orgs path err,
     In (EvGetOrganizations orgs None) (es1 ++ EvCancel :: es2) →
     main st = Returned path err →
     ∃ r, In (EvWriteCSV r) (es1 ++ EvCancel :: es2) ∧
          calls st =
            [CallGetApplications orgID; CallGetOrganizations;
             CallWriteCSV (filepath_Join (config.OutputDir (cfg s)) filename) []] ∧
          Returned path err =
            returnOfWrite (filepath_Join (config.OutputDir (cfg s)) filename) r) ∧
  (∃ es' st' path err, run st es' = Some st' ∧ main st' = Returned path err).
Proof.
  intros Hrun Hes.
  destruct (quiet_cancelled _ _ _ _ _ _ _ Hrun Hes) as (Hq & Hc & Hb & Ha).
  split; [exact Ha|]. split; [exact Hb|]. split; [exact Hc|].
  split.
  { intros i o. unfold outcomeAt.
    destruct (tasks st !! i) as [pc|] eqn:Hpc; [|discriminate].
    specialize (Hq _ _ Hpc).
    destruct pc as [| | | | |o'|o'|o']; simpl; intros [= <-];
      destruct o'; simpl in Hq; try discriminate Hq; auto. }
  split.
  { intros orgs path err Hin Hm.
    destruct (setup_run _ _ _ _ _ _ _ Hrun Hin) as [_ Hpast].
    unfold pastSetup in Hpast. rewrite Hm in Hpast. destruct Hpast as [r Hr].
    exists r. split; [exact Hr|].
    destruct (calls_write_run _ _ _ _ _ _ _ Hrun Hr) as (per & Hcalls & Hper).
    split; [|rewrite <- Hm; exact (write_run _ _ _ _ _ _ _ Hrun Hr)].
    rewrite Hcalls, Ha in *. destruct per as [|c per]; [done|].
    simpl in Hc, Hper. destruct (perAppCall c); done. }
  apply can_return. by eapply Inv_run.
Qed.


(** X8. A failed set-up.  When [GetApplications] or [GetOrganizations]
    returns an error, the call returns the empty path and an error that
    wraps the cause, with the message "get applications: " or "get
    organizations: " followed by the message of the cause; no goroutine
    has been launched, the closing goroutine has not been started, and
    the failed call is the last call made: no CSV is written. *)
Theorem X8_setup_failure (es : list Event) (st : State) (x : error) :
  run initial es = Some st →
  (∀ got, In (EvGetApplications got (Some x)) es →
     ∃ err, main st = Returned EmptyString (Some err) ∧
            Error err = "get applications: " +:+ Error x ∧
            Unwrap err = Some x ∧
            tasks st = [] ∧ closer st = NotStarted ∧
            calls st = [CallGetApplications orgID]) ∧
  (∀ got, In (EvGetOrganizations got (Some x)) es →
     ∃ err, main st = Returned EmptyString (Some err) ∧
            Error err = "get organizations: " +:+ Error x ∧
            Unwrap err = Some x ∧
            tasks st = [] ∧ closer st = NotStarted ∧
            calls st = [CallGetApplications orgID; CallGetOrganizations]).
Proof.
  intros Hrun. split; intros got Hin.
  - destruct (applications_failed_run _ _ _ _ _ _ _ _ Hrun Hin)
      as (Hm & Ht & Hc & Hcalls).
    eexists. split; [exact Hm|]. done.
  - destruct (organizations_failed_run _ _ _ _ _ _ _ _ Hrun Hin)
      as (Hm & Ht & Hc & Hcalls).
    eexists. split; [exact Hm|]. done.
Qed.

(** X10. A report location that parses.  When the metadata call of a
    goroutine returns a report location that is not blank and in which
    something follows the first "/report/", the goroutine goes on to the
    violations call with exactly that text as report identifier, neither
    trimmed nor cut at a later "/", and with the organization name
    resolved from the table; the log gets one debug entry, and a warning
    when the ID stands in for the name; the other goroutines, the calling
    goroutine and the result channel are as before; and the violations
    call is then made with the public ID of the application, that report
    identifier and that name. *)
Theorem X10_report_id_parsed (st : State) (i : nat)
    (app : client.Application.t) (ri : client.ReportInfo.t) (k : nat) :
  panicked st = false →
  tasks st !! i = Some AtGetLatestReportInfo → apps st !! i = Some app →
  whitespaceOnly (client.ReportInfo.ReportHTMLURL ri) = false →
  firstOccurrence reportMarker (client.ReportInfo.ReportHTMLURL ri) k →
  sliceFrom (k + String.length reportMarker)
    (client.ReportInfo.ReportHTMLURL ri) ≠ EmptyString →
  ∃ st',
    step st (EvGetLatestReportInfo i (Some ri) None) = Some st' ∧
    tasks st' !! i =
      Some (AtGetPolicyViolations
              (sliceFrom (k + String.length reportMarker)
                 (client.ReportInfo.ReportHTMLURL ri))
              (resolveOrgName (orgIDToName st) app).1) ∧
    (∀ j, j ≠ i → tasks st' !! j = tasks st !! j) ∧
    main st' = main st ∧ resultsChan st' = resultsChan st ∧
    calls st' = calls st ++ [CallGetLatestReportInfo (client.Application.ID app)] ∧
    log st' = log st ++
      mkLog Debug (Some app) "Parsed report ID" ::
      (if (resolveOrgName (orgIDToName st) app).2 then []
       else [mkLog Warn (Some app)
               "organization name not found, using ID as fallback"]) ∧
    ∀ clientRows err, ∃ st'',
      step st' (EvGetPolicyViolations i clientRows err) = Some st'' ∧
      calls st'' = calls st' ++
        [CallGetPolicyViolations (client.Application.PublicID app)
           (sliceFrom (k + String.length reportMarker)
              (client.ReportInfo.ReportHTMLURL ri))
           (resolveOrgName (orgIDToName st) app).1].
Proof.
  intros Hnp Hpc Happ Hws Hk Hne.
  assert (∀ pc, <[i := pc]> (tasks st) !! i = Some pc) as Hlook.
  { intros pc. apply list_lookup_insert_eq. by eapply lookup_lt_Some. }
  eexists. split.
  { unfold step, taskAt. rewrite Hnp, Hpc, Happ. reflexivity. }
  unfold onReportInfo. rewrite TrimSpace_eqb, Hws, (Cut_first _ _ _ Hk).
  apply String.eqb_neq in Hne. rewrite Hne. cbn [negb orb].
  destruct (resolveOrgName (orgIDToName st) app) as [orgName ok] eqn:Hres.
  st_simpl. rewrite Hres.
  assert (∀ st0 : State, tasks st0 = tasks st → apps st0 = apps st →
            panicked st0 = false →
            ∀ clientRows err, ∃ st'',
              step (setTask i (AtGetPolicyViolations
                     (sliceFrom (k + String.length reportMarker)
                        (client.ReportInfo.ReportHTMLURL ri)) orgName) st0)
                   (EvGetPolicyViolations i clientRows err) = Some st'' ∧
              calls st'' = calls st0 ++
                [CallGetPolicyViolations (client.Application.PublicID app)
                   (sliceFrom (k + String.length reportMarker)
                      (client.ReportInfo.ReportHTMLURL ri)) orgName]) as Hnext.
  { intros st0 Ht Ha Hp clientRows err. eexists. split.
    - unfold step, taskAt, setTask. st_simpl. rewrite Hp, Ht, Hlook, Ha, Happ.
      reflexivity.
    - unfold onPolicyViolations. destruct err; st_simpl; reflexivity. }
  destruct ok; st_simpl; cbn [fst snd]; rewrite Hlook.
  all: split; [reflexivity|].
  all: split; [intros j Hj; by rewrite list_lookup_insert_ne|].
  all: split; [reflexivity|]; split; [reflexivity|]; split; [reflexivity|].
  all: split; [by rewrite <- ?app_assoc|].
  all: intros clientRows err.
  - destruct (Hnext (logMsg Debug (Some app) "Parsed report ID"
                (recordCall (CallGetLatestReportInfo (client.Application.ID app)) st))
                eq_refl eq_refl Hnp clientRows err) as (st'' & H1 & H2).
    exists st''. split; [exact H1 | exact H2].
  - destruct (Hnext (logMsg Warn (Some app)
                       "organization name not found, using ID as fallback"
                (logMsg Debug (Some app) "Parsed report ID"
                (recordCall (CallGetLatestReportInfo (client.Application.ID app)) st)))
                eq_refl eq_refl Hnp clientRows err) as (st'' & H1 & H2).
    exists st''. split; [exact H1 | exact H2].
Qed.

(** X11. The ceiling is reached.  For every list of applications that is
    not empty there is a run in which as many goroutines hold a slot at
    the same time as there are applications, up to ten; when there are
    more than ten, every further goroutine is then waiting at line 98 and
    cannot get a slot. *)
Theorem X11_ceiling_attained (got : list client.Application.t) :
  got ≠ [] →
  ∃ es st,
    run initial es = Some st ∧ apps st = got ∧
    length (tasks st) = length got ∧
    ticketsHeld st = Nat.min (length got) maxConcurrent ∧
    ∀ i, (maxConcurrent ≤ i < length got)%nat →
         tasks st !! i = Some AtAcquire ∧ step st (EvAcquire i) = None.
Proof.
  intros Hne.
  set (n := length got). set (k := Nat.min n maxConcurrent).
  assert (0 < n)%nat as Hn by (subst n; destruct got; [done | simpl; lia]).
  assert ((length got =? 0)%nat = false) as Hlen0 by (apply Nat.eqb_neq; lia).
  set (st1 := onApplications orgID got None initial).
  set (st2 := onOrganizations [] None st1).
  assert (step initial (EvGetApplications got None) = Some st1) as H1
    by reflexivity.
  assert (main st1 = AtGetOrganizations ∧ panicked st1 = false ∧
          apps st1 = got ∧ tasks st1 = [] ∧ sem st1 = 0%nat)
    as (Hm1 & Hp1 & Ha1 & Ht1 & Hs1).
  { subst st1. unfold onApplications. st_simpl. rewrite Hlen0. done. }
  assert (step st1 (EvGetOrganizations [] None) = Some st2) as H2.
  { unfold step. by rewrite Hp1, Hm1. }
  assert (panicked st2 = false ∧ main st2 = AtLaunch ∧ apps st2 = got ∧
          tasks st2 = [] ∧ sem st2 = 0%nat) as (Hp2 & Hm2 & Ha2 & Ht2 & Hs2).
  { subst st2. unfold onOrganizations. st_simpl. done. }
  clearbody st1 st2.
  destruct (launch_run filepath_Join s orgID filename n st2 Hp2 Hm2)
    as (st3 & H3 & Hp3 & Hm3 & Ha3 & Hs3 & Ht3).
  { rewrite Ht2, Ha2. simpl. lia. }
  rewrite Ht2 in Ht3. simpl in Ht3.
  destruct (acquire_run filepath_Join s orgID filename k st3 0 (n - k) Hp3)
    as (st4 & H4 & Hp4 & Ha4 & Hm4 & Hs4 & Ht4).
  { rewrite Ht3. simpl. f_equal. subst k. lia. }
  { rewrite Ht3, length_replicate, Ha3, Ha2. done. }
  { congruence. }
  { subst k. lia. }
  simpl in Hs4, Ht4.
  exists (EvGetApplications got None :: EvGetOrganizations [] None ::
          replicate n EvGo ++ map EvAcquire (seq 0 k)), st4.
  split.
  { rewrite run_cons, H1, run_cons, H2, run_app, H3. exact H4. }
  split; [congruence|].
  split.
  { rewrite Ht4, length_app, !length_replicate. subst k. lia. }
  split.
  { unfold ticketsHeld. rewrite Ht4, countIf_app, !countIf_replicate. simpl. lia. }
  intros i [Hlo Hhi].
  assert (k = maxConcurrent) as Hk by (subst k; lia).
  assert (tasks st4 !! i = Some AtAcquire) as Hi.
  { rewrite Ht4, lookup_app_r by (rewrite length_replicate; lia).
    rewrite length_replicate. apply lookup_replicate_2. lia. }
  split; [exact Hi|].
  destruct (lookup_lt_is_Some_2 (apps st4) i) as [app Happ].
  { rewrite Ha4, Ha3, Ha2. exact Hhi. }
  unfold step, taskAt. rewrite Hp4, Hi, Happ, Hs4, Hk.
  by rewrite Nat.ltb_irrefl.
Qed.

(** X13. What the report contains.  Once [WriteCSV] has been called, the
    rows collected are, taken as a multiset, part of the converted rows
    that the successful violations calls of the run returned: also under
    cancellation no row is made up and none is there twice, a goroutine
    contributes all of its rows or none.  When the context was not
    cancelled, they are all of them, in some order: the content of the
    report does not depend on how the goroutines were scheduled. *)
Theorem X13_report_content (es : list Event) (st : State) (r : option error) :
  run initial es = Some st → In (EvWriteCSV r) es →
  allViolationRows st ⊆+
    concat (map (λ i, map toReportRow (violationsOf i es))
                (seq 0 (length (apps st)))) ∧
  (¬ In EvCancel es →
   allViolationRows st ≡ₚ
     concat (map (λ i, map toReportRow (violationsOf i es))
                 (seq 0 (length (apps st))))).
Proof.
  intros Hrun Hin.
  destruct (complete_run _ _ _ _ _ _ _ Hrun Hin) as (_ & _ & Hterm & _ & Ha).
  rewrite Ha. split; [by eapply sentRows_sub|].
  intros Hnc. unfold sentRows.
  erewrite (map_ext (λ i, convertRows (violationsOf i es)))
    by (intros; apply convertRows_map).
  apply concat_map_support.
  - by eapply sendOrder_NoDup.
  - intros i Hi. by eapply sendOrder_bound.
  - intros i _ Hi.
    by rewrite (unsent_empty _ _ _ _ _ _ i Hrun Hnc Hterm Hi).
Qed.

(** X15. The log of the calling goroutine.  A call that returns before
    the fan-out leaves exactly these entries: the invocation and an error
    entry when the application list could not be fetched; the invocation,
    the count and a warning, not an error, when the list is empty; the
    invocation, the count and an error entry when the organization list
    could not be fetched.  Once [WriteCSV] has returned, the last entry
    is "Report written successfully" when the write succeeded; when it
    failed, the service itself logs nothing more, the last entry is the
    announcement of the write and the error is only returned. *)
Theorem X15_calling_goroutine_log (es : list Event) (st : State) :
  run initial es = Some st →
  (∀ got x, In (EvGetApplications got (Some x)) es →
     log st = [mkLog Info None "GenerateLatestPolicyReport invoked";
               mkLog ErrorLevel None "failed to retrieve application list"]) ∧
  (In (EvGetApplications [] None) es →
     log st = [mkLog Info None "GenerateLatestPolicyReport invoked";
               mkLog Info None "Fetched applications";
               mkLog Warn None
                 "Task finished: no applications found matching criteria"]) ∧
  (∀ got x, In (EvGetOrganizations got (Some x)) es →
     log st = [mkLog Info None "GenerateLatestPolicyReport invoked";
               mkLog Info None "Fetched applications";
               mkLog ErrorLevel None "failed to retrieve organization list"]) ∧
  (In (EvWriteCSV None) es →
     last (log st) = Some (mkLog Info None "Report written successfully")) ∧
  (∀ x, In (EvWriteCSV (Some x)) es →
     last (log st) = Some (mkLog Info None "Writing CSV report")).
Proof.
  intros Hrun.
  split; [intros got x Hin; by eapply applications_failed_log|].
  split; [intros Hin; by eapply empty_log|].
  split; [intros got x Hin; by eapply organizations_failed_log|].
  split.
  - intros Hin. exact (write_log _ _ _ _ _ _ _ Hrun Hin).
  - intros x Hin. exact (write_log _ _ _ _ _ _ _ Hrun Hin).
Qed.

End Extras.

(** X9. The organization table.  The table built from the fetched list
    gives, for an ID, the name of the last organization of the list with
    that ID, an empty name included; it has an entry exactly for the IDs
    of the list, and no more entries than the list has elements.  So the
    name handed to the violations call is that of the last organization
    with the application's organization ID, also when it is empty, and
    the organization ID itself only when no organization has it. *)
Theorem X9_organization_table :
  (∀ orgs1 o orgs2,
     (∀ o', In o' orgs2 → client.Organization.ID o' ≠ client.Organization.ID o) →
     buildOrgIDToName (orgs1 ++ o :: orgs2) !! client.Organization.ID o =
       Some (client.Organization.Name o)) ∧
  (∀ orgs id,
     buildOrgIDToName orgs !! id = None ↔
     ∀ o, In o orgs → client.Organization.ID o ≠ id) ∧
  (∀ orgs id name,
     buildOrgIDToName orgs !! id = Some name →
     ∃ o, In o orgs ∧ client.Organization.ID o = id ∧
          client.Organization.Name o = name) ∧
  (∀ orgs, (size (buildOrgIDToName orgs) ≤ length orgs)%nat) ∧
  (∀ orgs1 o orgs2 app,
     client.Application.OrganizationID app = client.Organization.ID o →
     (∀ o', In o' orgs2 → client.Organization.ID o' ≠ client.Organization.ID o) →
     resolveOrgName (buildOrgIDToName (orgs1 ++ o :: orgs2)) app =
       (client.Organization.Name o, true)) ∧
  (∀ orgs app,
     (∀ o, In o orgs →
        client.Organization.ID o ≠ client.Application.OrganizationID app) →
     resolveOrgName (buildOrgIDToName orgs) app =
       (client.Application.OrganizationID app, false)).
Proof.
  assert (∀ orgs1 o orgs2,
     (∀ o', In o' orgs2 → client.Organization.ID o' ≠ client.Organization.ID o) →
     buildOrgIDToName (orgs1 ++ o :: orgs2) !! client.Organization.ID o =
       Some (client.Organization.Name o)) as Hlast.
  { intros orgs1 o orgs2 Hno.
    rewrite buildOrgIDToName_app, buildOrgIDToName_cons.
    rewrite (proj2 (buildOrgIDToName_None orgs2 _) Hno).
    by rewrite decide_True. }
  split; [exact Hlast|].
  split; [exact buildOrgIDToName_None|].
  split; [exact buildOrgIDToName_Some|].
  split; [exact buildOrgIDToName_size|].
  split.
  - intros orgs1 o orgs2 app Heq Hno. unfold resolveOrgName.
    by rewrite Heq, (Hlast _ _ _ Hno).
  - intros orgs app Hno. unfold resolveOrgName.
    by rewrite (proj2 (buildOrgIDToName_None orgs _) Hno).
Qed.

(** X12. [strings.Cut] at the first separator.  When the separator is
    found, the string is the text before, the separator and the text
    after, and the separator does not occur at an earlier offset; when it
    is not found anywhere, the text before is the whole string and the
    text after is empty.  So the report identifier of line 125 is
    everything after the first "/report/". *)
Theorem X12_Cut_first_separator (s sep : string) :
  (∀ before after, strings.Cut s sep = (before, after, true) →
     s = before +:+ sep +:+ after ∧
     ∃ k, firstOccurrence sep s k ∧ before = sliceTo k s ∧
          after = sliceFrom (k + String.length sep) s) ∧
  (∀ before after, strings.Cut s sep = (before, after, false) →
     before = s ∧ after = EmptyString ∧ ∀ k, occursAt k sep s = false) ∧
  (∀ k, firstOccurrence sep s k →
     strings.Cut s sep =
       (sliceTo k s, sliceFrom (k + String.length sep) s, true)) ∧
  ((∀ k, occursAt k sep s = false) →
     strings.Cut s sep = (s, EmptyString, false)).
Proof.
  split.
  { intros before after H.
    destruct (Cut_found _ _ _ _ H) as (k & Hk & Hb & Ha & Hs). eauto. }
  split.
  { intros before after H. pose proof (Cut_not_found _ _ _ _ H) as Hno.
    unfold strings.Cut in H.
    destruct (0 <=? strings.Index s sep); [discriminate H|].
    injection H as <- <-. done. }
  split; [apply Cut_first|].
  intros Hno. destruct (strings.Cut s sep) as [[before after] found] eqn:E.
  destruct found.
  - destruct (Cut_found _ _ _ _ E) as (k & [Hk _] & _). by rewrite Hno in Hk.
  - unfold strings.Cut in E.
    destruct (0 <=? strings.Index s sep); [discriminate E|].
    by injection E as <- <-.
Qed.

(** X14. The blank test of line 119.  [strings.TrimSpace] leaves the
    empty string exactly when every rune of the string is white space as
    defined by Unicode, the empty string included.  In general the runes
    of the string are white space, then the runes kept, then white space
    again; the result is the bytes of the runes kept, the string is the
    result with the bytes of the white space around it, and the first
    and the last rune kept are not white space. *)
Theorem X14_TrimSpace_blank (s : string) :
  (strings.TrimSpace s = EmptyString ↔ whitespaceOnly s = true) ∧
  ∃ ws1 kept ws2,
    strings.runes s = ws1 ++ kept ++ ws2 ∧
    forallb strings.isSpaceRune ws1 = true ∧
    forallb strings.isSpaceRune ws2 = true ∧
    strings.TrimSpace s = strings.joinBytes kept ∧
    s = strings.joinBytes ws1 +:+ strings.TrimSpace s +:+ strings.joinBytes ws2 ∧
    (∀ t, head kept = Some t → strings.isSpaceRune t = false) ∧
    (∀ t, last kept = Some t → strings.isSpaceRune t = false).
Proof.
  split; [apply TrimSpace_empty|].
  destruct (TrimSpace_split s) as (ws1 & kept & ws2 & Hr & H1 & H2 & Ht & Hh & Hl).
  exists ws1, kept, ws2. repeat split; try done.
  rewrite Ht, <- !joinBytes_app, <- Hr.
  unfold strings.runes. by rewrite joinBytes_runesFrom.
Qed.

(** * The further properties on the sample runs *)

Lemma X1_never_panics_witness :
  run Sample.Join Sample.svc None "report.csv" initial Sample.runOneFails =
    Some Sample.finalOneFails ∧
  panicked Sample.finalOneFails = false ∧
  closes Sample.runOneFails = 1%nat.
Proof.
  assert (run Sample.Join Sample.svc None "report.csv" initial Sample.runOneFails =
          Some Sample.finalOneFails) as Hrun by (vm_compute; reflexivity).
  split; [exact Hrun|].
  destruct (X1_never_panics Sample.Join Sample.svc None "report.csv" _ _ Hrun)
    as (Hp & _ & _ & _ & Hc).
  split; [exact Hp | exact Hc].
Defined.

Lemma X2_nothing_left_running_witness :
  run Sample.Join Sample.svc None "report.csv" initial Sample.runOneFails =
    Some Sample.finalOneFails ∧
  main Sample.finalOneFails = Returned "reports_output/report.csv" None ∧
  sem Sample.finalOneFails = 0%nat ∧ wg Sample.finalOneFails = 0%nat ∧
  step Sample.Join Sample.svc None "report.csv" Sample.finalOneFails EvClose = None.
Proof.
  assert (run Sample.Join Sample.svc None "report.csv" initial Sample.runOneFails =
          Some Sample.finalOneFails) as Hrun by (vm_compute; reflexivity).
  assert (main Sample.finalOneFails = Returned "reports_output/report.csv" None)
    as Hm by reflexivity.
  split; [exact Hrun|]. split; [exact Hm|].
  destruct (X2_nothing_left_running Sample.Join Sample.svc None "report.csv"
              _ _ _ _ Hrun Hm) as (_ & _ & Hs & Hw & _ & Hfrozen).
  split; [exact Hs|]. split; [exact Hw|].
  destruct (step Sample.Join Sample.svc None "report.csv" Sample.finalOneFails
              EvClose) as [st'|] eqn:E; [|reflexivity].
  destruct (Hfrozen _ _ E) as [Hc _]. discriminate Hc.
Defined.

Lemma X3_csv_written_last_witness :
  run Sample.Join Sample.svc None "report.csv" initial Sample.runOneFails =
    Some Sample.finalOneFails ∧
  In (EvWriteCSV None) Sample.runOneFails ∧
  ∃ per,
    calls Sample.finalOneFails =
      CallGetApplications None :: CallGetOrganizations :: per ++
      [CallWriteCSV "reports_output/report.csv" (sentRows Sample.runOneFails)] ∧
    forallb perAppCall per = true.
Proof.
  assert (run Sample.Join Sample.svc None "report.csv" initial Sample.runOneFails =
          Some Sample.finalOneFails) as Hrun by (vm_compute; reflexivity).
  assert (In (EvWriteCSV None) Sample.runOneFails) as Hin
    by (vm_compute; tauto).
  split; [exact Hrun|]. split; [exact Hin|].
  destruct (X3_csv_written_last Sample.Join Sample.svc None "report.csv"
              _ _ _ Hrun Hin) as (per & Hc & Hper & _).
  exists per. split; [exact Hc | exact Hper].
Defined.

Lemma X4_call_budget_witness :
  run Sample.Join Sample.svc None "report.csv" initial Sample.runOneFails =
    Some Sample.finalOneFails ∧
  (length (calls Sample.finalOneFails) ≤ 3 + 2 * length (apps Sample.finalOneFails))%nat ∧
  (countIf isViolationsCall (calls Sample.finalOneFails) ≤
   countIf isInfoCall (calls Sample.finalOneFails))%nat.
Proof.
  assert (run Sample.Join Sample.svc None "report.csv" initial Sample.runOneFails =
          Some Sample.finalOneFails) as Hrun by (vm_compute; reflexivity).
  split; [exact Hrun|].
  destruct (X4_call_budget Sample.Join Sample.svc None "report.csv" _ _ Hrun)
    as (_ & _ & Hv & _ & Hl & _).
  split; [exact Hl | exact Hv].
Defined.

Lemma X5_no_fetch_after_cancel_witness :
  run Sample.Join Sample.svc None "report.csv" Scenario.cancelled
      Scenario.afterCancel = Some Scenario.finalCancelledEarly ∧
  ctxDone Scenario.cancelled = true ∧
  tasks Scenario.cancelled !! 0%nat = Some AtCtxCheck ∧
  (∀ o, outcomeAt Scenario.finalCancelledEarly 0 = Some o →
        o = CancelledWaiting ∨ o = CancelledBeforeFetch).
Proof.
  assert (run Sample.Join Sample.svc None "report.csv" Scenario.cancelled
            Scenario.afterCancel = Some Scenario.finalCancelledEarly) as Hrun
    by (vm_compute; reflexivity).
  assert (ctxDone Scenario.cancelled = true) as Hd by reflexivity.
  assert (tasks Scenario.cancelled !! 0%nat = Some AtCtxCheck) as Hpc
    by reflexivity.
  split; [exact Hrun|]. split; [exact Hd|]. split; [exact Hpc|].
  exact (proj1 (proj2 (proj2
    (X5_no_fetch_after_cancel Sample.Join Sample.svc None "report.csv"
       _ _ _ _ _ Hrun Hd Hpc eq_refl)))).
Defined.

Lemma X6_cancelled_before_first_fetch_witness :
  run Sample.Join Sample.svc None "report.csv" initial
      (Scenario.beforeCancel ++ EvCancel :: Scenario.afterCancel) =
    Some Scenario.finalCancelledEarly ∧
  (∀ i, ¬ In (EvCtxCheck i) Scenario.beforeCancel) ∧
  main Scenario.finalCancelledEarly = Returned "reports_output/report.csv" None ∧
  allViolationRows Scenario.finalCancelledEarly = [] ∧
  ∃ r,
    In (EvWriteCSV r) (Scenario.beforeCancel ++ EvCancel :: Scenario.afterCancel) ∧
    calls Scenario.finalCancelledEarly =
      [CallGetApplications None; CallGetOrganizations;
       CallWriteCSV "reports_output/report.csv" []].
Proof.
  assert (run Sample.Join Sample.svc None "report.csv" initial
            (Scenario.beforeCancel ++ EvCancel :: Scenario.afterCancel) =
          Some Scenario.finalCancelledEarly) as Hrun by (vm_compute; reflexivity).
  assert (∀ i, ¬ In (EvCtxCheck i) Scenario.beforeCancel) as Hes.
  { intros i Hin. simpl in Hin.
    repeat (destruct Hin as [Hin|Hin]; [discriminate Hin|]). exact Hin. }
  assert (In (EvGetOrganizations Sample.orgs None)
            (Scenario.beforeCancel ++ EvCancel :: Scenario.afterCancel)) as Hin
    by (right; left; reflexivity).
  assert (main Scenario.finalCancelledEarly =
          Returned "reports_output/report.csv" None) as Hm by reflexivity.
  split; [exact Hrun|]. split; [exact Hes|]. split; [exact Hm|].
  destruct (X6_cancelled_before_first_fetch Sample.Join Sample.svc None
              "report.csv" _ _ _ Hrun Hes) as (Ha & _ & _ & _ & Hret & _).
  split; [exact Ha|].
  destruct (Hret _ _ _ Hin Hm) as (r & Hr & Hc & _).
  exists r. split; [exact Hr | exact Hc].
Defined.


Lemma X8_setup_failure_witness :
  run Sample.Join Sample.svc None "report.csv" initial
      Scenario.runOrganizationsFail = Some Scenario.finalOrganizationsFail ∧
  ∃ err,
    main Scenario.finalOrganizationsFail = Returned EmptyString (Some err) ∧
    Error err = "get organizations: connection refused" ∧
    Unwrap err = Some Sample.boom ∧
    calls Scenario.finalOrganizationsFail =
      [CallGetApplications None; CallGetOrganizations].
Proof.
  assert (run Sample.Join Sample.svc None "report.csv" initial
            Scenario.runOrganizationsFail = Some Scenario.finalOrganizationsFail)
    as Hrun by (vm_compute; reflexivity).
  split; [exact Hrun|].
  destruct (proj2 (X8_setup_failure Sample.Join Sample.svc None "report.csv"
                     _ _ Sample.boom Hrun) [])
    as (err & Hm & He & Hu & _ & _ & Hc).
  { right. left. reflexivity. }
  exists err. split; [exact Hm|]. split; [exact He|]. split; [exact Hu | exact Hc].
Defined.

Lemma X10_report_id_parsed_witness :
  ∃ st',
    step Sample.Join Sample.svc None "report.csv" Sample.atInfo
         (EvGetLatestReportInfo 1 (Some Sample.info1) None) = Some st' ∧
    tasks st' !! 1%nat = Some (AtGetPolicyViolations "r-100" "org-9").
Proof.
  assert (firstOccurrence reportMarker
            (client.ReportInfo.ReportHTMLURL Sample.info1) 47) as Hk.
  { split; [vm_compute; reflexivity|].
    intros j Hj.
    do 47 (destruct j as [|j]; [vm_compute; reflexivity|]). lia. }
  destruct (X10_report_id_parsed Sample.Join Sample.svc None "report.csv"
              Sample.atInfo 1 Sample.A2 Sample.info1 47
              eq_refl eq_refl eq_refl eq_refl Hk)
    as (st' & Hstep & Hpc & _).
  { vm_compute. discriminate. }
  exists st'. split; [exact Hstep | exact Hpc].
Defined.

Lemma X11_ceiling_attained_witness :
  Scenario.eleven ≠ [] ∧
  ∃ es st,
    run Sample.Join Sample.svc None "report.csv" initial es = Some st ∧
    ticketsHeld st = 10%nat ∧
    tasks st !! 10%nat = Some AtAcquire ∧
    step Sample.Join Sample.svc None "report.csv" st (EvAcquire 10) = None.
Proof.
  assert (Scenario.eleven ≠ []) as Hne by discriminate.
  split; [exact Hne|].
  destruct (X11_ceiling_attained Sample.Join Sample.svc None "report.csv"
              Scenario.eleven Hne) as (es & st & Hrun & _ & _ & Hheld & Hwait).
  exists es, st. split; [exact Hrun|]. split; [exact Hheld|].
  apply Hwait. unfold maxConcurrent. simpl. lia.
Defined.

Lemma X13_report_content_witness :
  run Sample.Join Sample.svc None "report.csv" initial Sample.runOneFails =
    Some Sample.finalOneFails ∧
  In (EvWriteCSV None) Sample.runOneFails ∧
  allViolationRows Sample.finalOneFails ≡ₚ
    map toReportRow [Sample.v1; Sample.v2].
Proof.
  assert (run Sample.Join Sample.svc None "report.csv" initial Sample.runOneFails =
          Some Sample.finalOneFails) as Hrun by (vm_compute; reflexivity).
  assert (In (EvWriteCSV None) Sample.runOneFails) as Hin
    by (vm_compute; tauto).
  assert (¬ In EvCancel Sample.runOneFails) as Hnc.
  { intros H. simpl in H.
    repeat (destruct H as [H|H]; [discriminate H|]). exact H. }
  split; [exact Hrun|]. split; [exact Hin|].
  exact (proj2 (X13_report_content Sample.Join Sample.svc None "report.csv"
                  _ _ _ Hrun Hin) Hnc).
Defined.

Lemma X15_calling_goroutine_log_witness :
  run Sample.Join Sample.svc None "report.csv" initial
      Scenario.runOrganizationsFail = Some Scenario.finalOrganizationsFail ∧
  log Scenario.finalOrganizationsFail =
    [mkLog Info None "GenerateLatestPolicyReport invoked";
     mkLog Info None "Fetched applications";
     mkLog ErrorLevel None "failed to retrieve organization list"].
Proof.
  assert (run Sample.Join Sample.svc None "report.csv" initial
            Scenario.runOrganizationsFail = Some Scenario.finalOrganizationsFail)
    as Hrun by (vm_compute; reflexivity).
  split; [exact Hrun|].
  apply (proj1 (proj2 (proj2
    (X15_calling_goroutine_log Sample.Join Sample.svc None "report.csv"
       _ _ Hrun))) [] Sample.boom).
  right. left. reflexivity.
Defined.
